(** * Sum Game for Kids: the persistence layer and the quiz session of app.py

    A shallow embedding of [src/app.py]: the pooled query gateway
    ([get_db_pool], [execute_query]), the player store built on it
    ([get_player_score], [create_player], [update_player_score],
    [get_leaderboard], [prune_players]), the question generator
    ([generate_questions]) and the two Flask handlers that drive a quiz
    session ([index], [game]).

    Process-wide state of the Python module (the global [_db_pool], the
    [DATABASE_URL] constant, the generator behind the [random] module) and
    the state of the PostgreSQL server (the [players] table, its serial
    counter, its clock) are the fields of one record, [World], threaded
    through every function.  The Flask session is a record of optional
    entries, one per key the handlers use. *)

From Stdlib Require Import ZArith List String Ascii Bool Lia Permutation Sorted.
From Stdlib Require Import DecimalString.
Import ListNotations.
Open Scope string_scope.
Open Scope list_scope.
Open Scope Z_scope.

(* ------------------------------------------------------------------ *)
(** ** Python values and exceptions *)

Inductive PyExn : Type :=
| IndexError
| TypeError
| ValueError.

(** The result of evaluating a Python expression or call. *)
Inductive Outcome (A : Type) : Type :=
| Ok (a : A)
| Raised (e : PyExn).
Arguments Ok {A} a.
Arguments Raised {A} e.

(** The Python objects that travel between psycopg2 and the handlers:
    [None], integers, strings, result rows (tuples) and lists of rows. *)
#[warnings="-register-all"]
Inductive PyVal : Type :=
| PNone
| PInt (z : Z)
| PStr (s : string)
| PTuple (items : list PyVal)
| PList (items : list PyVal).

(** Python truth value, as used by [if row], [rows or []], [x or 0]. *)
Definition truthy (v : PyVal) : bool :=
  match v with
  | PNone => false
  | PInt z => negb (z =? 0)
  | PStr s => negb (String.eqb s "")
  | PTuple items | PList items =>
      match items with [] => false | _ :: _ => true end
  end.

(** [a or b]. *)
Definition py_or (a b : PyVal) : PyVal := if truthy a then a else b.

(** [seq[i]] on a Python list: negative indices count from the end, an
    index outside [-len, len) raises IndexError. *)
Definition list_getitem {A : Type} (l : list A) (i : Z) : Outcome A :=
  let len := Z.of_nat (List.length l) in
  let j := if i <? 0 then i + len else i in
  if (0 <=? j) && (j <? len)
  then match nth_error l (Z.to_nat j) with
       | Some x => Ok x
       | None => Raised IndexError
       end
  else Raised IndexError.

(** [v[i]] on a value. *)
Definition py_getitem (v : PyVal) (i : Z) : Outcome PyVal :=
  match v with
  | PTuple items | PList items => list_getitem items i
  | PStr s =>
      match list_getitem (list_ascii_of_string s) i with
      | Ok c => Ok (PStr (String c EmptyString))
      | Raised e => Raised e
      end
  | PNone | PInt _ => Raised TypeError
  end.

(* ------------------------------------------------------------------ *)
(** ** The random source

    [random.choice] and [random.randint] are both built on the generator's
    [_randbelow n], which returns an integer in [0, n) and advances the
    generator.  The generator itself is the hidden instance shared by the
    whole [random] module; only this contract of it is used. *)

Class RandomSource (G : Type) : Type := {
  randbelow : Z -> G -> Z * G;
  randbelow_range : forall n g, 0 < n -> 0 <= fst (randbelow n g) < n
}.

(* ------------------------------------------------------------------ *)
(** ** Data model *)

(** A question, the dict [{'a': a, 'b': b, 'op': op, 'answer': answer}]. *)
Inductive Op : Type := Plus | Minus.

Record Question : Type := mkQuestion {
  q_a : Z;
  q_b : Z;
  q_op : Op;
  q_answer : Z
}.

(** A row of the [players] table:
    [id SERIAL PRIMARY KEY, name TEXT UNIQUE NOT NULL,
     total_score INTEGER NOT NULL DEFAULT 0,
     last_played TIMESTAMPTZ NOT NULL DEFAULT NOW()]. *)
Record Player : Type := mkPlayer {
  p_id : Z;
  p_name : string;
  p_total_score : Z;
  p_last_played : Z
}.

(** The server side: the table and the counter behind [id SERIAL]. *)
Record Database : Type := mkDatabase {
  players : list Player;
  next_id : Z
}.

(** A psycopg2 [SimpleConnectionPool]: the connections lying idle in it
    and the ones handed out by [getconn] and not yet put back. *)
Definition Conn : Type := nat.

Record Pool : Type := mkPool {
  pool_idle : list Conn;
  pool_used : list Conn
}.

Definition minconn : nat := 1.
Definition maxconn : nat := 10.

(** What can go wrong, outside the program's control, during one call of
    [execute_query]. *)
Inductive Fault : Type :=
| NoFault
| PoolCreationFails        (* SimpleConnectionPool(...) raises *)
| GetconnOperationalError  (* getconn() cannot connect *)
| GetconnError             (* getconn() raises another error *)
| ExecuteOperationalError  (* the connection breaks during execute *)
| ExecuteError.            (* the server rejects the statement *)

(** The five statements the player store sends, with their parameters. *)
Inductive Statement : Type :=
| SelectScore (name : string)
| InsertPlayer (name : string)
| UpdateScore (additional_points : Z) (name : string)
| SelectLeaderboard (limit : Z)
| DeleteStale (max_players : Z).

(** Calls of the player store, recorded in call order. *)
Inductive StoreCall : Type :=
| CallGetPlayerScore (name : string)
| CallCreatePlayer (name : string)
| CallUpdatePlayerScore (name : string) (additional_points : Z)
| CallGetLeaderboard (limit : Z)
| CallPrunePlayers (max_players : Z).

Section Program.

Context {G : Type} `{RandomSource G}.

(** Everything outside the Flask session that the program reads or
    writes.  [calls] and [executed] are histories kept for the statements
    of the theorems: the player-store calls made so far and the statements
    handed to [cur.execute] so far. *)
Record World : Type := mkWorld {
  DATABASE_URL : option string;
  db_pool : option nat;          (* the global _db_pool: a pool object *)
  pools : list Pool;             (* the pool objects created so far *)
  next_conn : Conn;              (* connections opened so far *)
  db : Database;
  clock : Z;                     (* what NOW() returns *)
  faults : list Fault;           (* faults of the calls to come *)
  rng : G;                       (* the generator of the random module *)
  calls : list StoreCall;
  executed : list Statement
}.

Definition set_db_pool (p : option nat) (w : World) : World :=
  mkWorld (DATABASE_URL w) p (pools w) (next_conn w) (db w) (clock w)
          (faults w) (rng w) (calls w) (executed w).

Definition set_pools (ps : list Pool) (w : World) : World :=
  mkWorld (DATABASE_URL w) (db_pool w) ps (next_conn w) (db w) (clock w)
          (faults w) (rng w) (calls w) (executed w).

Definition set_next_conn (c : Conn) (w : World) : World :=
  mkWorld (DATABASE_URL w) (db_pool w) (pools w) c (db w) (clock w)
          (faults w) (rng w) (calls w) (executed w).

Definition set_db (d : Database) (w : World) : World :=
  mkWorld (DATABASE_URL w) (db_pool w) (pools w) (next_conn w) d (clock w)
          (faults w) (rng w) (calls w) (executed w).

Definition set_rng (g : G) (w : World) : World :=
  mkWorld (DATABASE_URL w) (db_pool w) (pools w) (next_conn w) (db w)
          (clock w) (faults w) g (calls w) (executed w).

Definition log_call (c : StoreCall) (w : World) : World :=
  mkWorld (DATABASE_URL w) (db_pool w) (pools w) (next_conn w) (db w)
          (clock w) (faults w) (rng w) (calls w ++ [c]) (executed w).

Definition log_executed (q : Statement) (w : World) : World :=
  mkWorld (DATABASE_URL w) (db_pool w) (pools w) (next_conn w) (db w)
          (clock w) (faults w) (rng w) (calls w) (executed w ++ [q]).

(** One round of I/O with the server: the fault scheduled for it is
    consumed and time passes. *)
Definition next_fault (w : World) : Fault := hd NoFault (faults w).

Definition tick (w : World) : World :=
  mkWorld (DATABASE_URL w) (db_pool w) (pools w) (next_conn w) (db w)
          (clock w + 1) (tl (faults w)) (rng w) (calls w) (executed w).

(* ------------------------------------------------------------------ *)
(** ** Game logic helpers *)

(** [random.choice(seq)] is [seq[_randbelow(len(seq))]]. *)
Definition random_choice {A : Type} (seq : list A) (w : World)
  : Outcome A * World :=
  match seq with
  | [] => (Raised IndexError, w)
  | _ :: _ =>
      let (i, g) := randbelow (Z.of_nat (List.length seq)) (rng w) in
      (list_getitem seq i, set_rng g w)
  end.

(** [random.randint(a, b)] is [a + _randbelow(b - a + 1)]; an empty range
    raises ValueError. *)
Definition random_randint (a b : Z) (w : World) : Outcome Z * World :=
  if b - a + 1 <=? 0 then (Raised ValueError, w)
  else let (r, g) := randbelow (b - a + 1) (rng w) in
       (Ok (a + r), set_rng g w).

(** One iteration of the loop body of [generate_questions]. *)
Definition generate_question (w : World) : Outcome Question * World :=
  match random_choice [Plus; Minus] w with
  | (Raised e, w1) => (Raised e, w1)
  | (Ok op, w1) =>
      match random_randint 0 999 w1 with
      | (Raised e, w2) => (Raised e, w2)
      | (Ok a, w2) =>
          match random_randint 0 999 w2 with
          | (Raised e, w3) => (Raised e, w3)
          | (Ok b, w3) =>
              match op with
              | Plus => (Ok (mkQuestion a b Plus (a + b)), w3)
              | Minus =>
                  let (a', b') := if b >? a then (b, a) else (a, b) in
                  (Ok (mkQuestion a' b' Minus (a' - b')), w3)
              end
          end
      end
  end.

(** [for _ in range(count)]: the loop, with the list built so far. *)
Fixpoint generate_loop (n : nat) (questions : list Question) (w : World)
  : Outcome (list Question) * World :=
  match n with
  | O => (Ok questions, w)
  | S n' =>
      match generate_question w with
      | (Raised e, w1) => (Raised e, w1)
      | (Ok q, w1) => generate_loop n' (questions ++ [q]) w1
      end
  end.

(** [generate_questions(count)]; [range(count)] is empty for a negative
    count. *)
Definition generate_questions (count : Z) (w : World)
  : Outcome (list Question) * World :=
  generate_loop (Z.to_nat count) [] w.

(* ------------------------------------------------------------------ *)
(** ** The PostgreSQL side: what each statement does to the table *)

(** The range of an [INTEGER] column; a value outside it makes the
    statement fail with "integer out of range". *)
Definition int4_range (z : Z) : bool :=
  (-2147483648 <=? z) && (z <=? 2147483647).

(** [ORDER BY]: a stable insertion sort, [le x y] meaning that [x] may
    come before [y]. *)
Fixpoint insert_by (le : Player -> Player -> bool) (x : Player)
  (l : list Player) : list Player :=
  match l with
  | [] => [x]
  | y :: l' => if le x y then x :: l else y :: insert_by le x l'
  end.

Fixpoint order_by (le : Player -> Player -> bool) (l : list Player)
  : list Player :=
  match l with
  | [] => []
  | x :: l' => insert_by le x (order_by le l')
  end.

(** [ORDER BY total_score DESC, last_played ASC]. *)
Definition leaderboard_le (x y : Player) : bool :=
  (p_total_score y <? p_total_score x)
  || ((p_total_score x =? p_total_score y)
      && (p_last_played x <=? p_last_played y)).

(** [ORDER BY last_played DESC]. *)
Definition recent_le (x y : Player) : bool :=
  p_last_played y <=? p_last_played x.

Definition has_name (name : string) (p : Player) : bool :=
  String.eqb (p_name p) name.

(** [SET total_score = total_score + %s, last_played = NOW()
     WHERE name = %s], on one row. *)
Definition add_points (additional_points : Z) (name : string) (now : Z)
  (p : Player) : Player :=
  if has_name name p
  then mkPlayer (p_id p) (p_name p) (p_total_score p + additional_points) now
  else p.

(** The ids selected by
    [SELECT id FROM players ORDER BY last_played DESC LIMIT %s]. *)
Definition recent_ids (max_players : Z) (rows : list Player) : list Z :=
  map p_id (firstn (Z.to_nat max_players) (order_by recent_le rows)).

Definition id_in (ids : list Z) (p : Player) : bool :=
  existsb (Z.eqb (p_id p)) ids.

(** Whether the statement produces a result set; fetching from a cursor
    without one raises ProgrammingError. *)
Definition returns_rows (query : Statement) : bool :=
  match query with
  | SelectScore _ | SelectLeaderboard _ => true
  | InsertPlayer _ | UpdateScore _ _ | DeleteStale _ => false
  end.

(** The effect of one statement at time [now]: the new database and the
    result rows, or [None] when the server rejects the statement. *)
Definition run_statement (query : Statement) (now : Z) (d : Database)
  : option (Database * list PyVal) :=
  match query with
  | SelectScore name =>
      Some (d, map (fun p => PTuple [PInt (p_total_score p)])
                   (filter (has_name name) (players d)))
  | InsertPlayer name =>
      if negb (int4_range (next_id d)) then None
      else if existsb (has_name name) (players d)
      then Some (mkDatabase (players d) (next_id d + 1), [])
      else Some (mkDatabase (players d ++ [mkPlayer (next_id d) name 0 now])
                            (next_id d + 1), [])
  | UpdateScore additional_points name =>
      if existsb (fun p => has_name name p
                           && negb (int4_range
                                      (p_total_score p + additional_points)))
                 (players d)
      then None
      else Some (mkDatabase (map (add_points additional_points name now)
                                 (players d))
                            (next_id d), [])
  | SelectLeaderboard limit =>
      if limit <? 0 then None
      else Some (d, map (fun p => PTuple [PStr (p_name p);
                                          PInt (p_total_score p)])
                        (firstn (Z.to_nat limit)
                                (order_by leaderboard_le (players d))))
  | DeleteStale max_players =>
      if max_players <? 0 then None
      else Some (mkDatabase
                   (filter (id_in (recent_ids max_players (players d)))
                           (players d))
                   (next_id d), [])
  end.

(* ------------------------------------------------------------------ *)
(** ** The connection pool (psycopg2's SimpleConnectionPool) *)

(** [SimpleConnectionPool(minconn, maxconn, dsn)] opens [minconn]
    connections. *)
Definition new_pool (first : Conn) : Pool :=
  mkPool (seq first minconn) [].

(** [getconn]: the last idle connection, else a new one while fewer than
    [maxconn] are out, else PoolError ([None]).  The boolean tells whether
    a connection was opened. *)
Definition getconn (pl : Pool) (fresh : Conn) : option (Conn * Pool * bool) :=
  match rev (pool_idle pl) with
  | c :: rest => Some (c, mkPool (rev rest) (c :: pool_used pl), false)
  | [] =>
      if (List.length (pool_used pl) <? maxconn)%nat
      then Some (fresh, mkPool [] (fresh :: pool_used pl), true)
      else None
  end.

(** [putconn]: the connection is no longer out; it is kept idle while
    fewer than [minconn] are idle and closed otherwise. *)
Definition putconn (pl : Pool) (c : Conn) : Pool :=
  mkPool (if (List.length (pool_idle pl) <? minconn)%nat
          then pool_idle pl ++ [c] else pool_idle pl)
         (filter (fun c' => negb (Nat.eqb c' c)) (pool_used pl)).

Fixpoint replace_nth {A : Type} (n : nat) (x : A) (l : list A) : list A :=
  match l, n with
  | [], _ => []
  | _ :: l', O => x :: l'
  | y :: l', S n' => y :: replace_nth n' x l'
  end.

(** [pool.getconn()] on the pool object at address [p]. *)
Definition pool_getconn (p : nat) (w : World) : option (Conn * World) :=
  match nth_error (pools w) p with
  | None => None
  | Some pl =>
      match getconn pl (next_conn w) with
      | None => None
      | Some (c, pl', opened) =>
          Some (c, set_next_conn (if opened then S (next_conn w)
                                  else next_conn w)
                     (set_pools (replace_nth p pl' (pools w)) w))
      end
  end.

(** [pool.putconn(conn)] on the pool object at address [p]. *)
Definition pool_putconn (p : nat) (c : Conn) (w : World) : World :=
  match nth_error (pools w) p with
  | None => w
  | Some pl => set_pools (replace_nth p (putconn pl c) (pools w)) w
  end.

(* ------------------------------------------------------------------ *)
(** ** The query gateway *)

(** [not DATABASE_URL] is true for an unset and for an empty value. *)
Definition url_set (w : World) : bool :=
  match DATABASE_URL w with
  | Some s => negb (String.eqb s "")
  | None => false
  end.

Definition get_db_pool (w : World) : option nat * World :=
  if negb (url_set w) then (None, w)
  else match db_pool w with
       | Some p => (Some p, w)
       | None =>
           match next_fault w with
           | PoolCreationFails => (None, set_db_pool None (tick w))
           | _ =>
               let p := List.length (pools w) in
               (Some p,
                set_db_pool (Some p)
                  (set_next_conn (next_conn w + minconn)%nat
                     (set_pools (pools w ++ [new_pool (next_conn w)]) w)))
           end
       end.

(** The [try] statement of [execute_query], entered with the pool object
    [pool] in hand: [getconn], [execute], fetch, [commit], the two
    [except] clauses and the [finally] clause. *)
Definition execute_on_pool (pool : nat) (query : Statement)
  (fetchone fetchall : bool) (w1 : World) : PyVal * World :=
  let fault := next_fault w1 in
  let w2 := tick w1 in
  match fault with
  | GetconnOperationalError => (PNone, set_db_pool None w2)
  | GetconnError => (PNone, w2)
  | _ =>
      match pool_getconn pool w2 with
      | None => (PNone, w2)
      | Some (conn, w3) =>
          let w4 := log_executed query w3 in
          match fault with
          | ExecuteOperationalError =>
              (PNone, pool_putconn pool conn (set_db_pool None w4))
          | ExecuteError =>
              (PNone, pool_putconn pool conn w4)
          | _ =>
              match run_statement query (clock w4) (db w4) with
              | None => (PNone, pool_putconn pool conn w4)
              | Some (d, rows) =>
                  if (fetchone || fetchall) && negb (returns_rows query)
                  then (PNone, pool_putconn pool conn w4)
                  else
                    let result :=
                      if fetchone then hd PNone rows
                      else if fetchall then PList rows
                      else PNone in
                    (result, pool_putconn pool conn (set_db d w4))
              end
          end
      end
  end.

(** [execute_query(query, params, fetchone=..., fetchall=...)].  The
    statement and its parameters are one [Statement].  Every exception
    raised inside the [try] is caught there, so the call returns a value
    in every case; [None] is [PNone]. *)
Definition execute_query (query : Statement) (fetchone fetchall : bool)
  (w : World) : PyVal * World :=
  match get_db_pool w with
  | (None, w1) => (PNone, w1)
  | (Some pool, w1) => execute_on_pool pool query fetchone fetchall w1
  end.

(* ------------------------------------------------------------------ *)
(** ** Database management helpers (the player store) *)

Definition get_player_score (name : string) (w : World)
  : Outcome PyVal * World :=
  let (row, w1) := execute_query (SelectScore name) true false
                     (log_call (CallGetPlayerScore name) w) in
  ((if truthy row then py_getitem row 0 else Ok PNone), w1).

Definition create_player (name : string) (w : World) : Outcome unit * World :=
  let (_, w1) := execute_query (InsertPlayer name) false false
                   (log_call (CallCreatePlayer name) w) in
  (Ok tt, w1).

Definition update_player_score (name : string) (additional_points : Z)
  (w : World) : Outcome unit * World :=
  let (_, w1) := execute_query (UpdateScore additional_points name)
                   false false
                   (log_call (CallUpdatePlayerScore name additional_points)
                             w) in
  (Ok tt, w1).

Definition get_leaderboard (limit : Z) (w : World) : Outcome PyVal * World :=
  let (rows, w1) := execute_query (SelectLeaderboard limit) false true
                      (log_call (CallGetLeaderboard limit) w) in
  (Ok (py_or rows (PList [])), w1).

Definition prune_players (max_players : Z) (w : World)
  : Outcome unit * World :=
  let (_, w1) := execute_query (DeleteStale max_players) false false
                   (log_call (CallPrunePlayers max_players) w) in
  (Ok tt, w1).

(* ------------------------------------------------------------------ *)
(** ** Text helpers: [str.strip], [int(text)], [str(n)]

    Strings are byte strings here; whitespace and digits are the ASCII
    ones. *)

Definition is_space (c : ascii) : bool :=
  let n := nat_of_ascii c in
  (((9 <=? n) && (n <=? 13)) || ((28 <=? n) && (n <=? 32)))%nat.

Fixpoint lstrip (s : string) : string :=
  match s with
  | EmptyString => EmptyString
  | String c rest => if is_space c then lstrip rest else s
  end.

Definition string_rev (s : string) : string :=
  string_of_list_ascii (rev (list_ascii_of_string s)).

Definition strip (s : string) : string :=
  string_rev (lstrip (string_rev (lstrip s))).

Definition digit_value (c : ascii) : option Z :=
  let n := nat_of_ascii c in
  if ((48 <=? n) && (n <=? 57))%nat then Some (Z.of_nat n - 48) else None.

(** Decimal digits, single underscores allowed between two digits. *)
Fixpoint parse_digits (s : string) (acc : Z) (after_digit : bool)
  : option Z :=
  match s with
  | EmptyString => if after_digit then Some acc else None
  | String c rest =>
      match digit_value c with
      | Some d => parse_digits rest (10 * acc + d) true
      | None =>
          if Ascii.eqb c "_" && after_digit
          then parse_digits rest acc false
          else None
      end
  end.

(** [int(text)]: surrounding whitespace, an optional sign, digits;
    anything else raises ValueError. *)
Definition py_int (text : string) : Outcome Z :=
  let s := strip text in
  let parsed :=
    match s with
    | String "+" rest => parse_digits rest 0 false
    | String "-" rest => option_map Z.opp (parse_digits rest 0 false)
    | _ => parse_digits s 0 false
    end in
  match parsed with
  | Some z => Ok z
  | None => Raised ValueError
  end.

(** [str(n)] for an integer. *)
Definition py_str (n : Z) : string := NilZero.string_of_int (Z.to_int n).

(* ------------------------------------------------------------------ *)
(** ** The Flask side: session, request, response *)

(** The session object: the six keys the handlers use, each present or
    absent.  For [feedback], the stored value [None] and an absent key
    are read alike ([session.get('feedback', None)]) and both are
    [None] here. *)
Record Session : Type := mkSession {
  s_name : option string;
  s_session_score : option Z;
  s_questions : option (list Question);
  s_current_index : option Z;
  s_feedback : option string;
  s_final_score : option Z
}.

(** [session.clear()]. *)
Definition empty_session : Session :=
  mkSession None None None None None None.

(** [session.get(key, default)]. *)
Definition session_get {A : Type} (entry : option A) (default : A) : A :=
  match entry with
  | Some v => v
  | None => default
  end.

Definition set_session_score (v : Z) (s : Session) : Session :=
  mkSession (s_name s) (Some v) (s_questions s) (s_current_index s)
            (s_feedback s) (s_final_score s).

Definition set_questions (v : list Question) (s : Session) : Session :=
  mkSession (s_name s) (s_session_score s) (Some v) (s_current_index s)
            (s_feedback s) (s_final_score s).

Definition set_current_index (v : Z) (s : Session) : Session :=
  mkSession (s_name s) (s_session_score s) (s_questions s) (Some v)
            (s_feedback s) (s_final_score s).

Definition set_feedback (v : option string) (s : Session) : Session :=
  mkSession (s_name s) (s_session_score s) (s_questions s)
            (s_current_index s) v (s_final_score s).

Definition set_final_score (v : Z) (s : Session) : Session :=
  mkSession (s_name s) (s_session_score s) (s_questions s)
            (s_current_index s) (s_feedback s) (Some v).

Inductive Method : Type := GET | POST.

Record Request : Type := mkRequest {
  method : Method;
  form : list (string * string)
}.

(** [request.form.get(key, default)]. *)
Fixpoint form_get (key default : string) (fields : list (string * string))
  : string :=
  match fields with
  | [] => default
  | (k, v) :: rest => if String.eqb k key then v else form_get key default rest
  end.

(** What a handler returns: a redirect or one of the three pages of
    [index.html] with the values passed to the template. *)
Inductive Response : Type :=
| Redirect (endpoint : string)
| RenderLogin (leaderboard : PyVal) (error : option string)
| RenderGameOver (final_score : Z) (total_score leaderboard : PyVal)
| RenderGame (question : Question) (progress question_count : Z)
    (feedback : option string) (total_score leaderboard : PyVal).

(** Computations that use the world and may raise. *)
Definition M (A : Type) : Type := World -> Outcome A * World.

Definition ret {A : Type} (a : A) : M A := fun w => (Ok a, w).

Definition bind {A B : Type} (c : M A) (k : A -> M B) : M B :=
  fun w =>
    match c w with
    | (Ok a, w1) => k a w1
    | (Raised e, w1) => (Raised e, w1)
    end.

Definition lift {A : Type} (o : Outcome A) : M A := fun w => (o, w).

Notation "x <- c ;; k" := (bind c (fun x => k))
  (at level 61, c at next level, right associativity).

Definition len {A : Type} (l : list A) : Z := Z.of_nat (List.length l).

Definition nonempty {A : Type} (l : list A) : bool :=
  match l with [] => false | _ :: _ => true end.

Definition is_post (m : Method) : bool :=
  match m with POST => true | GET => false end.

(* ------------------------------------------------------------------ *)
(** ** Flask routes *)

(** [index()], the landing page; a POST with a name starts a game. *)
Definition index (request : Request) (session : Session)
  : M (Response * Session) :=
  lb <- get_leaderboard 3 ;;
  let leaderboard := py_or lb (PList []) in
  match method request with
  | POST =>
      let name := strip (form_get "name" "" (form request)) in
      if String.eqb name ""
      then ret (RenderLogin leaderboard (Some "Please enter your name."),
                session)
      else
        questions <- generate_questions 10 ;;
        let session1 :=
          mkSession (Some name) (Some 0) (Some questions) (Some 0) None
                    (Some 0) in
        _ <- create_player name ;;
        ret (Redirect "game", session1)
  | GET =>
      match s_name session with
      | Some name =>
          if negb (String.eqb name "")
          then ret (Redirect "game", session)
          else ret (RenderLogin leaderboard None, session)
      | None => ret (RenderLogin leaderboard None, session)
      end
  end.

(** [f"Incorrect! The correct answer was {correct}."] *)
Definition incorrect_message (correct : Z) : string :=
  String.append "Incorrect! The correct answer was "
                (String.append (py_str correct) ".").

(** Lines 342-358 of [game]: parse the submitted text and evaluate the
    current question.  Returns the session with the local variables
    [current_index] and [feedback] as they stand afterwards. *)
Definition evaluate_answer (request : Request) (questions : list Question)
  (current_index : Z) (feedback : option string) (session : Session)
  : Outcome (Session * Z * option string) :=
  let answer_text := strip (form_get "answer" "" (form request)) in
  match
    match py_int answer_text with
    | Ok v => Ok (Some v)
    | Raised ValueError => Ok None
    | Raised e => Raised e
    end
  with
  | Raised e => Raised e
  | Ok user_answer =>
      if current_index <? len questions then
        match list_getitem questions current_index with
        | Raised e => Raised e
        | Ok question =>
            let correct := q_answer question in
            let '(session1, feedback1) :=
              match user_answer with
              | Some v =>
                  if v =? correct
                  then (set_session_score
                          (session_get (s_session_score session) 0 + 1)
                          session,
                        "Correct!")
                  else (session, incorrect_message correct)
              | None => (session, incorrect_message correct)
              end in
            let session2 := set_feedback (Some feedback1) session1 in
            let current_index1 := current_index + 1 in
            Ok (set_current_index current_index1 session2,
                current_index1, Some feedback1)
        end
      else Ok (session, current_index, feedback)
  end.

(** Lines 361-380 of [game]: all questions are answered. *)
Definition finish_game (name : string) (session : Session)
  : M (Response * Session) :=
  let session_score := session_get (s_session_score session) 0 in
  _ <- update_player_score name session_score ;;
  _ <- prune_players 100 ;;
  let session1 :=
    set_current_index 0
      (set_questions []
         (set_session_score 0 (set_final_score session_score session))) in
  let final_score := session_score in
  score <- get_player_score name ;;
  let total_score := py_or score (PInt 0) in
  lb <- get_leaderboard 3 ;;
  let leaderboard := py_or lb (PList []) in
  ret (RenderGameOver final_score total_score leaderboard, session1).

(** Lines 382-404 of [game]: the page to show. *)
Definition show_page (questions : list Question) (current_index : Z)
  (feedback : option string) (final_score : Z)
  (total_score leaderboard : PyVal) (session : Session)
  : M (Response * Session) :=
  if negb (nonempty questions) || (current_index >=? len questions)
  then ret (RenderGameOver final_score total_score leaderboard, session)
  else
    question <- lift (list_getitem questions current_index) ;;
    let progress := current_index + 1 in
    let question_count := len questions in
    ret (RenderGame question progress question_count feedback
                    total_score leaderboard,
         session).

(** [game()]. *)
Definition game (request : Request) (session : Session)
  : M (Response * Session) :=
  match s_name session with
  | None => ret (Redirect "index", session)
  | Some name =>
      score <- get_player_score name ;;
      let total_score := py_or score (PInt 0) in
      lb <- get_leaderboard 3 ;;
      let leaderboard := py_or lb (PList []) in
      let questions := session_get (s_questions session) [] in
      let current_index := session_get (s_current_index session) 0 in
      let feedback := s_feedback session in
      let final_score := session_get (s_final_score session) 0 in
      if is_post (method request) && nonempty questions then
        st <- lift (evaluate_answer request questions current_index
                                    feedback session) ;;
        let '(session1, current_index1, feedback1) := st in
        if current_index1 >=? len questions
        then finish_game name session1
        else show_page questions current_index1 feedback1 final_score
                       total_score leaderboard session1
      else show_page questions current_index feedback final_score
                     total_score leaderboard session
  end.

(** [logout()]. *)
Definition logout (session : Session) : M (Response * Session) :=
  ret (Redirect "index", empty_session).

(* ------------------------------------------------------------------ *)
(** ** Notions used to state the properties *)

(** Whether the scheduled fault strikes the next gateway call: a failing
    pool creation only matters while there is no pool. *)
Definition fault_fires (w : World) : bool :=
  match next_fault w with
  | NoFault => false
  | PoolCreationFails =>
      match db_pool w with None => true | Some _ => false end
  | _ => true
  end.

(** Whether the server would reject the statement on this database. *)
Definition rejects (query : Statement) (d : Database) : bool :=
  match run_statement query 0 d with
  | None => true
  | Some _ => false
  end.

(** The gateway reports "unavailable" for this statement: nothing is
    configured, or the call is hit by a fault, or the server rejects the
    statement. *)
Definition reports_unavailable (query : Statement) (w : World) : bool :=
  negb (url_set w) || fault_fires w || rejects query (db w).

(** No connection of the live pool is checked out, as is the case between
    two gateway calls. *)
Definition no_conn_out (w : World) : bool :=
  match db_pool w with
  | None => true
  | Some p =>
      match nth_error (pools w) p with
      | Some pl => match pool_used pl with [] => true | _ :: _ => false end
      | None => false
      end
  end.

(** The connection a gateway call acquires, with the pool object it comes
    from, if it gets that far. *)
Definition acquired_conn (w : World) : option (nat * Conn) :=
  match get_db_pool w with
  | (None, _) => None
  | (Some pool, w1) =>
      match next_fault w1 with
      | GetconnOperationalError | GetconnError => None
      | _ =>
          match pool_getconn pool (tick w1) with
          | Some (conn, _) => Some (pool, conn)
          | None => None
          end
      end
  end.

(** The score commits among the player-store calls. *)
Fixpoint commits (cs : list StoreCall) : list (string * Z) :=
  match cs with
  | [] => []
  | CallUpdatePlayerScore name additional_points :: rest =>
      (name, additional_points) :: commits rest
  | _ :: rest => commits rest
  end.

(** The statement a player-store call submits, the call itself, and the
    value it returns when there is nothing to return: the empty list for
    the leaderboard, [None] for the others. *)
Definition statement_of (c : StoreCall) : Statement :=
  match c with
  | CallGetPlayerScore name => SelectScore name
  | CallCreatePlayer name => InsertPlayer name
  | CallUpdatePlayerScore name additional_points =>
      UpdateScore additional_points name
  | CallGetLeaderboard limit => SelectLeaderboard limit
  | CallPrunePlayers max_players => DeleteStale max_players
  end.

Definition as_none (r : Outcome unit * World) : Outcome PyVal * World :=
  (match fst r with Ok _ => Ok PNone | Raised e => Raised e end, snd r).

Definition run_store_call (c : StoreCall) (w : World)
  : Outcome PyVal * World :=
  match c with
  | CallGetPlayerScore name => get_player_score name w
  | CallCreatePlayer name => as_none (create_player name w)
  | CallUpdatePlayerScore name additional_points =>
      as_none (update_player_score name additional_points w)
  | CallGetLeaderboard limit => get_leaderboard limit w
  | CallPrunePlayers max_players => as_none (prune_players max_players w)
  end.

Definition empty_result (c : StoreCall) : PyVal :=
  match c with
  | CallGetLeaderboard _ => PList []
  | _ => PNone
  end.

(** The reading of "the connection is released back to the live pool":
    the connection a call acquires lies idle, after the call, in the pool
    object that serves the next call. *)
Definition returned_to_serving_pool (query : Statement)
  (fetchone fetchall : bool) (w : World) : Prop :=
  forall pool conn,
    acquired_conn w = Some (pool, conn) ->
    let w' := snd (execute_query query fetchone fetchall w) in
    exists p pl,
      fst (get_db_pool w') = Some p
      /\ nth_error (pools (snd (get_db_pool w'))) p = Some pl
      /\ In conn (pool_idle pl).

(** What makes a gateway call go through: a descriptor is configured, no
    connection of the live pool is out, and no fault strikes. *)
Definition gateway_ready (w : World) : bool :=
  url_set w && no_conn_out w && negb (fault_fires w).

(** The next [n] gateway calls meet no fault. *)
Definition is_no_fault (f : Fault) : bool :=
  match f with NoFault => true | _ => false end.

Definition calm (n : nat) (w : World) : bool :=
  forallb is_no_fault (firstn n (faults w)).

(** [x] was played at least as recently as [y]. *)
Definition more_recent (x y : Player) : Prop :=
  p_last_played y <= p_last_played x.

(** The [m] most recently played rows: the first [m] in the order of
    last_played descending. *)
Definition most_recent (m : Z) (rows : list Player) : list Player :=
  firstn (Z.to_nat m) (order_by recent_le rows).

(** The text the handler grades: [request.form.get('answer', '').strip()]. *)
Definition answer_text (request : Request) : string :=
  strip (form_get "answer" "" (form request)).

(** The submitted text parses as an integer equal to the answer. *)
Definition is_correct (request : Request) (q : Question) : bool :=
  match py_int (answer_text request) with
  | Ok v => v =? q_answer q
  | Raised _ => false
  end.

(** A POST of one answer, and the run of a list of them through [game],
    each response discarded. *)
Definition post_answer (text : string) : Request :=
  mkRequest POST [("answer", text)].

Fixpoint play (answers : list string) (session : Session) (w : World)
  : Outcome Session * World :=
  match answers with
  | [] => (Ok session, w)
  | a :: rest =>
      match game (post_answer a) session w with
      | (Ok (_, session1), w1) => play rest session1 w1
      | (Raised e, w1) => (Raised e, w1)
      end
  end.

(** How many of the questions the answers get right, question by
    question. *)
Fixpoint count_correct (questions : list Question) (answers : list string)
  : Z :=
  match questions, answers with
  | q :: questions', a :: answers' =>
      (if is_correct (post_answer a) q then 1 else 0)
      + count_correct questions' answers'
  | _, _ => 0
  end.

(** The session after the current question has been graded (lines
    348-358), and after the game has been closed (lines 361-368). *)
Definition graded (request : Request) (q : Question) (session : Session)
  : Session :=
  let feedback :=
    if is_correct request q then "Correct!"
    else incorrect_message (q_answer q) in
  set_current_index (session_get (s_current_index session) 0 + 1)
    (set_feedback (Some feedback)
       (if is_correct request q
        then set_session_score
               (session_get (s_session_score session) 0 + 1) session
        else session)).

Definition completed (session : Session) : Session :=
  set_current_index 0
    (set_questions []
       (set_session_score 0
          (set_final_score (session_get (s_session_score session) 0)
                           session))).

(** The values the handlers read from the session. *)
Definition the_questions (s : Session) : list Question :=
  session_get (s_questions s) [].
Definition the_index (s : Session) : Z := session_get (s_current_index s) 0.
Definition the_score (s : Session) : Z := session_get (s_session_score s) 0.

(** A game is in progress: a player is named and some question is still
    to be answered. *)
Definition in_progress (s : Session) : Prop :=
  s_name s <> None /\ the_questions s <> []
  /\ 0 <= the_index s < len (the_questions s).

(** One request handled without an exception takes the session from [s]
    to [s']; the world it runs in is arbitrary. *)
Inductive session_step (s s' : Session) : Prop :=
| step_index request w resp w' :
    index request s w = (Ok (resp, s'), w') -> session_step s s'
| step_game request w resp w' :
    game request s w = (Ok (resp, s'), w') -> session_step s s'
| step_logout w resp w' :
    logout s w = (Ok (resp, s'), w') -> session_step s s'.

(** The sessions a browser can hold: it starts with none. *)
Inductive reachable : Session -> Prop :=
| reach_empty : reachable empty_session
| reach_step s s' : reachable s -> session_step s s' -> reachable s'.

(** The bounds that hold of every session: the running score does not
    exceed the number of answers given, which does not exceed the number
    of questions and stays below it while questions are left. *)
Definition session_inv (s : Session) : Prop :=
  0 <= the_score s <= the_index s
  /\ the_index s <= len (the_questions s)
  /\ (the_questions s <> [] -> the_index s < len (the_questions s)).

(** The constraints of the [players] table: ids and names are unique
    (PRIMARY KEY, UNIQUE), every id was drawn from the serial counter, and
    every total fits its INTEGER column. *)
Definition table_ok (d : Database) : Prop :=
  NoDup (map p_id (players d))
  /\ NoDup (map p_name (players d))
  /\ Forall (fun p => p_id p < next_id d
                      /\ int4_range (p_total_score p) = true)
            (players d).

(** The stored total of [name], as a point lookup finds it: the first row
    of that name, if any. *)
Definition stored_score (name : string) (d : Database) : option Z :=
  match filter (has_name name) (players d) with
  | p :: _ => Some (p_total_score p)
  | [] => None
  end.



(** Every run of the computation takes the world to one related by [R]. *)
Definition respects {A : Type} (R : World -> World -> Prop) (c : M A)
  : Prop :=
  forall w, R w (snd (c w)).

(** The part of the process a request can reach without a database:
    everything but the call history and the generator is the same. *)
Definition same_but_calls_rng (w w' : World) : Prop :=
  DATABASE_URL w' = DATABASE_URL w /\ db_pool w' = db_pool w
  /\ pools w' = pools w /\ next_conn w' = next_conn w /\ db w' = db w
  /\ clock w' = clock w /\ faults w' = faults w
  /\ executed w' = executed w.

(* ------------------------------------------------------------------ *)
(** * Properties *)

(** What a well-formed question is: both operands within 0..999, the
    answer of an addition is the sum, and a subtraction has its larger
    operand first and the difference, which is not negative, as answer. *)
Definition question_ok (q : Question) : Prop :=
  0 <= q_a q <= 999 /\ 0 <= q_b q <= 999 /\
  (q_op q = Plus -> q_answer q = q_a q + q_b q) /\
  (q_op q = Minus ->
   q_b q <= q_a q /\ 0 <= q_b q /\
   q_answer q = q_a q - q_b q /\ 0 <= q_answer q).

(** No fault lies ahead, and the gateway is in working order with none
    ahead. *)
Definition fault_free (w : World) : bool :=
  forallb is_no_fault (faults w).

Definition healthy (w : World) : bool :=
  url_set w && no_conn_out w && fault_free w.

(** Every row was last played no later than now. *)
Definition stamps_in_past (w : World) : Prop :=
  Forall (fun p => p_last_played p <= clock w) (players (db w)).

(** The stored total of [name], 0 when there is no row. *)
Definition score_or_zero (name : string) (d : Database) : Z :=
  match stored_score name d with
  | Some z => z
  | None => 0
  end.

(** No score was lowered on the way from table [d] to table [d']: every
    row of [d'] is a row of [d] with the same id and name and a total at
    least as high, or a row created since, with a total >= 0. *)
Definition scores_kept (d d' : Database) : Prop :=
  next_id d <= next_id d'
  /\ forall p',
       In p' (players d') ->
       (exists p, In p (players d) /\ p_id p = p_id p'
                  /\ p_name p = p_name p'
                  /\ p_total_score p <= p_total_score p')
       \/ (next_id d <= p_id p' /\ 0 <= p_total_score p').

(** The updates that add a non-negative number of points. *)
Definition adds_no_negative (query : Statement) : Prop :=
  match query with
  | UpdateScore additional_points _ => 0 <= additional_points
  | _ => True
  end.

(** What the question list and the final score of a session look like:
    no question or ten, each well formed, and a final score within
    0..10. *)
Definition session_shape (s : Session) : Prop :=
  (the_questions s = [] \/ len (the_questions s) = 10)
  /\ Forall question_ok (the_questions s)
  /\ 0 <= session_get (s_final_score s) 0 <= 10.

(** The faults that reach [execute_query] as an OperationalError, the
    exception whose handler discards the pool. *)
Definition operational_error (f : Fault) : bool :=
  match f with
  | GetconnOperationalError | ExecuteOperationalError => true
  | _ => false
  end.

(** A name that can be stored in the [name] column.  psycopg2 refuses to
    pass a string with a NUL character as a parameter (ValueError, which
    [execute_query] catches like any statement-level error), and the
    index behind UNIQUE holds no entry beyond 2704 bytes, which leaves
    room for every name of up to [max_name_bytes] bytes.  For such names
    [run_statement] is what the server does with the statement. *)
Definition max_name_bytes : nat := 2000.

Definition has_nul (s : string) : bool :=
  existsb (Ascii.eqb Ascii.zero) (list_ascii_of_string s).

Definition storable (name : string) : bool :=
  negb (has_nul name) && (String.length name <=? max_name_bytes)%nat.

Lemma list_getitem_in_range {A : Type} (l : list A) (i : Z) :
  0 <= i < len l -> exists x, list_getitem l i = Ok x /\ In x l.
Proof.
  intros Hi. unfold list_getitem, len in *.
  destruct (i <? 0) eqn:Eneg; [apply Z.ltb_lt in Eneg; lia|].
  replace ((0 <=? i) && (i <? Z.of_nat (List.length l))) with true
    by (symmetry; apply andb_true_iff; split;
        [apply Z.leb_le | apply Z.ltb_lt]; lia).
  destruct (nth_error l (Z.to_nat i)) as [x|] eqn:Enth.
  - exists x. split; [reflexivity | eapply nth_error_In; eassumption].
  - apply nth_error_None in Enth. lia.
Qed.

(** Drawing from the random module touches the generator and nothing
    else. *)
Definition same_but_rng (w w' : World) : Prop := w' = set_rng (rng w') w.

Lemma same_but_rng_refl w : same_but_rng w w.
Proof. destruct w; reflexivity. Qed.

Lemma same_but_rng_set g w : same_but_rng w (set_rng g w).
Proof. destruct w; reflexivity. Qed.

Lemma same_but_rng_trans w1 w2 w3 :
  same_but_rng w1 w2 -> same_but_rng w2 w3 -> same_but_rng w1 w3.
Proof.
  unfold same_but_rng. intros H12 H23. rewrite H23 at 1. rewrite H12 at 1.
  destruct w1; reflexivity.
Qed.

Lemma random_choice_op w :
  exists op, fst (random_choice [Plus; Minus] w) = Ok op
             /\ same_but_rng w (snd (random_choice [Plus; Minus] w)).
Proof.
  unfold random_choice.
  pose proof (randbelow_range (Z.of_nat (List.length [Plus; Minus])) (rng w))
    as Hr.
  destruct (randbelow (Z.of_nat (List.length [Plus; Minus])) (rng w))
    as [i g] eqn:E.
  cbn [fst snd] in *.
  destruct (list_getitem_in_range [Plus; Minus] i) as [op [Hop _]].
  { unfold len. cbn in *. lia. }
  exists op. split; [exact Hop | apply same_but_rng_set].
Qed.

Lemma random_randint_range a b w :
  a <= b ->
  exists r, fst (random_randint a b w) = Ok r /\ a <= r <= b
            /\ same_but_rng w (snd (random_randint a b w)).
Proof.
  intros Hab. unfold random_randint.
  destruct (b - a + 1 <=? 0) eqn:E; [apply Z.leb_le in E; lia|].
  pose proof (randbelow_range (b - a + 1) (rng w)) as Hr.
  destruct (randbelow (b - a + 1) (rng w)) as [r g].
  cbn [fst snd] in *. exists (a + r).
  split; [reflexivity|]. split; [lia | apply same_but_rng_set].
Qed.

Lemma generate_question_ok w :
  exists q, fst (generate_question w) = Ok q /\ question_ok q
            /\ same_but_rng w (snd (generate_question w)).
Proof.
  unfold generate_question.
  destruct (random_choice_op w) as [op [Hop Hw1]].
  destruct (random_choice [Plus; Minus] w) as [o1 w1].
  cbn [fst snd] in *. subst o1.
  destruct (random_randint_range 0 999 w1) as [a [Ha [Hra Hw2]]]; [lia|].
  destruct (random_randint 0 999 w1) as [o2 w2].
  cbn [fst snd] in *. subst o2.
  destruct (random_randint_range 0 999 w2) as [b [Hb [Hrb Hw3]]]; [lia|].
  destruct (random_randint 0 999 w2) as [o3 w3].
  cbn [fst snd] in *. subst o3.
  assert (Hw : same_but_rng w w3)
    by (eapply same_but_rng_trans; [eapply same_but_rng_trans|]; eassumption).
  destruct op.
  - eexists. split; [reflexivity|]. split; [|exact Hw].
    unfold question_ok; cbn. repeat split; try lia; discriminate.
  - destruct (b >? a) eqn:E.
    + eexists. split; [reflexivity|]. split; [|exact Hw].
      apply Z.gtb_lt in E.
      unfold question_ok; cbn. repeat split; try lia; discriminate.
    + eexists. split; [reflexivity|]. split; [|exact Hw].
      assert (b <= a) by (rewrite Z.gtb_ltb in E; apply Z.ltb_ge in E; lia).
      unfold question_ok; cbn. repeat split; try lia; discriminate.
Qed.

Lemma generate_loop_ok n : forall acc w,
  Forall question_ok acc ->
  exists qs, fst (generate_loop n acc w) = Ok qs
             /\ List.length qs = (List.length acc + n)%nat
             /\ Forall question_ok qs
             /\ same_but_rng w (snd (generate_loop n acc w)).
Proof.
  induction n as [|n IH]; intros acc w Hacc; cbn [generate_loop].
  - exists acc. cbn [fst snd]. repeat split; auto using same_but_rng_refl.
  - destruct (generate_question_ok w) as [q [Hq [Hok Hw1]]].
    destruct (generate_question w) as [o w1]. cbn [fst snd] in *. subst o.
    destruct (IH (acc ++ [q]) w1) as [qs [Hqs [Hlen [Hall Hw2]]]].
    { apply Forall_app. split; [exact Hacc | constructor; auto]. }
    exists qs. repeat split; auto.
    + rewrite Hlen, length_app. cbn. lia.
    + eapply same_but_rng_trans; eassumption.
Qed.

(** C5.  For every count n >= 0, [generate_questions n] returns (it never
    raises) exactly n questions, and each of them is well formed: both
    operands lie in 0..999; for '+' the answer is a + b; for '-' the
    operands satisfy a >= b >= 0 and the answer is a - b, hence >= 0. *)
Theorem generate_questions_count_and_shape (n : Z) (w : World) :
  0 <= n ->
  exists qs, fst (generate_questions n w) = Ok qs
             /\ len qs = n
             /\ Forall question_ok qs.
Proof.
  intros Hn. unfold generate_questions.
  destruct (generate_loop_ok (Z.to_nat n) [] w (Forall_nil _))
    as [qs [Hqs [Hlen [Hall _]]]].
  exists qs. repeat split; auto.
  unfold len. rewrite Hlen. cbn. lia.
Qed.

(** The run of the loop is a function of the generator's state alone. *)
Lemma generate_loop_rng_only n : forall acc w1 w2,
  rng w1 = rng w2 ->
  fst (generate_loop n acc w1) = fst (generate_loop n acc w2)
  /\ rng (snd (generate_loop n acc w1)) = rng (snd (generate_loop n acc w2)).
Proof.
  induction n as [|n IH]; intros acc w1 w2 Hrng; cbn [generate_loop].
  - cbn [fst snd]. auto.
  - assert (Hq : fst (generate_question w1) = fst (generate_question w2)
                 /\ rng (snd (generate_question w1))
                    = rng (snd (generate_question w2))).
    { unfold generate_question, random_choice, random_randint.
      rewrite Hrng.
      destruct (randbelow (Z.of_nat (List.length [Plus; Minus])) (rng w2))
        as [i g1].
      destruct (list_getitem [Plus; Minus] i) as [op|e]; [|cbn; auto].
      change (999 - 0 + 1 <=? 0) with false. cbv iota.
      change (rng (set_rng g1 w1)) with g1.
      change (rng (set_rng g1 w2)) with g1.
      destruct (randbelow (999 - 0 + 1) g1) as [a g2].
      change (rng (set_rng g2 (set_rng g1 w1))) with g2.
      change (rng (set_rng g2 (set_rng g1 w2))) with g2.
      destruct (randbelow (999 - 0 + 1) g2) as [b g3].
      destruct op; [split; reflexivity|].
      destruct (0 + b >? 0 + a); split; reflexivity. }
    destruct Hq as [Hq1 Hq2].
    destruct (generate_question w1) as [o1 w1'].
    destruct (generate_question w2) as [o2 w2'].
    cbn [fst snd] in *. subst o2.
    destruct o1 as [q|e]; [apply IH; exact Hq2 | cbn; auto].
Qed.

(** C9, as amended.  [generate_questions] takes no random source: it
    draws from the generator of the [random] module, which is state of the
    process, and advances it.  It is deterministic in that state: two runs
    that start from the same generator state return the same questions and
    leave the same generator state, whatever else differs in the process;
    and a run changes nothing of the process but the generator. *)
Theorem generate_questions_deterministic_in_rng (n : Z) (w1 w2 : World) :
  rng w1 = rng w2 ->
  fst (generate_questions n w1) = fst (generate_questions n w2)
  /\ rng (snd (generate_questions n w1)) = rng (snd (generate_questions n w2))
  /\ same_but_rng w1 (snd (generate_questions n w1)).
Proof.
  intros Hrng. unfold generate_questions.
  destruct (generate_loop_rng_only (Z.to_nat n) [] w1 w2 Hrng) as [H1 H2].
  repeat split; auto.
  destruct (generate_loop_ok (Z.to_nat n) [] w1 (Forall_nil _))
    as [_ [_ [_ [_ Hw]]]].
  exact Hw.
Qed.

(* ------------------------------------------------------------------ *)
(** ** The gateway *)

Ltac break_match :=
  match goal with
  | |- context [match ?x with _ => _ end] => destruct x eqn:?
  end.

Lemma commits_app cs1 cs2 : commits (cs1 ++ cs2) = commits cs1 ++ commits cs2.
Proof.
  induction cs1 as [|c cs1 IH]; [reflexivity|].
  destruct c; cbn; rewrite IH; reflexivity.
Qed.

Lemma pool_putconn_frame p c w :
  calls (pool_putconn p c w) = calls w
  /\ rng (pool_putconn p c w) = rng w
  /\ db (pool_putconn p c w) = db w
  /\ db_pool (pool_putconn p c w) = db_pool w
  /\ executed (pool_putconn p c w) = executed w
  /\ DATABASE_URL (pool_putconn p c w) = DATABASE_URL w.
Proof.
  unfold pool_putconn. destruct (nth_error (pools w) p); cbn; auto 10.
Qed.

Lemma pool_getconn_frame p w c w' :
  pool_getconn p w = Some (c, w') ->
  calls w' = calls w /\ rng w' = rng w /\ db w' = db w
  /\ db_pool w' = db_pool w /\ executed w' = executed w
  /\ DATABASE_URL w' = DATABASE_URL w /\ clock w' = clock w.
Proof.
  unfold pool_getconn. intros E.
  destruct (nth_error (pools w) p); [|discriminate].
  destruct (getconn p0 (next_conn w)) as [[[c0 pl'] opened]|]; [|discriminate].
  inversion E; subst. cbn. auto 10.
Qed.

Lemma get_db_pool_frame w :
  calls (snd (get_db_pool w)) = calls w
  /\ rng (snd (get_db_pool w)) = rng w
  /\ db (snd (get_db_pool w)) = db w
  /\ executed (snd (get_db_pool w)) = executed w
  /\ DATABASE_URL (snd (get_db_pool w)) = DATABASE_URL w.
Proof.
  unfold get_db_pool. repeat break_match; cbn; auto 10.
Qed.

Lemma execute_on_pool_frame pool query fetchone fetchall w :
  calls (snd (execute_on_pool pool query fetchone fetchall w)) = calls w
  /\ rng (snd (execute_on_pool pool query fetchone fetchall w)) = rng w
  /\ DATABASE_URL (snd (execute_on_pool pool query fetchone fetchall w))
     = DATABASE_URL w.
Proof.
  assert (Hput : forall c w',
             calls w' = calls w -> rng w' = rng w ->
             DATABASE_URL w' = DATABASE_URL w ->
             calls (pool_putconn pool c w') = calls w
             /\ rng (pool_putconn pool c w') = rng w
             /\ DATABASE_URL (pool_putconn pool c w') = DATABASE_URL w).
  { intros c w' H1 H2 H3.
    destruct (pool_putconn_frame pool c w') as [P1 [P2 [_ [_ [_ P6]]]]].
    rewrite P1, P2, P6. auto. }
  unfold execute_on_pool. cbv zeta.
  destruct (pool_getconn pool (tick w)) as [[conn w3]|] eqn:Eget.
  - apply pool_getconn_frame in Eget.
    destruct Eget as [E1 [E2 [_ [_ [_ [E6 _]]]]]]. cbn in E1, E2, E6.
    repeat break_match; cbn [fst snd]; try (apply Hput; cbn; auto);
      cbn; auto.
  - repeat break_match; cbn; auto.
Qed.

(** A gateway call leaves the call history, the generator and the
    configuration alone. *)
Lemma execute_query_frame query fetchone fetchall w :
  calls (snd (execute_query query fetchone fetchall w)) = calls w
  /\ rng (snd (execute_query query fetchone fetchall w)) = rng w
  /\ DATABASE_URL (snd (execute_query query fetchone fetchall w))
     = DATABASE_URL w.
Proof.
  unfold execute_query.
  destruct (get_db_pool_frame w) as [Hc [Hr [_ [_ Hu]]]].
  destruct (get_db_pool w) as [[pool|] w1]; cbn [fst snd] in *; [|auto].
  destruct (execute_on_pool_frame pool query fetchone fetchall w1)
    as [F1 [F2 F3]].
  rewrite F1, F2, F3. auto.
Qed.

Lemma rejects_any_time query now d :
  rejects query d = true -> run_statement query now d = None.
Proof.
  unfold rejects. destruct query; cbn; repeat break_match;
    intros; try reflexivity; try discriminate.
Qed.

Lemma db_pool_putconn p c w : db (pool_putconn p c w) = db w.
Proof. apply pool_putconn_frame. Qed.

(** On a pool in hand: a fault of the call or a rejected statement gives
    [None] and leaves the table as it was. *)
Lemma execute_on_pool_unavailable pool query fetchone fetchall w :
  match next_fault w with
  | NoFault | PoolCreationFails => rejects query (db w) = true
  | _ => True
  end ->
  fst (execute_on_pool pool query fetchone fetchall w) = PNone
  /\ db (snd (execute_on_pool pool query fetchone fetchall w)) = db w.
Proof.
  intros Hun. unfold execute_on_pool. cbv zeta.
  destruct (pool_getconn pool (tick w)) as [[conn w3]|] eqn:Eget.
  - apply pool_getconn_frame in Eget.
    destruct Eget as [_ [_ [Edb [_ [_ [_ _]]]]]]. cbn in Edb.
    destruct (next_fault w); cbn [fst snd];
      try (split; [reflexivity | try rewrite db_pool_putconn; cbn; auto];
           fail);
      change (db (log_executed query w3)) with (db w3);
      rewrite Edb, (rejects_any_time query _ (db w) Hun); cbn [fst snd];
      (split; [reflexivity | rewrite db_pool_putconn; cbn; auto]).
  - destruct (next_fault w); split; reflexivity.
Qed.

(** When the gateway reports "unavailable", the call returns [None] and
    the table is as before. *)
Lemma execute_query_unavailable query fetchone fetchall w :
  reports_unavailable query w = true ->
  fst (execute_query query fetchone fetchall w) = PNone
  /\ db (snd (execute_query query fetchone fetchall w)) = db w.
Proof.
  unfold reports_unavailable, fault_fires, execute_query, get_db_pool.
  intros Hun.
  destruct (url_set w) eqn:Eurl; cbn [negb orb] in *; [|auto].
  destruct (db_pool w) as [p|] eqn:Epool.
  - apply execute_on_pool_unavailable.
    destruct (next_fault w); cbn [orb] in Hun; auto.
  - destruct (next_fault w) eqn:Ef; cbn [orb] in Hun;
      try (split; reflexivity);
      match goal with
      | |- context [execute_on_pool ?a ?b ?c ?d ?e] =>
          destruct (execute_on_pool_unavailable a b c d e) as [U1 U2];
          [ change (next_fault e) with (next_fault w); rewrite Ef;
            cbn; auto
          | split; [exact U1 | rewrite U2; reflexivity] ]
      end.
Qed.

(* ------------------------------------------------------------------ *)
(** ** The player store *)

Lemma reports_unavailable_log_call query c w :
  reports_unavailable query (log_call c w) = reports_unavailable query w.
Proof. reflexivity. Qed.

(** C4.  For every player-store operation (get_player_score,
    create_player, update_player_score, get_leaderboard, prune_players):
    when the gateway reports unavailability for its statement (no
    DATABASE_URL configured, a fault of the call, or a rejected
    statement), the operation raises nothing, returns its empty result
    ([None], or the empty list for the leaderboard) and leaves the table
    unchanged. *)
Theorem player_store_degrades_when_unavailable (c : StoreCall) (w : World) :
  reports_unavailable (statement_of c) w = true ->
  fst (run_store_call c w) = Ok (empty_result c)
  /\ db (snd (run_store_call c w)) = db w.
Proof.
  intros Hun.
  destruct c as [name|name|name pts|limit|maxp];
    cbn [run_store_call statement_of empty_result] in *;
    unfold get_player_score, create_player, update_player_score,
      get_leaderboard, prune_players, as_none;
    match goal with
    | |- context [execute_query ?q ?fo ?fa (log_call ?c ?w0)] =>
        destruct (execute_query_unavailable q fo fa (log_call c w0))
          as [Hres Hdb];
        [ rewrite reports_unavailable_log_call; exact Hun |];
        destruct (execute_query q fo fa (log_call c w0)) as [r w1];
        cbn [fst snd] in *; subst r
    end;
    split; solve [reflexivity | exact Hdb].
Qed.

(** Without a connection descriptor every statement is reported
    unavailable. *)
Lemma unconfigured_is_unavailable query w :
  url_set w = false -> reports_unavailable query w = true.
Proof. intros E. unfold reports_unavailable. rewrite E. reflexivity. Qed.

(* ------------------------------------------------------------------ *)
(** ** Connections *)

Lemma nth_error_replace_nth {A : Type} (l : list A) : forall n x y,
  nth_error l n = Some y -> nth_error (replace_nth n x l) n = Some x.
Proof.
  induction l as [|a l IH]; intros [|n] x y E; cbn in *;
    try discriminate; eauto.
Qed.

Lemma length_replace_nth {A : Type} (l : list A) : forall n x,
  List.length (replace_nth n x l) = List.length l.
Proof.
  induction l as [|a l IH]; intros [|n] x; cbn; auto.
Qed.





Lemma get_db_pool_some w p w1 :
  get_db_pool w = (Some p, w1) ->
  db_pool w1 = Some p /\ next_fault w1 = next_fault w /\ url_set w1 = true.
Proof.
  unfold get_db_pool.
  destruct (url_set w) eqn:Eu; cbn [negb]; [|discriminate].
  destruct (db_pool w) eqn:Ep.
  - intros E; inversion E; subst; auto.
  - destruct (next_fault w) eqn:Ef; intros E; inversion E; subst;
      unfold url_set in *; cbn; auto.
Qed.


(* ------------------------------------------------------------------ *)
(** ** A gateway call that goes through *)

Lemma getconn_when_none_out pl fresh :
  pool_used pl = [] ->
  exists c pl' opened,
    getconn pl fresh = Some (c, pl', opened) /\ pool_used pl' = [c].
Proof.
  intros Hu. unfold getconn. rewrite Hu.
  destruct (rev (pool_idle pl)) as [|c rest].
  - cbn. eauto.
  - eauto.
Qed.

Lemma putconn_last_out pl c :
  pool_used pl = [c] -> pool_used (putconn pl c) = [].
Proof.
  intros Hu. unfold putconn. cbn. rewrite Hu. cbn.
  rewrite Nat.eqb_refl. reflexivity.
Qed.

Lemma execute_on_pool_ok pool query fetchone fetchall w pl d rows :
  nth_error (pools w) pool = Some pl ->
  pool_used pl = [] ->
  db_pool w = Some pool ->
  match next_fault w with
  | NoFault | PoolCreationFails => True
  | _ => False
  end ->
  run_statement query (clock w + 1) (db w) = Some (d, rows) ->
  (fetchone || fetchall) && negb (returns_rows query) = false ->
  let r := execute_on_pool pool query fetchone fetchall w in
  fst r = (if fetchone then hd PNone rows
           else if fetchall then PList rows else PNone)
  /\ db (snd r) = d
  /\ executed (snd r) = executed w ++ [query]
  /\ clock (snd r) = clock w + 1
  /\ faults (snd r) = tl (faults w)
  /\ no_conn_out (snd r) = true.
Proof.
  intros Hnth Hused Hdp Hfault Hrun Hfetch. cbv zeta.
  unfold execute_on_pool, pool_getconn. cbv zeta.
  change (pools (tick w)) with (pools w). rewrite Hnth.
  destruct (getconn_when_none_out pl (next_conn (tick w)) Hused)
    as [c [pl' [opened [Hget Hu']]]].
  rewrite Hget.
  assert (Hbody :
    forall w3,
      pools w3 = replace_nth pool pl' (pools w) ->
      db w3 = db w -> clock w3 = clock w + 1 ->
      executed w3 = executed w ++ [query] ->
      faults w3 = tl (faults w) -> db_pool w3 = Some pool ->
      let r :=
        match run_statement query (clock w3) (db w3) with
        | Some (d0, rows0) =>
            if (fetchone || fetchall) && negb (returns_rows query)
            then (PNone, pool_putconn pool c w3)
            else
              (if fetchone then hd PNone rows0
               else if fetchall then PList rows0 else PNone,
               pool_putconn pool c (set_db d0 w3))
        | None => (PNone, pool_putconn pool c w3)
        end in
      fst r = (if fetchone then hd PNone rows
               else if fetchall then PList rows else PNone)
      /\ db (snd r) = d
      /\ executed (snd r) = executed w ++ [query]
      /\ clock (snd r) = clock w + 1
      /\ faults (snd r) = tl (faults w)
      /\ no_conn_out (snd r) = true).
  { intros w3 Hp Hd Hc He Hf Hg. cbv zeta.
    rewrite Hc, Hd, Hrun, Hfetch. cbn [fst snd].
    assert (Hn3 : nth_error (pools (set_db d w3)) pool = Some pl').
    { cbn. rewrite Hp. eapply nth_error_replace_nth. exact Hnth. }
    unfold pool_putconn. rewrite Hn3. cbn.
    repeat split; auto.
    unfold no_conn_out. cbn. rewrite Hg.
    rewrite (nth_error_replace_nth _ pool (putconn pl' c) pl').
    - rewrite (putconn_last_out pl' c Hu'). reflexivity.
    - rewrite Hp. eapply nth_error_replace_nth. exact Hnth. }
  destruct (next_fault w); try contradiction;
    apply Hbody; cbn; auto.
Qed.

Lemma execute_query_ok query fetchone fetchall w d rows :
  gateway_ready w = true ->
  run_statement query (clock w + 1) (db w) = Some (d, rows) ->
  (fetchone || fetchall) && negb (returns_rows query) = false ->
  let r := execute_query query fetchone fetchall w in
  fst r = (if fetchone then hd PNone rows
           else if fetchall then PList rows else PNone)
  /\ db (snd r) = d
  /\ executed (snd r) = executed w ++ [query]
  /\ clock (snd r) = clock w + 1
  /\ faults (snd r) = tl (faults w)
  /\ url_set (snd r) = true
  /\ no_conn_out (snd r) = true.
Proof.
  unfold gateway_ready. intros Hready Hrun Hfetch. cbv zeta.
  apply andb_true_iff in Hready. destruct Hready as [Hready Hfire].
  apply andb_true_iff in Hready. destruct Hready as [Hurl Hout].
  apply negb_true_iff in Hfire.
  assert (Hu : url_set (snd (execute_query query fetchone fetchall w)) = true).
  { destruct (execute_query_frame query fetchone fetchall w) as [_ [_ E]].
    unfold url_set in *. rewrite E. exact Hurl. }
  unfold execute_query, get_db_pool. rewrite Hurl. cbn [negb].
  unfold no_conn_out, fault_fires in *.
  destruct (db_pool w) as [p|] eqn:Edp.
  - destruct (nth_error (pools w) p) as [pl|] eqn:Enth; [|discriminate].
    destruct (pool_used pl) eqn:Eused; [|discriminate].
    destruct (execute_on_pool_ok p query fetchone fetchall w pl d rows)
      as [R1 [R2 [R3 [R4 [R5 R6]]]]]; auto.
    { destruct (next_fault w); try discriminate; exact I. }
    repeat split; auto.
    revert Hu. unfold execute_query, get_db_pool.
    rewrite Hurl, Edp. cbn [negb]. auto.
  - destruct (next_fault w) eqn:Ef; try discriminate.
    set (w1 := set_db_pool (Some (List.length (pools w)))
                 (set_next_conn (next_conn w + minconn)%nat
                    (set_pools (pools w ++ [new_pool (next_conn w)]) w))).
    destruct (execute_on_pool_ok (List.length (pools w)) query fetchone
                fetchall w1 (new_pool (next_conn w)) d rows)
      as [R1 [R2 [R3 [R4 [R5 R6]]]]]; auto.
    { subst w1. cbn. rewrite nth_error_app2 by lia.
      rewrite Nat.sub_diag. reflexivity. }
    { change (next_fault w1) with (next_fault w). rewrite Ef. exact I. }
    repeat split; auto.
    revert Hu. unfold execute_query, get_db_pool.
    rewrite Hurl, Edp, Ef. cbn [negb]. auto.
Qed.

(* ------------------------------------------------------------------ *)
(** ** Committing a score *)

Lemma gateway_ready_log_call c w :
  gateway_ready (log_call c w) = gateway_ready w.
Proof. reflexivity. Qed.

Lemma has_name_add_points pts name now p :
  has_name name (add_points pts name now p) = has_name name p.
Proof.
  unfold add_points. destruct (has_name name p) eqn:E; [|exact E].
  unfold has_name in *. cbn. exact E.
Qed.

Lemma filter_named_add_points pts name now l :
  filter (has_name name) (map (add_points pts name now) l)
  = map (add_points pts name now) (filter (has_name name) l).
Proof.
  induction l as [|p l IH]; [reflexivity|]. cbn [map filter].
  rewrite has_name_add_points.
  destruct (has_name name p); cbn [map]; rewrite IH; reflexivity.
Qed.

Lemma filter_others_add_points pts name now l :
  filter (fun p => negb (has_name name p)) (map (add_points pts name now) l)
  = filter (fun p => negb (has_name name p)) l.
Proof.
  induction l as [|p l IH]; [reflexivity|]. cbn [map filter].
  rewrite has_name_add_points.
  destruct (has_name name p) eqn:E; cbn [negb]; rewrite IH; [reflexivity|].
  unfold add_points. rewrite E. reflexivity.
Qed.

(** The UPDATE statement on a table where [name] has one row. *)
Lemma update_statement pts name now d id score played :
  filter (has_name name) (players d) = [mkPlayer id name score played] ->
  int4_range (score + pts) = true ->
  exists d',
    run_statement (UpdateScore pts name) now d = Some (d', [])
    /\ filter (has_name name) (players d')
       = [mkPlayer id name (score + pts) now]
    /\ filter (fun p => negb (has_name name p)) (players d')
       = filter (fun p => negb (has_name name p)) (players d).
Proof.
  intros Hrow Hrange. cbn [run_statement].
  assert (Hex : existsb
                  (fun p => has_name name p
                            && negb (int4_range (p_total_score p + pts)))
                  (players d) = false).
  { apply not_true_is_false. intros Hex. apply existsb_exists in Hex.
    destruct Hex as [p [Hin Hp]]. apply andb_true_iff in Hp.
    destruct Hp as [Hn Hr].
    assert (Hin' : In p (filter (has_name name) (players d)))
      by (apply filter_In; auto).
    rewrite Hrow in Hin'. destruct Hin' as [<-|[]]. cbn in Hr.
    rewrite Hrange in Hr. discriminate. }
  rewrite Hex. eexists. split; [reflexivity|]. cbn [players]. split.
  - rewrite filter_named_add_points, Hrow. cbn [map]. unfold add_points.
    assert (Hn : has_name name (mkPlayer id name score played) = true)
      by (unfold has_name; cbn; apply String.eqb_refl).
    rewrite Hn. reflexivity.
  - apply filter_others_add_points.
Qed.

(** One commit through a ready gateway. *)
Lemma update_player_score_ok name pts w id score played :
  gateway_ready w = true ->
  filter (has_name name) (players (db w)) = [mkPlayer id name score played] ->
  int4_range (score + pts) = true ->
  let w' := snd (update_player_score name pts w) in
  filter (has_name name) (players (db w'))
  = [mkPlayer id name (score + pts) (clock w + 1)]
  /\ filter (fun p => negb (has_name name p)) (players (db w'))
     = filter (fun p => negb (has_name name p)) (players (db w))
  /\ executed w' = executed w ++ [UpdateScore pts name]
  /\ clock w' = clock w + 1
  /\ faults w' = tl (faults w)
  /\ url_set w' = true
  /\ no_conn_out w' = true.
Proof.
  intros Hready Hrow Hrange. cbv zeta.
  destruct (update_statement pts name (clock w + 1) (db w) id score played
              Hrow Hrange) as [d' [Hrun [Hnamed Hothers]]].
  unfold update_player_score.
  destruct (execute_query_ok (UpdateScore pts name) false false
              (log_call (CallUpdatePlayerScore name pts) w) d' [])
    as [_ [R2 [R3 [R4 [R5 [R6 R7]]]]]]; auto.
  destruct (execute_query (UpdateScore pts name) false false
              (log_call (CallUpdatePlayerScore name pts) w)) as [r w'].
  cbn [fst snd] in *. subst d'. auto 10.
Qed.

Lemma calm_next n w : calm (S n) w = true -> next_fault w = NoFault.
Proof.
  unfold calm, next_fault. destruct (faults w) as [|f fs]; [reflexivity|].
  cbn. destruct f; cbn; intros; try discriminate; reflexivity.
Qed.

Lemma calm_tail n w w' :
  calm (S n) w = true -> faults w' = tl (faults w) -> calm n w' = true.
Proof.
  unfold calm. intros Hc ->. destruct (faults w) as [|f fs].
  - cbn. destruct n; reflexivity.
  - cbn in *. apply andb_true_iff in Hc. apply Hc.
Qed.

Lemma ready_when_calm n w :
  url_set w = true -> no_conn_out w = true -> calm (S n) w = true ->
  gateway_ready w = true.
Proof.
  intros Hu Ho Hc. unfold gateway_ready, fault_fires.
  rewrite Hu, Ho, (calm_next n w Hc). reflexivity.
Qed.

(** C7.  [update_player_score] adds its delta to the stored total as one
    statement and refreshes last_played: for a player whose total_score is
    0, a commit of d1 followed by a commit of d2, both going through,
    leaves total_score = d1 + d2 and last_played = the time of the second
    statement; every other row is untouched, and each commit has sent
    exactly one UPDATE statement. *)
Theorem update_player_score_accumulates
  (w : World) (name : string) (d1 d2 id played : Z) :
  url_set w = true ->
  no_conn_out w = true ->
  calm 2 w = true ->
  filter (has_name name) (players (db w)) = [mkPlayer id name 0 played] ->
  int4_range d1 = true ->
  int4_range (d1 + d2) = true ->
  let w1 := snd (update_player_score name d1 w) in
  let w2 := snd (update_player_score name d2 w1) in
  filter (has_name name) (players (db w2))
  = [mkPlayer id name (d1 + d2) (clock w + 2)]
  /\ filter (fun p => negb (has_name name p)) (players (db w2))
     = filter (fun p => negb (has_name name p)) (players (db w))
  /\ executed w2 = executed w ++ [UpdateScore d1 name; UpdateScore d2 name].
Proof.
  intros Hu Ho Hc Hrow Hr1 Hr2. cbv zeta.
  destruct (update_player_score_ok name d1 w id 0 played)
    as [A1 [A2 [A3 [A4 [A5 [A6 A7]]]]]]; auto.
  { eapply ready_when_calm; eassumption. }
  set (w1 := snd (update_player_score name d1 w)) in *.
  assert (Hready1 : gateway_ready w1 = true).
  { apply (ready_when_calm 0); auto. eapply calm_tail; eassumption. }
  destruct (update_player_score_ok name d2 w1 id (0 + d1) (clock w + 1)
              Hready1 A1 Hr2)
    as [B1 [B2 [B3 [B4 [B5 [B6 B7]]]]]].
  rewrite B1, B2, A2, B3, A3, A4. repeat split.
  - f_equal. f_equal; lia.
  - rewrite <- app_assoc. reflexivity.
Qed.

(* ------------------------------------------------------------------ *)
(** ** Pruning *)

Lemma insert_by_perm le x l : Permutation (insert_by le x l) (x :: l).
Proof.
  induction l as [|y l IH]; cbn [insert_by]; [apply Permutation_refl|].
  destruct (le x y); [apply Permutation_refl|].
  eapply perm_trans; [apply perm_skip; exact IH | apply perm_swap].
Qed.

Lemma order_by_perm le l : Permutation (order_by le l) l.
Proof.
  induction l as [|x l IH]; cbn [order_by]; [constructor|].
  eapply perm_trans; [apply insert_by_perm | apply perm_skip; exact IH].
Qed.

Lemma insert_by_recent_sorted x l :
  StronglySorted more_recent l ->
  StronglySorted more_recent (insert_by recent_le x l).
Proof.
  induction l as [|y l IH]; intros Hs; cbn [insert_by].
  - constructor; constructor.
  - inversion Hs as [|y' l' Hs' Hall]; subst.
    unfold recent_le at 1. destruct (p_last_played y <=? p_last_played x) eqn:E.
    + apply Z.leb_le in E. constructor; [exact Hs|].
      constructor; [exact E|].
      eapply Forall_impl; [|exact Hall].
      unfold more_recent. intros z Hz. lia.
    + apply Z.leb_gt in E. constructor; [apply IH; exact Hs'|].
      apply Forall_forall. intros z Hz.
      apply (Permutation_in _ (insert_by_perm recent_le x l)) in Hz.
      destruct Hz as [<-|Hz].
      * unfold more_recent. lia.
      * rewrite Forall_forall in Hall. apply Hall. exact Hz.
Qed.

Lemma order_by_recent_sorted l :
  StronglySorted more_recent (order_by recent_le l).
Proof.
  induction l as [|x l IH]; cbn [order_by]; [constructor|].
  apply insert_by_recent_sorted. exact IH.
Qed.

Lemma sorted_front_before_back (a b : list Player) :
  StronglySorted more_recent (a ++ b) ->
  forall x y, In x a -> In y b -> more_recent x y.
Proof.
  induction a as [|z a IH]; intros Hs x y Hx Hy; [destruct Hx|].
  cbn in Hs. inversion Hs as [|z' l' Hs' Hall]; subst.
  destruct Hx as [<-|Hx].
  - rewrite Forall_forall in Hall. apply Hall. apply in_or_app. auto.
  - apply IH; assumption.
Qed.

Lemma NoDup_map_injective {A B : Type} (f : A -> B) (l : list A) :
  NoDup (map f l) ->
  forall x y, In x l -> In y l -> f x = f y -> x = y.
Proof.
  induction l as [|a l IH]; intros Hnd x y Hx Hy Hf; [destruct Hx|].
  cbn in Hnd. inversion Hnd as [|b l' Hnotin Hnd']; subst.
  destruct Hx as [<-|Hx], Hy as [<-|Hy].
  - reflexivity.
  - exfalso. apply Hnotin. rewrite Hf. apply in_map. exact Hy.
  - exfalso. apply Hnotin. rewrite <- Hf. apply in_map. exact Hx.
  - apply IH; assumption.
Qed.

Lemma id_in_spec ids p :
  id_in ids p = true <-> In (p_id p) ids.
Proof.
  unfold id_in. rewrite existsb_exists. split.
  - intros [i [Hin Heq]]. apply Z.eqb_eq in Heq. rewrite Heq. exact Hin.
  - intros Hin. exists (p_id p). split; [exact Hin | apply Z.eqb_refl].
Qed.

Lemma most_recent_incl m rows p : In p (most_recent m rows) -> In p rows.
Proof.
  unfold most_recent. intros Hin.
  apply (Permutation_in _ (order_by_perm recent_le rows)).
  rewrite <- (firstn_skipn (Z.to_nat m) (order_by recent_le rows)).
  apply in_or_app. auto.
Qed.

Lemma kept_iff_most_recent m rows p :
  NoDup (map p_id rows) ->
  In p rows ->
  id_in (recent_ids m rows) p = true <-> In p (most_recent m rows).
Proof.
  intros Hnd Hp. rewrite id_in_spec. unfold recent_ids.
  fold (most_recent m rows). split.
  - intros Hin. apply in_map_iff in Hin. destruct Hin as [q [Hid Hq]].
    assert (q = p).
    { apply (NoDup_map_injective p_id rows Hnd); auto.
      eapply most_recent_incl. exact Hq. }
    subst q. exact Hq.
  - intros Hin. apply in_map. exact Hin.
Qed.

Lemma filter_recent_perm m rows :
  NoDup (map p_id rows) ->
  Permutation (filter (id_in (recent_ids m rows)) rows) (most_recent m rows).
Proof.
  intros Hnd.
  assert (Hrows : NoDup rows) by (eapply NoDup_map_inv; exact Hnd).
  apply NoDup_Permutation.
  - apply NoDup_filter. exact Hrows.
  - unfold most_recent.
    apply (NoDup_app_remove_r _ (skipn (Z.to_nat m)
                                       (order_by recent_le rows))).
    rewrite firstn_skipn.
    apply (Permutation_NoDup (Permutation_sym (order_by_perm recent_le rows))).
    exact Hrows.
  - intros p. rewrite filter_In. split.
    + intros [Hin Hk]. apply (kept_iff_most_recent m rows p Hnd Hin). exact Hk.
    + intros Hin. assert (Hp : In p rows) by (eapply most_recent_incl; eauto).
      split; [exact Hp|]. apply (kept_iff_most_recent m rows p Hnd Hp).
      exact Hin.
Qed.

Lemma filter_keeps_all {A : Type} (f : A -> bool) (l : list A) :
  (forall x, In x l -> f x = true) -> filter f l = l.
Proof.
  induction l as [|a l IH]; intros Hall; [reflexivity|]. cbn.
  rewrite (Hall a) by (left; reflexivity).
  rewrite IH; [reflexivity|]. intros x Hx. apply Hall. right. exact Hx.
Qed.

(** What the DELETE statement leaves of a table with distinct ids. *)
Lemma prune_rows m rows :
  0 <= m ->
  NoDup (map p_id rows) ->
  let after := filter (id_in (recent_ids m rows)) rows in
  len after = Z.min m (len rows)
  /\ Permutation after (most_recent m rows)
  /\ (forall kept dropped,
        In kept after -> In dropped rows -> ~ In dropped after ->
        more_recent kept dropped)
  /\ (len rows <= m -> after = rows).
Proof.
  intros Hm Hnd. cbv zeta.
  pose proof (filter_recent_perm m rows Hnd) as Hperm.
  split; [|split; [exact Hperm|split]].
  - unfold len. rewrite (Permutation_length Hperm). unfold most_recent.
    rewrite length_firstn, (Permutation_length (order_by_perm recent_le rows)).
    lia.
  - intros kept dropped Hk Hd Hnot.
    apply (sorted_front_before_back
             (firstn (Z.to_nat m) (order_by recent_le rows))
             (skipn (Z.to_nat m) (order_by recent_le rows))).
    + rewrite firstn_skipn. apply order_by_recent_sorted.
    + apply (Permutation_in _ Hperm). exact Hk.
    + assert (Hs : In dropped (order_by recent_le rows))
        by (apply (Permutation_in _ (Permutation_sym
                                       (order_by_perm recent_le rows)));
            exact Hd).
      rewrite <- (firstn_skipn (Z.to_nat m)) in Hs.
      apply in_app_or in Hs. destruct Hs as [Hs|Hs]; [|exact Hs].
      exfalso. apply Hnot.
      apply (Permutation_in _ (Permutation_sym Hperm)). exact Hs.
  - intros Hle. apply filter_keeps_all. intros p Hp.
    apply (kept_iff_most_recent m rows p Hnd Hp). unfold most_recent.
    rewrite firstn_all2.
    + apply (Permutation_in _ (Permutation_sym
                                 (order_by_perm recent_le rows))).
      exact Hp.
    + rewrite (Permutation_length (order_by_perm recent_le rows)).
      unfold len in Hle. lia.
Qed.

(** C8.  For every table (its ids distinct, as the primary key makes them)
    and every m >= 0, a [prune_players m] that goes through leaves exactly
    min(m, rows before) rows; the rows left are the first m of the table in
    the order of last_played descending, so every row kept was played at
    least as recently as every row deleted; nothing is deleted when the
    table has at most m rows; and the call has sent exactly one DELETE
    statement. *)
Theorem prune_players_keeps_most_recent (w : World) (m : Z) :
  0 <= m ->
  gateway_ready w = true ->
  NoDup (map p_id (players (db w))) ->
  let before := players (db w) in
  let w' := snd (prune_players m w) in
  let after := players (db w') in
  len after = Z.min m (len before)
  /\ Permutation after (most_recent m before)
  /\ (forall kept dropped,
        In kept after -> In dropped before -> ~ In dropped after ->
        p_last_played dropped <= p_last_played kept)
  /\ (len before <= m -> after = before)
  /\ executed w' = executed w ++ [DeleteStale m].
Proof.
  intros Hm Hready Hnd. cbv zeta. unfold prune_players.
  assert (Hrun : run_statement (DeleteStale m) (clock w + 1) (db w)
                 = Some (mkDatabase
                           (filter (id_in (recent_ids m (players (db w))))
                                   (players (db w)))
                           (next_id (db w)), [])).
  { cbn [run_statement].
    destruct (m <? 0) eqn:E; [apply Z.ltb_lt in E; lia | reflexivity]. }
  destruct (execute_query_ok (DeleteStale m) false false
              (log_call (CallPrunePlayers m) w) _ _ Hready Hrun eq_refl)
    as [_ [R2 [R3 _]]].
  destruct (execute_query (DeleteStale m) false false
              (log_call (CallPrunePlayers m) w)) as [r w'].
  cbn [fst snd] in *. rewrite R2. cbn [players].
  destruct (prune_rows m (players (db w)) Hm Hnd) as [P1 [P2 [P3 P4]]].
  repeat split; auto.
Qed.

(* ------------------------------------------------------------------ *)
(** ** The player store never raises *)

(** Whatever a gateway call returns is [None] or is made of the rows of
    its statement. *)
Lemma execute_on_pool_result pool query fetchone fetchall w :
  fst (execute_on_pool pool query fetchone fetchall w) = PNone
  \/ exists now d0 d rows,
       run_statement query now d0 = Some (d, rows)
       /\ fst (execute_on_pool pool query fetchone fetchall w)
          = (if fetchone then hd PNone rows
             else if fetchall then PList rows else PNone).
Proof.
  unfold execute_on_pool. cbv zeta.
  repeat break_match; cbn [fst]; auto;
    right; do 4 eexists; (split; [eassumption | reflexivity]).
Qed.

Lemma execute_query_result query fetchone fetchall w :
  fst (execute_query query fetchone fetchall w) = PNone
  \/ exists now d0 d rows,
       run_statement query now d0 = Some (d, rows)
       /\ fst (execute_query query fetchone fetchall w)
          = (if fetchone then hd PNone rows
             else if fetchall then PList rows else PNone).
Proof.
  unfold execute_query.
  destruct (get_db_pool w) as [[pool|] w1]; [|left; reflexivity].
  apply execute_on_pool_result.
Qed.

Lemma get_player_score_ok name w :
  exists v w1,
    get_player_score name w = (Ok v, w1)
    /\ calls w1 = calls w ++ [CallGetPlayerScore name].
Proof.
  unfold get_player_score.
  destruct (execute_query_result (SelectScore name) true false
              (log_call (CallGetPlayerScore name) w)) as [E|E];
    destruct (execute_query_frame (SelectScore name) true false
                (log_call (CallGetPlayerScore name) w)) as [Hc _];
    destruct (execute_query (SelectScore name) true false
                (log_call (CallGetPlayerScore name) w)) as [row w1];
    cbn [fst snd] in *.
  - subst row. cbn. eauto.
  - destruct E as [now [d0 [d [rows [Hrun Hrow]]]]].
    cbn in Hrun. inversion Hrun; subst. clear Hrun.
    destruct (filter (has_name name) (players d)) as [|p l]; cbn; eauto.
Qed.

Lemma get_leaderboard_ok limit w :
  exists v w1,
    get_leaderboard limit w = (Ok v, w1)
    /\ calls w1 = calls w ++ [CallGetLeaderboard limit].
Proof.
  unfold get_leaderboard.
  destruct (execute_query_frame (SelectLeaderboard limit) false true
              (log_call (CallGetLeaderboard limit) w)) as [Hc _].
  destruct (execute_query (SelectLeaderboard limit) false true
              (log_call (CallGetLeaderboard limit) w)) as [rows w1].
  cbn [fst snd] in *. eauto.
Qed.

Lemma create_player_ok name w :
  exists w1,
    create_player name w = (Ok tt, w1)
    /\ calls w1 = calls w ++ [CallCreatePlayer name].
Proof.
  unfold create_player.
  destruct (execute_query_frame (InsertPlayer name) false false
              (log_call (CallCreatePlayer name) w)) as [Hc _].
  destruct (execute_query (InsertPlayer name) false false
              (log_call (CallCreatePlayer name) w)) as [r w1].
  cbn [fst snd] in *. eauto.
Qed.

Lemma update_player_score_called name pts w :
  exists w1,
    update_player_score name pts w = (Ok tt, w1)
    /\ calls w1 = calls w ++ [CallUpdatePlayerScore name pts].
Proof.
  unfold update_player_score.
  destruct (execute_query_frame (UpdateScore pts name) false false
              (log_call (CallUpdatePlayerScore name pts) w)) as [Hc _].
  destruct (execute_query (UpdateScore pts name) false false
              (log_call (CallUpdatePlayerScore name pts) w)) as [r w1].
  cbn [fst snd] in *. eauto.
Qed.

Lemma prune_players_ok m w :
  exists w1,
    prune_players m w = (Ok tt, w1)
    /\ calls w1 = calls w ++ [CallPrunePlayers m].
Proof.
  unfold prune_players.
  destruct (execute_query_frame (DeleteStale m) false false
              (log_call (CallPrunePlayers m) w)) as [Hc _].
  destruct (execute_query (DeleteStale m) false false
              (log_call (CallPrunePlayers m) w)) as [r w1].
  cbn [fst snd] in *. eauto.
Qed.

(* ------------------------------------------------------------------ *)
(** ** The game handler *)

Lemma list_getitem_nth {A : Type} (l : list A) (i : Z) :
  0 <= i < len l ->
  exists x, list_getitem l i = Ok x /\ nth_error l (Z.to_nat i) = Some x.
Proof.
  intros Hi. unfold list_getitem, len in *.
  destruct (i <? 0) eqn:Eneg; [apply Z.ltb_lt in Eneg; lia|].
  replace ((0 <=? i) && (i <? Z.of_nat (List.length l))) with true
    by (symmetry; apply andb_true_iff; split;
        [apply Z.leb_le | apply Z.ltb_lt]; lia).
  destruct (nth_error l (Z.to_nat i)) as [x|] eqn:Enth.
  - exists x. auto.
  - apply nth_error_None in Enth. lia.
Qed.

Lemma py_int_raises_value_error text e :
  py_int text = Raised e -> e = ValueError.
Proof.
  unfold py_int. repeat break_match; intros E; inversion E; reflexivity.
Qed.

(** Grading the current question of a game in progress. *)
Lemma evaluate_answer_graded request session q :
  0 <= the_index session < len (the_questions session) ->
  nth_error (the_questions session) (Z.to_nat (the_index session)) = Some q ->
  evaluate_answer request (the_questions session) (the_index session)
                  (s_feedback session) session
  = Ok (graded request q session, the_index session + 1,
        Some (if is_correct request q then "Correct!"
              else incorrect_message (q_answer q))).
Proof.
  intros Hi Hq. unfold evaluate_answer, graded, is_correct, answer_text.
  cbv zeta.
  destruct (list_getitem_nth _ _ Hi) as [q' [Hget Hnth]].
  assert (q' = q) by congruence. subst q'.
  replace (the_index session <? len (the_questions session)) with true
    by (symmetry; apply Z.ltb_lt; lia).
  destruct (py_int (strip (form_get "answer" "" (form request))))
    as [v|e] eqn:Eint.
  - rewrite Hget. destruct (v =? q_answer q); reflexivity.
  - rewrite (py_int_raises_value_error _ _ Eint). rewrite Hget. reflexivity.
Qed.

Lemma nonempty_true {A : Type} (l : list A) : l <> [] -> nonempty l = true.
Proof. destruct l; [congruence | reflexivity]. Qed.

Lemma len_pos {A : Type} (l : list A) : l <> [] -> 0 < len l.
Proof. destruct l; [congruence|]. unfold len. cbn. lia. Qed.

Lemma the_index_graded request q s :
  the_index (graded request q s) = the_index s + 1.
Proof. reflexivity. Qed.

Lemma the_score_graded request q s :
  the_score (graded request q s)
  = the_score s + (if is_correct request q then 1 else 0).
Proof.
  unfold graded, the_score. destruct (is_correct request q); cbn; lia.
Qed.

Lemma the_questions_graded request q s :
  s_questions (graded request q s) = s_questions s.
Proof. unfold graded. destruct (is_correct request q); reflexivity. Qed.

Lemma s_name_graded request q s : s_name (graded request q s) = s_name s.
Proof. unfold graded. destruct (is_correct request q); reflexivity. Qed.

(** A POST on a game in progress: the answer is graded; then either the
    next question is shown, or, after the last question, the score is
    committed once and the session is closed. *)
Lemma game_post_in_progress request session w name q :
  method request = POST ->
  s_name session = Some name ->
  the_questions session <> [] ->
  0 <= the_index session < len (the_questions session) ->
  nth_error (the_questions session) (Z.to_nat (the_index session)) = Some q ->
  exists resp w',
    game request session w
    = (Ok (resp,
           if the_index session + 1 <? len (the_questions session)
           then graded request q session
           else completed (graded request q session)), w')
    /\ commits (calls w')
       = commits (calls w)
         ++ (if the_index session + 1 <? len (the_questions session)
             then []
             else [(name, the_score (graded request q session))]).
Proof.
  intros Hm Hname Hqs Hi Hq. unfold game. rewrite Hname.
  destruct (get_player_score_ok name w) as [v1 [w1 [E1 C1]]].
  unfold bind at 1. rewrite E1.
  destruct (get_leaderboard_ok 3 w1) as [v2 [w2 [E2 C2]]].
  unfold bind at 1. rewrite E2. cbv zeta.
  fold (the_questions session). fold (the_index session).
  rewrite Hm, (nonempty_true _ Hqs). cbn [is_post andb].
  unfold bind at 1, lift.
  rewrite (evaluate_answer_graded request session q Hi Hq).
  replace (the_index session + 1 >=? len (the_questions session))
    with (negb (the_index session + 1 <? len (the_questions session)))
    by (rewrite Z.geb_leb, Z.leb_antisym; reflexivity).
  destruct (the_index session + 1 <? len (the_questions session)) eqn:Elt;
    cbn [negb].
  - apply Z.ltb_lt in Elt. unfold show_page.
    rewrite (nonempty_true _ Hqs). cbn [negb orb].
    replace (the_index session + 1 >=? len (the_questions session))
      with false
      by (symmetry; rewrite Z.geb_leb; apply Z.leb_gt; lia).
    destruct (list_getitem_nth (the_questions session)
                (the_index session + 1)) as [q2 [Hget2 _]]; [lia|].
    unfold bind, lift, ret. rewrite Hget2.
    eexists. eexists. split; [reflexivity|].
    rewrite C2, C1, !commits_app. cbn. rewrite !app_nil_r. reflexivity.
  - unfold finish_game.
    destruct (update_player_score_called name
                (session_get (s_session_score (graded request q session)) 0)
                w2) as [w3 [E3 C3]].
    unfold bind at 1. rewrite E3.
    destruct (prune_players_ok 100 w3) as [w4 [E4 C4]].
    unfold bind at 1. rewrite E4.
    destruct (get_player_score_ok name w4) as [v5 [w5 [E5 C5]]].
    unfold bind at 1. rewrite E5.
    destruct (get_leaderboard_ok 3 w5) as [v6 [w6 [E6 C6]]].
    unfold bind at 1. rewrite E6. unfold ret.
    eexists. eexists. split; [reflexivity|].
    rewrite C6, C5, C4, C3, C2, C1, !commits_app. cbn.
    rewrite !app_nil_r. reflexivity.
Qed.

(** Any request on a session with no question left changes nothing in the
    session and commits nothing. *)
Lemma game_when_no_questions request session w :
  the_questions session = [] ->
  exists resp w',
    game request session w = (Ok (resp, session), w')
    /\ commits (calls w') = commits (calls w)
    /\ (resp = Redirect "index"
        \/ exists total_score leaderboard,
             resp = RenderGameOver (session_get (s_final_score session) 0)
                                   total_score leaderboard).
Proof.
  intros Hqs. unfold game.
  destruct (s_name session) as [name|].
  - destruct (get_player_score_ok name w) as [v1 [w1 [E1 C1]]].
    unfold bind at 1. rewrite E1.
    destruct (get_leaderboard_ok 3 w1) as [v2 [w2 [E2 C2]]].
    unfold bind at 1. rewrite E2. cbv zeta.
    fold (the_questions session). rewrite Hqs.
    cbn [nonempty]. rewrite andb_false_r.
    unfold show_page. cbn [nonempty negb orb]. unfold ret.
    eexists. eexists. split; [reflexivity|]. split.
    + rewrite C2, C1, !commits_app. cbn. rewrite !app_nil_r. reflexivity.
    + right. eauto.
  - unfold ret. eexists. eexists. split; [reflexivity|]. auto.
Qed.

(** C6.  For every answer submitted to a game in progress (index i < N):
    the grading block sets the index to i + 1 whatever the answer; the
    running score grows by one exactly when the submitted text parses as
    an integer equal to the current question's answer; a text that does
    not parse raises nothing, counts as incorrect and advances the index
    all the same; and the feedback for the graded question is stored in
    the session.  The handler as a whole returns normally, with this
    graded session when questions remain and with the closed session
    after the last question. *)
Theorem answer_is_graded_and_index_advances
  (request : Request) (session : Session) (w : World) :
  method request = POST ->
  in_progress session ->
  exists q feedback,
    nth_error (the_questions session) (Z.to_nat (the_index session)) = Some q
    /\ evaluate_answer request (the_questions session) (the_index session)
                       (s_feedback session) session
       = Ok (graded request q session, the_index session + 1, Some feedback)
    /\ s_current_index (graded request q session)
       = Some (the_index session + 1)
    /\ the_score (graded request q session)
       = the_score session + (if is_correct request q then 1 else 0)
    /\ (is_correct request q = true
        <-> py_int (answer_text request) = Ok (q_answer q))
    /\ (forall e, py_int (answer_text request) = Raised e ->
                  the_score (graded request q session) = the_score session)
    /\ s_feedback (graded request q session) = Some feedback
    /\ feedback = (if is_correct request q then "Correct!"
                   else incorrect_message (q_answer q))
    /\ exists resp w',
         game request session w
         = (Ok (resp,
                if the_index session + 1 <? len (the_questions session)
                then graded request q session
                else completed (graded request q session)), w').
Proof.
  intros Hm [Hname [Hqs Hi]].
  destruct (list_getitem_nth _ _ Hi) as [q [_ Hq]].
  destruct (s_name session) as [name|] eqn:En; [|congruence].
  exists q, (if is_correct request q then "Correct!"
             else incorrect_message (q_answer q)).
  split; [exact Hq|]. split; [apply evaluate_answer_graded; assumption|].
  split; [reflexivity|]. split; [apply the_score_graded|]. split.
  { unfold is_correct. destruct (py_int (answer_text request)) as [v|e].
    - split.
      + intros E. apply Z.eqb_eq in E. congruence.
      + intros E. inversion E. apply Z.eqb_refl.
    - split; intros E; discriminate. }
  split.
  { intros e E. rewrite the_score_graded. unfold is_correct. rewrite E. lia. }
  split; [unfold graded; destruct (is_correct request q); reflexivity|].
  split; [reflexivity|].
  destruct (game_post_in_progress request session w name q Hm En Hqs Hi Hq)
    as [resp [w' [Hg _]]].
  exists resp, w'. exact Hg.
Qed.

(** C2.  For a session that has reached Completed (no question left), a
    submitted answer is ignored: [game] raises nothing and returns the
    session as it was, so index, running score, final score and question
    sequence are unchanged, and no score commit is made. *)
Theorem answer_after_completion_is_ignored
  (request : Request) (session : Session) (w : World) :
  method request = POST ->
  the_questions session = [] ->
  exists resp w',
    game request session w = (Ok (resp, session), w')
    /\ commits (calls w') = commits (calls w).
Proof.
  intros _ Hqs.
  destruct (game_when_no_questions request session w Hqs)
    as [resp [w' [Hg [Hc _]]]].
  exists resp, w'. auto.
Qed.

(* ------------------------------------------------------------------ *)
(** ** A whole game *)

Lemma skipn_nth_error {A : Type} (l : list A) : forall k x,
  nth_error l k = Some x -> skipn k l = x :: skipn (S k) l.
Proof.
  induction l as [|a l IH]; intros [|k] x E; cbn in *; try discriminate.
  - inversion E. reflexivity.
  - apply IH. exact E.
Qed.

Lemma count_correct_no_answers qs : count_correct qs [] = 0.
Proof. destruct qs; reflexivity. Qed.

(** Answering all the questions that remain closes the game with one
    commit of the final score. *)
Lemma play_to_completion name qs : forall answers k s w,
  s_name s = Some name ->
  the_questions s = qs ->
  the_index s = Z.of_nat k ->
  (k + List.length answers = List.length qs)%nat ->
  answers <> [] ->
  exists s' w',
    play answers s w = (Ok s', w')
    /\ s_name s' = Some name
    /\ s_questions s' = Some []
    /\ s_current_index s' = Some 0
    /\ s_session_score s' = Some 0
    /\ s_final_score s'
       = Some (the_score s + count_correct (skipn k qs) answers)
    /\ commits (calls w')
       = commits (calls w)
         ++ [(name, the_score s + count_correct (skipn k qs) answers)].
Proof.
  induction answers as [|a rest IH]; intros k s w Hname Hqs Hidx Hlen Hne;
    [congruence|].
  cbn [List.length] in Hlen.
  assert (Hk : (k < List.length qs)%nat) by lia.
  destruct (nth_error qs k) as [q|] eqn:Hq;
    [|apply nth_error_None in Hq; lia].
  assert (Hnonempty : the_questions s <> [])
    by (rewrite Hqs; destruct qs; [cbn in Hk; lia | discriminate]).
  assert (Hi : 0 <= the_index s < len (the_questions s))
    by (rewrite Hidx, Hqs; unfold len; lia).
  assert (Hq' : nth_error (the_questions s) (Z.to_nat (the_index s)) = Some q)
    by (rewrite Hidx, Hqs, Nat2Z.id; exact Hq).
  destruct (game_post_in_progress (post_answer a) s w name q eq_refl Hname
              Hnonempty Hi Hq') as [resp [w1 [Hg Hc]]].
  cbn [play]. rewrite Hg.
  rewrite (skipn_nth_error qs k q Hq). cbn [count_correct].
  destruct rest as [|b rest'].
  - assert (Elt : (the_index s + 1 <? len (the_questions s)) = false)
      by (apply Z.ltb_ge; rewrite Hidx, Hqs; unfold len; cbn in Hlen; lia).
    rewrite Elt in *. cbn [play].
    exists (completed (graded (post_answer a) q s)), w1.
    rewrite count_correct_no_answers, Z.add_0_r.
    rewrite the_score_graded in Hc.
    split; [reflexivity|].
    split; [change (s_name (graded (post_answer a) q s) = Some name);
            rewrite s_name_graded; exact Hname|].
    split; [reflexivity|]. split; [reflexivity|]. split; [reflexivity|].
    split.
    + change (Some (the_score (graded (post_answer a) q s))
              = Some (the_score s
                      + (if is_correct (post_answer a) q then 1 else 0))).
      rewrite the_score_graded. reflexivity.
    + exact Hc.
  - assert (Elt : (the_index s + 1 <? len (the_questions s)) = true)
      by (apply Z.ltb_lt; rewrite Hidx, Hqs; unfold len;
          cbn [List.length] in Hlen; lia).
    rewrite Elt in *. rewrite app_nil_r in Hc.
    destruct (IH (S k) (graded (post_answer a) q s) w1)
      as [s' [w' [Hp [P1 [P2 [P3 [P4 [P5 P6]]]]]]]].
    + rewrite s_name_graded. exact Hname.
    + unfold the_questions. rewrite the_questions_graded. exact Hqs.
    + rewrite the_index_graded, Hidx. lia.
    + cbn [List.length] in *. lia.
    + discriminate.
    + exists s', w'. rewrite the_score_graded in P5, P6.
      rewrite Z.add_assoc. rewrite Hc in P6. auto 10.
Qed.

(** A POST of a name to [index] starts a game of ten questions and commits
    nothing. *)
Lemma index_starts_game request session w :
  method request = POST ->
  strip (form_get "name" "" (form request)) <> "" ->
  exists qs w1,
    index request session w
    = (Ok (Redirect "game",
           mkSession (Some (strip (form_get "name" "" (form request))))
                     (Some 0) (Some qs) (Some 0) None (Some 0)), w1)
    /\ len qs = 10
    /\ commits (calls w1) = commits (calls w).
Proof.
  intros Hm Hname. unfold index.
  destruct (get_leaderboard_ok 3 w) as [v1 [w1 [E1 C1]]].
  unfold bind at 1. rewrite E1. cbv zeta. rewrite Hm.
  apply String.eqb_neq in Hname. rewrite Hname.
  destruct (generate_loop_ok (Z.to_nat 10) [] w1 (Forall_nil _))
    as [qs [Hqs [Hlen [_ Hsame]]]].
  unfold bind at 1. unfold generate_questions.
  destruct (generate_loop (Z.to_nat 10) [] w1) as [o w2].
  cbn [fst snd] in *. subst o.
  destruct (create_player_ok (strip (form_get "name" "" (form request))) w2)
    as [w3 [E3 C3]].
  unfold bind at 1. rewrite E3. unfold ret.
  exists qs, w3. split; [reflexivity|]. split.
  - unfold len. rewrite Hlen. reflexivity.
  - rewrite C3, commits_app. cbn. rewrite app_nil_r.
    unfold same_but_rng in Hsame. rewrite Hsame. cbn.
    rewrite C1, commits_app. cbn. rewrite app_nil_r. reflexivity.
Qed.

(** C1.  A session started through [index] has N = 10 questions.
    Submitting exactly 10 answers closes it (no question left, the final
    score stored) with exactly one [update_player_score] call in the whole
    session, whose delta is the number of correctly answered questions;
    reading the closed session again with a GET makes no further such
    call and leaves the session as it is. *)
Theorem ten_answers_commit_once
  (request : Request) (session0 : Session) (w : World)
  (answers : list string) :
  method request = POST ->
  strip (form_get "name" "" (form request)) <> "" ->
  List.length answers = 10%nat ->
  exists qs s1 w1 s2 w2 resp w3,
    index request session0 w = (Ok (Redirect "game", s1), w1)
    /\ s_questions s1 = Some qs /\ len qs = 10
    /\ play answers s1 w1 = (Ok s2, w2)
    /\ s_questions s2 = Some []
    /\ s_final_score s2 = Some (count_correct qs answers)
    /\ commits (calls w2)
       = commits (calls w)
         ++ [(strip (form_get "name" "" (form request)),
              count_correct qs answers)]
    /\ game (mkRequest GET []) s2 w2 = (Ok (resp, s2), w3)
    /\ commits (calls w3) = commits (calls w2).
Proof.
  intros Hm Hname Hlen.
  destruct (index_starts_game request session0 w Hm Hname)
    as [qs [w1 [Hidx [Hqs Hc1]]]].
  set (name := strip (form_get "name" "" (form request))) in *.
  set (s1 := mkSession (Some name) (Some 0) (Some qs) (Some 0) None (Some 0))
    in *.
  destruct (play_to_completion name qs answers 0%nat s1 w1)
    as [s2 [w2 [Hp [P1 [P2 [P3 [P4 [P5 P6]]]]]]]];
    try reflexivity.
  { unfold len in Hqs. cbn. lia. }
  { destruct answers; [discriminate Hlen | discriminate]. }
  destruct (game_when_no_questions (mkRequest GET []) s2 w2)
    as [resp [w3 [Hg [Hc3 _]]]].
  { unfold the_questions. rewrite P2. reflexivity. }
  cbn [skipn] in P5, P6. change (the_score s1) with 0 in P5, P6.
  rewrite Z.add_0_l in P5, P6.
  exists qs, s1, w1, s2, w2, resp, w3.
  rewrite Hc1 in P6. auto 12.
Qed.

(* ------------------------------------------------------------------ *)
(** ** The session invariant *)

Lemma show_page_keeps_session qs i fb fs ts lb s w resp s' w' :
  show_page qs i fb fs ts lb s w = (Ok (resp, s'), w') -> s' = s.
Proof.
  unfold show_page, bind, lift, ret.
  destruct (negb (nonempty qs) || (i >=? len qs)).
  - intros E. inversion E. reflexivity.
  - destruct (list_getitem qs i); intros E; inversion E. reflexivity.
Qed.

Lemma game_get_keeps_session request s w resp s' w' :
  method request = GET ->
  game request s w = (Ok (resp, s'), w') -> s' = s.
Proof.
  intros Hm. unfold game. destruct (s_name s) as [name|].
  - destruct (get_player_score_ok name w) as [v1 [w1 [E1 _]]].
    unfold bind at 1. rewrite E1.
    destruct (get_leaderboard_ok 3 w1) as [v2 [w2 [E2 _]]].
    unfold bind at 1. rewrite E2. cbv zeta. rewrite Hm. cbn [is_post andb].
    apply show_page_keeps_session.
  - unfold ret. intros E. inversion E. reflexivity.
Qed.

Lemma session_inv_empty : session_inv empty_session.
Proof. unfold session_inv. cbn. repeat split; try lia. congruence. Qed.

Lemma session_inv_graded request q s :
  session_inv s ->
  the_index s + 1 < len (the_questions s) ->
  session_inv (graded request q s).
Proof.
  intros [Hs [Hi Hq]] Hlt. unfold session_inv.
  rewrite the_score_graded, the_index_graded.
  unfold the_questions in *. rewrite the_questions_graded.
  destruct (is_correct request q); repeat split; try lia; intros _; lia.
Qed.

Lemma session_inv_completed s : session_inv (completed s).
Proof. unfold session_inv. cbn. repeat split; try lia. congruence. Qed.

Lemma session_inv_index request s w resp s' w' :
  session_inv s ->
  index request s w = (Ok (resp, s'), w') ->
  session_inv s'.
Proof.
  intros Hinv. unfold index.
  destruct (get_leaderboard_ok 3 w) as [v1 [w1 [E1 _]]].
  unfold bind at 1. rewrite E1. cbv zeta.
  destruct (method request).
  - destruct (s_name s) as [name|];
      [destruct (negb (String.eqb name ""))|];
      unfold ret; intros E; inversion E; subst; exact Hinv.
  - destruct (String.eqb (strip (form_get "name" "" (form request))) "").
    + unfold ret. intros E. inversion E. subst. exact Hinv.
    + destruct (generate_loop_ok (Z.to_nat 10) [] w1 (Forall_nil _))
        as [qs [Hqs [Hlen _]]].
      unfold bind at 1. unfold generate_questions.
      destruct (generate_loop (Z.to_nat 10) [] w1) as [o w2].
      cbn [fst snd] in *. subst o.
      destruct (create_player_ok
                  (strip (form_get "name" "" (form request))) w2)
        as [w3 [E3 _]].
      unfold bind at 1. rewrite E3. unfold ret.
      intros E. inversion E. subst.
      unfold session_inv, the_score, the_index, the_questions, len. cbn.
      rewrite Hlen. cbn. repeat split; try lia.
Qed.

Lemma session_inv_game request s w resp s' w' :
  session_inv s ->
  game request s w = (Ok (resp, s'), w') ->
  session_inv s'.
Proof.
  intros Hinv Hg.
  destruct (method request) eqn:Hm.
  { rewrite (game_get_keeps_session _ _ _ _ _ _ Hm Hg). exact Hinv. }
  destruct (s_name s) as [name|] eqn:Hname.
  2:{ unfold game in Hg. rewrite Hname in Hg. unfold ret in Hg.
      inversion Hg. subst. exact Hinv. }
  destruct (the_questions s) as [|q0 qs0] eqn:Hqs.
  { destruct (game_when_no_questions request s w Hqs)
      as [resp1 [w1 [Hg1 _]]].
    rewrite Hg1 in Hg. inversion Hg. subst. exact Hinv. }
  destruct Hinv as [Hs [Hi Hq]]. rewrite Hqs in Hi, Hq.
  assert (Hne : q0 :: qs0 <> []) by discriminate.
  specialize (Hq Hne).
  assert (Hrange : 0 <= the_index s < len (the_questions s))
    by (rewrite Hqs; lia).
  destruct (list_getitem_nth _ _ Hrange) as [q [_ Hnth]].
  destruct (game_post_in_progress request s w name q Hm Hname)
    as [resp1 [w1 [Hg1 _]]]; auto.
  { rewrite Hqs. exact Hne. }
  rewrite Hg1 in Hg. inversion Hg. subst.
  destruct (the_index s + 1 <? len (the_questions s)) eqn:Elt.
  - apply Z.ltb_lt in Elt. apply session_inv_graded; [|exact Elt].
    unfold session_inv. rewrite Hqs. auto.
  - apply session_inv_completed.
Qed.

Lemma session_inv_step s s' :
  session_inv s -> session_step s s' -> session_inv s'.
Proof.
  intros Hinv [request w resp w' E|request w resp w' E|w resp w' E].
  - eapply session_inv_index; eassumption.
  - eapply session_inv_game; eassumption.
  - unfold logout, ret in E. inversion E. apply session_inv_empty.
Qed.

(** C10.  In every session reachable from an empty one through [index],
    [game] and [logout] requests, 0 <= session_score <= current_index <=
    number of questions; a session with no question left has
    session_score = 0 and current_index = 0; and the POST that answers the
    last question of a game in progress leaves the session reset:
    session_score = 0, current_index = 0, questions empty. *)
Theorem session_score_index_bounds (s : Session) :
  reachable s ->
  (0 <= the_score s <= the_index s
   /\ the_index s <= len (the_questions s))
  /\ (the_questions s = [] -> the_score s = 0 /\ the_index s = 0)
  /\ (forall request w resp s' w',
        in_progress s ->
        method request = POST ->
        the_index s + 1 = len (the_questions s) ->
        game request s w = (Ok (resp, s'), w') ->
        s_session_score s' = Some 0
        /\ s_current_index s' = Some 0
        /\ s_questions s' = Some []).
Proof.
  intros Hreach.
  assert (Hinv : session_inv s).
  { induction Hreach as [|s0 s1 _ IH Hstep].
    - apply session_inv_empty.
    - eapply session_inv_step; eassumption. }
  destruct Hinv as [Hs [Hi Hq]].
  split; [auto|]. split.
  - intros Hnil. rewrite Hnil in Hi. unfold len in Hi. cbn in Hi. lia.
  - intros request w resp s' w' [Hname [Hne Hrange]] Hm Hlast Hg.
    destruct (s_name s) as [name|] eqn:En; [|congruence].
    destruct (list_getitem_nth _ _ Hrange) as [q [_ Hnth]].
    destruct (game_post_in_progress request s w name q Hm En Hne Hrange Hnth)
      as [resp1 [w1 [Hg1 _]]].
    rewrite Hg1 in Hg.
    assert (Elt : (the_index s + 1 <? len (the_questions s)) = false)
      by (apply Z.ltb_ge; lia).
    rewrite Elt in Hg. inversion Hg. subst. auto.
Qed.

(* ------------------------------------------------------------------ *)
(** * Further properties of the gateway *)

Lemma pool_putconn_restores pool c w pl' base pl :
  pools w = replace_nth pool pl' base ->
  nth_error base pool = Some pl ->
  pool_used pl' = [c] ->
  db_pool w = Some pool \/ db_pool w = None ->
  no_conn_out (pool_putconn pool c w) = true.
Proof.
  intros Hp Hbase Hused Hdp.
  assert (Hn : nth_error (pools w) pool = Some pl')
    by (rewrite Hp; eapply nth_error_replace_nth; exact Hbase).
  unfold pool_putconn. rewrite Hn. unfold no_conn_out. cbn.
  destruct Hdp as [-> | ->]; [|reflexivity].
  rewrite (nth_error_replace_nth _ pool (putconn pl' c) pl' Hn).
  rewrite (putconn_last_out pl' c Hused). reflexivity.
Qed.

Lemma pool_putconn_other_fields pool c w :
  faults (pool_putconn pool c w) = faults w
  /\ clock (pool_putconn pool c w) = clock w
  /\ executed (pool_putconn pool c w) = executed w.
Proof.
  unfold pool_putconn. destruct (nth_error (pools w) pool); cbn; auto.
Qed.

(** What every run of the [try] statement does, whatever its outcome,
    when no connection of the pool in hand is out. *)
Lemma execute_on_pool_outcome pool query fetchone fetchall w pl :
  nth_error (pools w) pool = Some pl ->
  pool_used pl = [] ->
  db_pool w = Some pool ->
  let w' := snd (execute_on_pool pool query fetchone fetchall w) in
  no_conn_out w' = true
  /\ faults w' = tl (faults w)
  /\ clock w' = clock w + 1
  /\ (executed w' = executed w \/ executed w' = executed w ++ [query]).
Proof.
  intros Hnth Hused Hdp. cbv zeta.
  unfold execute_on_pool, pool_getconn. cbv zeta.
  change (pools (tick w)) with (pools w). rewrite Hnth.
  destruct (getconn_when_none_out pl (next_conn (tick w)) Hused)
    as [c [pl' [opened [Hget Hu']]]].
  rewrite Hget.
  assert (Hquiet : no_conn_out (tick w) = true).
  { unfold no_conn_out. cbn. rewrite Hdp, Hnth, Hused. reflexivity. }
  assert (Hput : forall w4,
             pools w4 = replace_nth pool pl' (pools w) ->
             db_pool w4 = Some pool \/ db_pool w4 = None ->
             faults w4 = tl (faults w) -> clock w4 = clock w + 1 ->
             executed w4 = executed w ++ [query] ->
             no_conn_out (pool_putconn pool c w4) = true
             /\ faults (pool_putconn pool c w4) = tl (faults w)
             /\ clock (pool_putconn pool c w4) = clock w + 1
             /\ (executed (pool_putconn pool c w4) = executed w
                 \/ executed (pool_putconn pool c w4)
                    = executed w ++ [query])).
  { intros w4 Hp Hd Hf Hc He.
    destruct (pool_putconn_other_fields pool c w4) as [F1 [F2 F3]].
    rewrite F1, F2, F3. split; [|auto].
    eapply pool_putconn_restores; eauto. }
  destruct (next_fault w);
    try (cbn [fst snd]; repeat split; auto; fail);
    repeat break_match; cbn [fst snd]; apply Hput; cbn; auto.
Qed.

Lemma execute_query_keeps_quiet query fetchone fetchall w :
  no_conn_out w = true ->
  no_conn_out (snd (execute_query query fetchone fetchall w)) = true.
Proof.
  intros Hout. unfold execute_query, get_db_pool.
  destruct (url_set w); cbn [negb]; [|exact Hout].
  unfold no_conn_out in Hout.
  destruct (db_pool w) as [p|] eqn:Edp.
  - destruct (nth_error (pools w) p) as [pl|] eqn:Enth; [|discriminate].
    destruct (pool_used pl) eqn:Eused; [|discriminate].
    apply (execute_on_pool_outcome p query fetchone fetchall w pl);
      assumption.
  - destruct (next_fault w) eqn:Ef; try reflexivity;
      match goal with
      | |- context [execute_on_pool ?p _ _ _ ?w1] =>
          apply (execute_on_pool_outcome p query fetchone fetchall w1
                   (new_pool (next_conn w)));
          [ cbn; rewrite nth_error_app2 by lia; rewrite Nat.sub_diag;
            reflexivity
          | reflexivity | reflexivity ]
      end.
Qed.

(** With a descriptor configured a call uses up exactly one round with
    the server. *)
Lemma execute_query_round query fetchone fetchall w :
  url_set w = true ->
  no_conn_out w = true ->
  faults (snd (execute_query query fetchone fetchall w)) = tl (faults w)
  /\ clock (snd (execute_query query fetchone fetchall w)) = clock w + 1.
Proof.
  intros Hurl Hout. unfold execute_query, get_db_pool. rewrite Hurl.
  cbn [negb]. unfold no_conn_out in Hout.
  destruct (db_pool w) as [p|] eqn:Edp.
  - destruct (nth_error (pools w) p) as [pl|] eqn:Enth; [|discriminate].
    destruct (pool_used pl) eqn:Eused; [|discriminate].
    destruct (execute_on_pool_outcome p query fetchone fetchall w pl)
      as [_ [F [C _]]]; auto.
  - destruct (next_fault w) eqn:Ef; try (split; reflexivity);
      match goal with
      | |- context [execute_on_pool ?p _ _ _ ?w1] =>
          destruct (execute_on_pool_outcome p query fetchone fetchall w1
                      (new_pool (next_conn w))) as [_ [F [C _]]];
          [ cbn; rewrite nth_error_app2 by lia; rewrite Nat.sub_diag;
            reflexivity
          | reflexivity | reflexivity
          | split; [exact F | exact C] ]
      end.
Qed.

Lemma execute_query_executed query fetchone fetchall w :
  executed (snd (execute_query query fetchone fetchall w)) = executed w
  \/ executed (snd (execute_query query fetchone fetchall w))
     = executed w ++ [query].
Proof.
  unfold execute_query, get_db_pool.
  destruct (url_set w); cbn [negb]; [|auto].
  assert (Hex : forall p w1,
             executed w1 = executed w ->
             executed (snd (execute_on_pool p query fetchone fetchall w1))
             = executed w
             \/ executed (snd (execute_on_pool p query fetchone fetchall
                                 w1))
                = executed w ++ [query]).
  { intros p w1 He. unfold execute_on_pool. cbv zeta.
    destruct (pool_getconn p (tick w1)) as [[conn w3]|] eqn:Eget.
    - apply pool_getconn_frame in Eget.
      destruct Eget as [_ [_ [_ [_ [E5 _]]]]]. cbn in E5.
      repeat break_match; cbn [fst snd];
        try (left; cbn; exact He);
        right;
        match goal with
        | |- executed (pool_putconn ?a ?b ?c) = _ =>
            destruct (pool_putconn_other_fields a b c) as [_ [_ F]];
            rewrite F; cbn; rewrite E5, He; reflexivity
        end.
    - repeat break_match; cbn [fst snd]; left; cbn; exact He. }
  destruct (db_pool w) as [p|].
  - apply Hex. reflexivity.
  - destruct (next_fault w); try (left; reflexivity);
      apply Hex; reflexivity.
Qed.

(** X1.  Between two calls of [execute_query] no connection of the live
    pool is checked out: if that holds before a call it holds after it,
    in every outcome (success, rejected statement, broken connection,
    failed getconn, failed pool creation, nothing configured). *)
Theorem execute_query_leaves_no_conn_out
  (query : Statement) (fetchone fetchall : bool) (w : World) :
  no_conn_out w = true ->
  no_conn_out (snd (execute_query query fetchone fetchall w)) = true.
Proof. apply execute_query_keeps_quiet. Qed.

(** X2.  A call of [execute_query] never retries: it hands at most one
    statement to the server, the one it was given, and with a descriptor
    configured it uses up exactly one round with the server.  With no
    descriptor it does nothing at all: it returns [None] and the whole
    process state is as before. *)
Theorem execute_query_sends_at_most_once
  (query : Statement) (fetchone fetchall : bool) (w : World) :
  let w' := snd (execute_query query fetchone fetchall w) in
  (executed w' = executed w \/ executed w' = executed w ++ [query])
  /\ (url_set w = true ->
      no_conn_out w = true ->
      faults w' = tl (faults w) /\ clock w' = clock w + 1)
  /\ (url_set w = false ->
      execute_query query fetchone fetchall w = (PNone, w)).
Proof.
  cbv zeta. split; [apply execute_query_executed|]. split.
  - apply execute_query_round.
  - intros Hurl. unfold execute_query, get_db_pool. rewrite Hurl.
    reflexivity.
Qed.

(** X3.  The pool is created once and reused: when [get_db_pool] returns
    a pool, calling it again returns the same pool object and changes
    nothing, so no second pool is created while the first one is live. *)
Theorem get_db_pool_reuses_pool (w w1 : World) (p : nat) :
  get_db_pool w = (Some p, w1) ->
  get_db_pool w1 = (Some p, w1)
  /\ (db_pool w = Some p -> w1 = w)
  /\ (db_pool w = None ->
      p = List.length (pools w)
      /\ pools w1 = pools w ++ [new_pool (next_conn w)]).
Proof.
  intros Eg.
  destruct (get_db_pool_some w p w1 Eg) as [Hdp [_ Hurl]].
  split; [unfold get_db_pool; rewrite Hurl, Hdp; reflexivity|].
  revert Eg. unfold get_db_pool.
  destruct (url_set w); cbn [negb]; [|discriminate].
  destruct (db_pool w) as [p0|].
  - intros E. inversion E; subst. split; [reflexivity | discriminate].
  - destruct (next_fault w); intros E; inversion E; subst;
      (split; [discriminate | intros _; split; reflexivity]).
Qed.

Lemma pool_putconn_length p c w :
  List.length (pools (pool_putconn p c w)) = List.length (pools w).
Proof.
  unfold pool_putconn.
  destruct (nth_error (pools w) p); cbn;
    [apply length_replace_nth | reflexivity].
Qed.

(** Where the [try] statement leaves the global pool: discarded after an
    OperationalError, as it was otherwise; no pool object is created. *)
Lemma execute_on_pool_pool_after pool query fetchone fetchall w pl :
  nth_error (pools w) pool = Some pl ->
  pool_used pl = [] ->
  let w' := snd (execute_on_pool pool query fetchone fetchall w) in
  List.length (pools w') = List.length (pools w)
  /\ db_pool w'
     = (if operational_error (next_fault w) then None else db_pool w).
Proof.
  intros Hnth Hused. cbv zeta.
  unfold execute_on_pool, pool_getconn. cbv zeta.
  change (pools (tick w)) with (pools w). rewrite Hnth.
  destruct (getconn_when_none_out pl (next_conn (tick w)) Hused)
    as [c [pl' [opened [Hget _]]]].
  rewrite Hget.
  assert (Hput : forall w4 o,
             List.length (pools w4) = List.length (pools w) ->
             db_pool w4 = o ->
             List.length (pools (pool_putconn pool c w4))
             = List.length (pools w)
             /\ db_pool (pool_putconn pool c w4) = o).
  { intros w4 o Hl Hd. rewrite pool_putconn_length.
    destruct (pool_putconn_frame pool c w4) as [_ [_ [_ [F _]]]].
    rewrite F. auto. }
  destruct (next_fault w); cbn [operational_error fst snd];
    try (split; reflexivity);
    repeat break_match; cbn [fst snd]; apply Hput; cbn;
      auto using length_replace_nth.
Qed.

(** An OperationalError discards the pool that served the call; any other
    outcome leaves the global pointing to it. *)
Lemma execute_query_pool_after query fetchone fetchall w :
  url_set w = true ->
  no_conn_out w = true ->
  let w1 := snd (execute_query query fetchone fetchall w) in
  (operational_error (next_fault w) = true ->
   exists p,
     fst (get_db_pool w) = Some p
     /\ (p < List.length (pools w1))%nat
     /\ db_pool w1 = None)
  /\ (operational_error (next_fault w) = false ->
      db_pool w1 = fst (get_db_pool w)).
Proof.
  intros Hurl Hout. cbv zeta. unfold execute_query, get_db_pool.
  rewrite Hurl. cbn [negb]. unfold no_conn_out in Hout.
  destruct (db_pool w) as [p|] eqn:Edp.
  - destruct (nth_error (pools w) p) as [pl|] eqn:Enth; [|discriminate].
    destruct (pool_used pl) eqn:Eused; [|discriminate].
    destruct (execute_on_pool_pool_after p query fetchone fetchall w pl
                Enth Eused) as [Hl Hd].
    cbn [fst snd]. split; intros Hop; rewrite Hop in Hd.
    + exists p. split; [reflexivity|]. split; [|exact Hd].
      rewrite Hl. apply nth_error_Some. congruence.
    + rewrite Hd. exact Edp.
  - assert (Hnew : forall w0,
               w0 = set_db_pool (Some (List.length (pools w)))
                      (set_next_conn (next_conn w + minconn)%nat
                         (set_pools (pools w ++ [new_pool (next_conn w)])
                                    w)) ->
               let w1 := snd (execute_on_pool (List.length (pools w)) query
                                fetchone fetchall w0) in
               List.length (pools w1) = S (List.length (pools w))
               /\ db_pool w1
                  = (if operational_error (next_fault w) then None
                     else Some (List.length (pools w)))).
    { intros w0 E0. cbv zeta.
      destruct (execute_on_pool_pool_after (List.length (pools w)) query
                  fetchone fetchall w0 (new_pool (next_conn w)))
        as [Hl Hd].
      - subst w0. cbn. rewrite nth_error_app2 by lia.
        rewrite Nat.sub_diag. reflexivity.
      - reflexivity.
      - rewrite Hl, Hd. subst w0. cbn. rewrite length_app. cbn.
        split; [lia | reflexivity]. }
    destruct (next_fault w) eqn:Ef; cbn [operational_error fst snd];
      try (split; [discriminate | reflexivity]);
      destruct (Hnew _ eq_refl) as [Hl Hd];
      cbn [operational_error] in Hd;
      (split; intros Hop; try discriminate Hop;
       first [ exact Hd
             | eexists; split; [reflexivity|]; split; [lia | exact Hd] ]).
Qed.

(** X4.  The gateway heals itself.  Whatever happened to a call (a fault
    of any kind, a rejected statement), if the next call meets no fault
    it goes through: its statement takes effect and its rows come back.
    After an OperationalError the pool that served the failed call has
    been discarded, and the next call creates a new pool object,
    different from the discarded one, which is the live pool from then
    on. *)
Theorem gateway_recovers_on_next_call
  (query next : Statement) (fetchone fetchall fetchone' fetchall' : bool)
  (w : World) :
  url_set w = true ->
  no_conn_out w = true ->
  hd NoFault (tl (faults w)) = NoFault ->
  let w1 := snd (execute_query query fetchone fetchall w) in
  let r2 := execute_query next fetchone' fetchall' w1 in
  gateway_ready w1 = true
  /\ (forall d rows,
        run_statement next (clock w1 + 1) (db w1) = Some (d, rows) ->
        (fetchone' || fetchall') && negb (returns_rows next) = false ->
        fst r2 = (if fetchone' then hd PNone rows
                  else if fetchall' then PList rows else PNone)
        /\ db (snd r2) = d
        /\ executed (snd r2) = executed w1 ++ [next])
  /\ (operational_error (next_fault w) = true ->
      exists p,
        fst (get_db_pool w) = Some p
        /\ db_pool w1 = None
        /\ db_pool (snd r2) = Some (List.length (pools w1))
        /\ p <> List.length (pools w1)
        /\ List.length (pools (snd r2)) = S (List.length (pools w1))).
Proof.
  intros Hurl Hout Hnext. cbv zeta.
  set (w1 := snd (execute_query query fetchone fetchall w)).
  destruct (execute_query_round query fetchone fetchall w Hurl Hout)
    as [Hf _].
  fold w1 in Hf.
  assert (Hnf : next_fault w1 = NoFault)
    by (unfold next_fault; rewrite Hf; exact Hnext).
  assert (Hurl1 : url_set w1 = true).
  { destruct (execute_query_frame query fetchone fetchall w) as [_ [_ Hu]].
    fold w1 in Hu. unfold url_set in *. rewrite Hu. exact Hurl. }
  assert (Hready : gateway_ready w1 = true).
  { unfold gateway_ready, fault_fires. rewrite Hnf, Hurl1.
    unfold w1.
    rewrite (execute_query_keeps_quiet query fetchone fetchall w Hout).
    reflexivity. }
  split; [exact Hready|]. split.
  - intros d rows Hrun Hfetch.
    destruct (execute_query_ok next fetchone' fetchall' w1 d rows Hready
                Hrun Hfetch) as [R1 [R2 [R3 _]]].
    auto.
  - intros Hop.
    destruct (execute_query_pool_after query fetchone fetchall w Hurl Hout)
      as [Hreset _].
    destruct (Hreset Hop) as [p [Hp [Hlt Hnone]]]. fold w1 in Hlt, Hnone.
    exists p. split; [exact Hp|]. split; [exact Hnone|].
    assert (H2 : db_pool (snd (execute_query next fetchone' fetchall' w1))
                 = Some (List.length (pools w1))
                 /\ List.length
                      (pools (snd (execute_query next fetchone' fetchall'
                                     w1)))
                    = S (List.length (pools w1))).
    { unfold execute_query, get_db_pool.
      rewrite Hurl1, Hnone, Hnf. cbn [negb].
      match goal with
      | |- context [execute_on_pool ?q _ _ _ ?w0] =>
          destruct (execute_on_pool_pool_after q next fetchone' fetchall'
                      w0 (new_pool (next_conn w1))) as [Hl Hd]
      end.
      - cbn. rewrite nth_error_app2 by lia.
        rewrite Nat.sub_diag. reflexivity.
      - reflexivity.
      - rewrite Hl, Hd.
        match goal with
        | |- context [next_fault ?w0] =>
            change (next_fault w0) with (next_fault w1)
        end.
        rewrite Hnf. cbn. rewrite length_app. cbn. split; [reflexivity|lia]. }
    destruct H2 as [H2a H2b].
    split; [exact H2a|]. split; [lia | exact H2b].
Qed.

(* ------------------------------------------------------------------ *)
(** * Further properties of the player store *)

(** The table after a gateway call is the table before it or the one the
    statement produces from it. *)
Lemma execute_on_pool_db pool query fetchone fetchall w :
  db (snd (execute_on_pool pool query fetchone fetchall w)) = db w
  \/ exists now rows,
       run_statement query now (db w)
       = Some (db (snd (execute_on_pool pool query fetchone fetchall w)),
               rows).
Proof.
  unfold execute_on_pool. cbv zeta.
  destruct (pool_getconn pool (tick w)) as [[conn w3]|] eqn:Eget.
  - apply pool_getconn_frame in Eget.
    destruct Eget as [_ [_ [Edb _]]]. cbn in Edb.
    change (db (log_executed query w3)) with (db w3). rewrite Edb.
    destruct (next_fault w); cbn [fst snd];
      try (left; try rewrite db_pool_putconn; cbn; auto; fail);
      (destruct (run_statement query (clock (log_executed query w3)) (db w))
         as [[d rows]|] eqn:Erun;
       [ destruct ((fetchone || fetchall) && negb (returns_rows query));
         cbn [fst snd];
         [ left; rewrite db_pool_putconn; cbn; auto
         | right; rewrite db_pool_putconn; cbn; eauto ]
       | left; cbn [fst snd]; rewrite db_pool_putconn; cbn; auto ]).
  - destruct (next_fault w); left; reflexivity.
Qed.

Lemma execute_query_db query fetchone fetchall w :
  db (snd (execute_query query fetchone fetchall w)) = db w
  \/ exists now rows,
       run_statement query now (db w)
       = Some (db (snd (execute_query query fetchone fetchall w)), rows).
Proof.
  unfold execute_query.
  destruct (get_db_pool_frame w) as [_ [_ [Hdb _]]].
  destruct (get_db_pool w) as [[pool|] w1]; cbn [fst snd] in *;
    [|left; exact Hdb].
  rewrite <- Hdb. apply execute_on_pool_db.
Qed.

Lemma NoDup_map_filter {A B : Type} (f : A -> B) (g : A -> bool) l :
  NoDup (map f l) -> NoDup (map f (filter g l)).
Proof.
  induction l as [|a l IH]; intros Hnd; [constructor|].
  cbn in *. inversion Hnd as [|b l' Hnotin Hnd']; subst.
  destruct (g a); [|auto]. cbn. constructor; [|auto].
  intros Hin. apply Hnotin. apply in_map_iff in Hin.
  destruct Hin as [x [Hx Hin]]. apply filter_In in Hin.
  apply in_map_iff. exists x. tauto.
Qed.

Lemma map_id_add_points pts name now l :
  map p_id (map (add_points pts name now) l) = map p_id l.
Proof.
  rewrite map_map. apply map_ext. intros p. unfold add_points.
  destruct (has_name name p); reflexivity.
Qed.

Lemma map_name_add_points pts name now l :
  map p_name (map (add_points pts name now) l) = map p_name l.
Proof.
  rewrite map_map. apply map_ext. intros p. unfold add_points.
  destruct (has_name name p); reflexivity.
Qed.

(** Every statement the player store sends keeps the constraints of the
    table. *)
Lemma run_statement_table_ok query now d d' rows :
  run_statement query now d = Some (d', rows) ->
  table_ok d -> table_ok d'.
Proof.
  intros Hrun [Hids [Hnames Hall]]. destruct query as [n|n|pts n|k|m];
    cbn [run_statement] in Hrun.
  - inversion Hrun; subst. repeat split; assumption.
  - destruct (int4_range (next_id d)) eqn:Er; cbn [negb] in Hrun;
      [|discriminate].
    destruct (existsb (has_name n) (players d)) eqn:Eex;
      inversion Hrun; subst; clear Hrun; unfold table_ok; cbn.
    + repeat split; auto. eapply Forall_impl; [|exact Hall].
      cbn. intros p [Hp Hr]. split; [lia | exact Hr].
    + rewrite !map_app. cbn. rewrite Forall_forall in Hall.
      repeat split.
      * apply NoDup_app; [exact Hids | repeat constructor; intros [] |].
        intros x Hx [<-|[]]. apply in_map_iff in Hx.
        destruct Hx as [p [Hp Hin]]. destruct (Hall p Hin) as [Hlt _]. lia.
      * apply NoDup_app; [exact Hnames | repeat constructor; intros [] |].
        intros x Hx [<-|[]]. apply in_map_iff in Hx.
        destruct Hx as [p [Hp Hin]].
        assert (Hex : existsb (has_name n) (players d) = true).
        { apply existsb_exists. exists p. split; [exact Hin|].
          unfold has_name. rewrite Hp. apply String.eqb_refl. }
        congruence.
      * apply Forall_app. split.
        -- apply Forall_forall. intros p Hin.
           destruct (Hall p Hin) as [Hlt Hr]. split; [lia | exact Hr].
        -- constructor; [|constructor]. cbn. split; [lia | reflexivity].
  - destruct (existsb
                (fun p => has_name n p
                          && negb (int4_range (p_total_score p + pts)))
                (players d)) eqn:Eex; [discriminate|].
    inversion Hrun; subst; clear Hrun. unfold table_ok. cbn.
    rewrite map_id_add_points, map_name_add_points.
    repeat split; auto.
    apply Forall_forall. intros p' Hin. apply in_map_iff in Hin.
    destruct Hin as [p [Hp Hin]]. rewrite Forall_forall in Hall.
    destruct (Hall p Hin) as [Hlt Hr]. subst p'. unfold add_points.
    destruct (has_name n p) eqn:En; cbn; [|auto].
    split; [exact Hlt|].
    destruct (int4_range (p_total_score p + pts)) eqn:Er2; [reflexivity|].
    exfalso. assert (Hex : existsb
                             (fun p => has_name n p
                                       && negb (int4_range
                                                  (p_total_score p + pts)))
                             (players d) = true).
    { apply existsb_exists. exists p. rewrite En, Er2. auto. }
    congruence.
  - destruct (k <? 0); inversion Hrun; subst. repeat split; assumption.
  - destruct (m <? 0); inversion Hrun; subst; clear Hrun.
    unfold table_ok. cbn. repeat split.
    + apply NoDup_map_filter. exact Hids.
    + apply NoDup_map_filter. exact Hnames.
    + apply Forall_forall. intros p Hin. apply filter_In in Hin.
      rewrite Forall_forall in Hall. apply Hall. tauto.
Qed.

Lemma execute_query_table_ok query fetchone fetchall w :
  table_ok (db w) ->
  table_ok (db (snd (execute_query query fetchone fetchall w))).
Proof.
  intros Hok.
  destruct (execute_query_db query fetchone fetchall w)
    as [E|[now [rows Hrun]]].
  - rewrite E. exact Hok.
  - eapply run_statement_table_ok; eassumption.
Qed.

(** X5.  Every call of [execute_query] with one of the player store's
    statements keeps the constraints of the [players] table, whatever the
    outcome of the call: ids stay unique and below the serial counter,
    names stay unique, and every total_score stays within the INTEGER
    range. *)
Theorem execute_query_keeps_table_ok
  (query : Statement) (fetchone fetchall : bool) (w : World) :
  table_ok (db w) ->
  table_ok (db (snd (execute_query query fetchone fetchall w))).
Proof. apply execute_query_table_ok. Qed.

(** X6.  Reading never writes: [get_player_score] and [get_leaderboard]
    leave the table exactly as it was, in every outcome of the call. *)
Theorem reads_leave_table_unchanged (name : string) (limit : Z) (w : World) :
  db (snd (get_player_score name w)) = db w
  /\ db (snd (get_leaderboard limit w)) = db w.
Proof.
  split.
  - unfold get_player_score.
    destruct (execute_query_db (SelectScore name) true false
                (log_call (CallGetPlayerScore name) w))
      as [E|[now [rows Hrun]]];
      destruct (execute_query (SelectScore name) true false
                  (log_call (CallGetPlayerScore name) w)) as [r w1];
      cbn [fst snd] in *; [exact E|].
    cbn in Hrun. injection Hrun as Hd _. symmetry. exact Hd.
  - unfold get_leaderboard.
    destruct (execute_query_db (SelectLeaderboard limit) false true
                (log_call (CallGetLeaderboard limit) w))
      as [E|[now [rows Hrun]]];
      destruct (execute_query (SelectLeaderboard limit) false true
                  (log_call (CallGetLeaderboard limit) w)) as [r w1];
      cbn [fst snd] in *; [exact E|].
    cbn in Hrun. destruct (limit <? 0); [discriminate|].
    injection Hrun as Hd _. symmetry. exact Hd.
Qed.

(** X7.  What the writes never do, in any outcome of the call:
    [update_player_score] neither adds nor removes a row, keeps every id
    and name, and leaves the rows of all other players untouched;
    [prune_players] changes no row, it only removes rows;
    [create_player] changes no existing row, it only appends. *)
Theorem writes_touch_only_their_rows
  (name : string) (additional_points max_players : Z) (w : World) :
  (let after := players (db (snd (update_player_score name
                                    additional_points w))) in
   map p_id after = map p_id (players (db w))
   /\ map p_name after = map p_name (players (db w))
   /\ filter (fun p => negb (has_name name p)) after
      = filter (fun p => negb (has_name name p)) (players (db w)))
  /\ (exists keep,
        players (db (snd (prune_players max_players w)))
        = filter keep (players (db w)))
  /\ (exists added,
        players (db (snd (create_player name w)))
        = players (db w) ++ added).
Proof.
  split; [|split].
  - cbv zeta. unfold update_player_score.
    destruct (execute_query_db (UpdateScore additional_points name)
                false false
                (log_call (CallUpdatePlayerScore name additional_points) w))
      as [E|[now [rows Hrun]]];
      destruct (execute_query (UpdateScore additional_points name)
                  false false
                  (log_call (CallUpdatePlayerScore name additional_points)
                            w)) as [r w1];
      cbn [fst snd] in *.
    + rewrite E. auto.
    + cbn in Hrun.
      destruct (existsb _ (players (db w))); [discriminate|].
      injection Hrun as Hd _. rewrite <- Hd. cbn.
      rewrite map_id_add_points, map_name_add_points,
        filter_others_add_points. auto.
  - unfold prune_players.
    destruct (execute_query_db (DeleteStale max_players) false false
                (log_call (CallPrunePlayers max_players) w))
      as [E|[now [rows Hrun]]];
      destruct (execute_query (DeleteStale max_players) false false
                  (log_call (CallPrunePlayers max_players) w)) as [r w1];
      cbn [fst snd] in *.
    + exists (fun _ => true). rewrite E. symmetry.
      apply filter_keeps_all. auto.
    + cbn in Hrun. destruct (max_players <? 0); [discriminate|].
      injection Hrun as Hd _. rewrite <- Hd. cbn. eauto.
  - unfold create_player.
    destruct (execute_query_db (InsertPlayer name) false false
                (log_call (CallCreatePlayer name) w))
      as [E|[now [rows Hrun]]];
      destruct (execute_query (InsertPlayer name) false false
                  (log_call (CallCreatePlayer name) w)) as [r w1];
      cbn [fst snd] in *.
    + exists []. rewrite E, app_nil_r. reflexivity.
    + cbn in Hrun.
      destruct (negb (int4_range (next_id (db w)))); [discriminate|].
      destruct (existsb (has_name name) (players (db w)));
        injection Hrun as Hd _; rewrite <- Hd; cbn.
      * exists []. rewrite app_nil_r. reflexivity.
      * eauto.
Qed.

(** A point lookup through a ready gateway. *)
Lemma get_player_score_goes_through name w :
  gateway_ready w = true ->
  let r := get_player_score name w in
  fst r = Ok (match stored_score name (db w) with
              | Some z => PInt z
              | None => PNone
              end)
  /\ db (snd r) = db w
  /\ clock (snd r) = clock w + 1
  /\ faults (snd r) = tl (faults w)
  /\ url_set (snd r) = true
  /\ no_conn_out (snd r) = true.
Proof.
  intros Hready. cbv zeta. unfold get_player_score.
  destruct (execute_query_ok (SelectScore name) true false
              (log_call (CallGetPlayerScore name) w) (db w)
              (map (fun p => PTuple [PInt (p_total_score p)])
                   (filter (has_name name) (players (db w))))
              Hready eq_refl eq_refl)
    as [R1 [R2 [_ [R4 [R5 [R6 R7]]]]]].
  destruct (execute_query (SelectScore name) true false
              (log_call (CallGetPlayerScore name) w)) as [row w1].
  cbn [fst snd] in *. subst row. unfold stored_score.
  split; [|auto].
  destruct (filter (has_name name) (players (db w))); reflexivity.
Qed.

(** An insert through a ready gateway. *)
Lemma create_player_goes_through name w :
  gateway_ready w = true ->
  int4_range (next_id (db w)) = true ->
  let w' := snd (create_player name w) in
  players (db w')
  = (if existsb (has_name name) (players (db w)) then players (db w)
     else players (db w) ++ [mkPlayer (next_id (db w)) name 0 (clock w + 1)])
  /\ next_id (db w') = next_id (db w) + 1
  /\ clock w' = clock w + 1
  /\ faults w' = tl (faults w)
  /\ url_set w' = true
  /\ no_conn_out w' = true.
Proof.
  intros Hready Hrange. cbv zeta. unfold create_player.
  assert (Hrun : run_statement (InsertPlayer name) (clock w + 1) (db w)
                 = Some (mkDatabase
                           (if existsb (has_name name) (players (db w))
                            then players (db w)
                            else players (db w)
                                 ++ [mkPlayer (next_id (db w)) name 0
                                              (clock w + 1)])
                           (next_id (db w) + 1), [])).
  { cbn [run_statement]. rewrite Hrange. cbn [negb].
    destruct (existsb (has_name name) (players (db w))); reflexivity. }
  destruct (execute_query_ok (InsertPlayer name) false false
              (log_call (CallCreatePlayer name) w) _ _ Hready Hrun eq_refl)
    as [_ [R2 [_ [R4 [R5 [R6 R7]]]]]].
  destruct (execute_query (InsertPlayer name) false false
              (log_call (CallCreatePlayer name) w)) as [r w1].
  cbn [fst snd] in *. rewrite R2. cbn. auto 10.
Qed.

Lemma create_player_keeps_existing name w :
  existsb (has_name name) (players (db w)) = true ->
  players (db (snd (create_player name w))) = players (db w).
Proof.
  intros Hex. unfold create_player.
  destruct (execute_query_db (InsertPlayer name) false false
              (log_call (CallCreatePlayer name) w))
    as [E|[now [rows Hrun]]];
    destruct (execute_query (InsertPlayer name) false false
                (log_call (CallCreatePlayer name) w)) as [r w1];
    cbn [fst snd] in *.
  - rewrite E. reflexivity.
  - cbn in Hrun. rewrite Hex in Hrun.
    destruct (negb (int4_range (next_id (db w)))); [discriminate|].
    injection Hrun as Hd _. rewrite <- Hd. reflexivity.
Qed.

Lemma existsb_has_name_new name l p :
  p_name p = name -> existsb (has_name name) (l ++ [p]) = true.
Proof.
  intros Hp. rewrite existsb_app. cbn. unfold has_name at 2.
  rewrite Hp, String.eqb_refl. apply orb_true_iff. right. reflexivity.
Qed.

(** X8.  [create_player] is an insert-if-absent.  For a name that can be
    stored (no NUL character, up to [max_name_bytes] bytes) and through a
    ready gateway it leaves the player present: an existing row is kept
    as it is (its score is not reset), an absent one is appended with
    score 0, the next serial id and the time of the statement.  A second
    call for the same name, whatever its outcome, leaves every row as
    after the first. *)
Theorem create_player_is_idempotent (name : string) (w : World) :
  storable name = true ->
  gateway_ready w = true ->
  int4_range (next_id (db w)) = true ->
  let w1 := snd (create_player name w) in
  let w2 := snd (create_player name w1) in
  existsb (has_name name) (players (db w1)) = true
  /\ players (db w2) = players (db w1)
  /\ (existsb (has_name name) (players (db w)) = true ->
      players (db w1) = players (db w))
  /\ (existsb (has_name name) (players (db w)) = false ->
      players (db w1)
      = players (db w) ++ [mkPlayer (next_id (db w)) name 0 (clock w + 1)]).
Proof.
  intros _ Hready Hrange. cbv zeta.
  destruct (create_player_goes_through name w Hready Hrange) as [Hp _].
  assert (Hex : existsb (has_name name)
                        (players (db (snd (create_player name w)))) = true).
  { rewrite Hp. destruct (existsb (has_name name) (players (db w))) eqn:E;
      [exact E | apply existsb_has_name_new; reflexivity]. }
  split; [exact Hex|].
  split; [apply create_player_keeps_existing; exact Hex|].
  split; intros E; rewrite Hp, E; reflexivity.
Qed.

(** X9.  Through a ready gateway [get_player_score] returns the stored
    total of the player, and [None] when there is no row of that name. *)
Theorem get_player_score_returns_stored (name : string) (w : World) :
  gateway_ready w = true ->
  fst (get_player_score name w)
  = Ok (match stored_score name (db w) with
        | Some z => PInt z
        | None => PNone
        end).
Proof.
  intros Hready. apply (get_player_score_goes_through name w Hready).
Qed.

(** X10.  Create, then look up: for a name that can be stored (no NUL
    character, up to [max_name_bytes] bytes), after [create_player] the
    score read back is the total the player already had, or 0 for a new
    player. *)
Theorem create_then_get_score (name : string) (w : World) :
  storable name = true ->
  url_set w = true ->
  no_conn_out w = true ->
  calm 2 w = true ->
  int4_range (next_id (db w)) = true ->
  fst (get_player_score name (snd (create_player name w)))
  = Ok (PInt (match stored_score name (db w) with
              | Some z => z
              | None => 0
              end)).
Proof.
  intros _ Hu Ho Hc Hr.
  destruct (create_player_goes_through name w)
    as [Hp [_ [_ [Hf [Hu1 Ho1]]]]]; auto.
  { eapply ready_when_calm; eassumption. }
  destruct (get_player_score_goes_through name (snd (create_player name w)))
    as [Hg _].
  { apply (ready_when_calm 0); auto. eapply calm_tail; eassumption. }
  rewrite Hg. unfold stored_score. rewrite Hp.
  destruct (existsb (has_name name) (players (db w))) eqn:Eex.
  - destruct (filter (has_name name) (players (db w))) eqn:Ef;
      [|reflexivity].
    exfalso. apply existsb_exists in Eex. destruct Eex as [p [Hin Hn]].
    assert (Hin' : In p (filter (has_name name) (players (db w))))
      by (apply filter_In; auto).
    rewrite Ef in Hin'. destruct Hin'.
  - rewrite filter_app.
    assert (Hnone : filter (has_name name) (players (db w)) = []).
    { destruct (filter (has_name name) (players (db w))) as [|p l] eqn:Ef;
        [reflexivity|].
      exfalso.
      assert (Hin : In p (filter (has_name name) (players (db w))))
        by (rewrite Ef; left; reflexivity).
      apply filter_In in Hin.
      assert (Hex : existsb (has_name name) (players (db w)) = true)
        by (apply existsb_exists; exists p; exact Hin).
      congruence. }
    rewrite Hnone. cbn. unfold has_name. cbn. rewrite String.eqb_refl.
    reflexivity.
Qed.

(** X11.  Commit, then look up: after [update_player_score] has added
    points to a player, the score read back is the former total plus the
    points. *)
Theorem update_then_get_score
  (name : string) (additional_points id score played : Z) (w : World) :
  url_set w = true ->
  no_conn_out w = true ->
  calm 2 w = true ->
  filter (has_name name) (players (db w)) = [mkPlayer id name score played] ->
  int4_range (score + additional_points) = true ->
  fst (get_player_score name
         (snd (update_player_score name additional_points w)))
  = Ok (PInt (score + additional_points)).
Proof.
  intros Hu Ho Hc Hrow Hr.
  destruct (update_player_score_ok name additional_points w id score played)
    as [A1 [_ [_ [_ [A5 [A6 A7]]]]]]; auto.
  { eapply ready_when_calm; eassumption. }
  destruct (get_player_score_goes_through name
              (snd (update_player_score name additional_points w)))
    as [Hg _].
  { apply (ready_when_calm 0); auto. eapply calm_tail; eassumption. }
  rewrite Hg. unfold stored_score. rewrite A1. reflexivity.
Qed.

(* ------------------------------------------------------------------ *)
(** ** The leaderboard *)








(* ------------------------------------------------------------------ *)
(** * Further properties of the handlers *)

Section Respect.

Variable R : World -> World -> Prop.
Variable allowed : Statement -> Prop.
Hypothesis R_refl : forall w, R w w.
Hypothesis R_trans : forall x y z, R x y -> R y z -> R x z.
Hypothesis R_execute :
  forall query fetchone fetchall w,
    allowed query ->
    R w (snd (execute_query query fetchone fetchall w)).
Hypothesis R_log : forall c w, R w (log_call c w).
Hypothesis R_rng : forall g w, R w (set_rng g w).

Lemma respects_bind {A B : Type} (c : M A) (k : A -> M B) :
  respects R c -> (forall a, respects R (k a)) -> respects R (bind c k).
Proof.
  intros Hc Hk w. unfold bind. specialize (Hc w).
  destruct (c w) as [[a|e] w1]; cbn [snd] in *; [|exact Hc].
  eapply R_trans; [exact Hc | apply Hk].
Qed.

Lemma respects_ret {A : Type} (a : A) : respects R (ret a).
Proof. intros w. apply R_refl. Qed.

Lemma respects_lift {A : Type} (o : Outcome A) : respects R (lift o).
Proof. intros w. apply R_refl. Qed.

Lemma respects_bind_lift {A B : Type} (o : Outcome A) (k : A -> M B) :
  (forall a, o = Ok a -> respects R (k a)) -> respects R (bind (lift o) k).
Proof.
  intros Hk w. unfold bind, lift. destruct o as [a|e]; cbn [snd].
  - apply Hk. reflexivity.
  - apply R_refl.
Qed.

Lemma respects_logged (c : StoreCall) query fetchone fetchall w :
  allowed query ->
  R w (snd (execute_query query fetchone fetchall (log_call c w))).
Proof. intros Ha. eapply R_trans; [apply R_log | apply R_execute; exact Ha]. Qed.

Lemma respects_get_player_score name :
  allowed (SelectScore name) -> respects R (get_player_score name).
Proof.
  intros Ha w. unfold get_player_score.
  pose proof (respects_logged (CallGetPlayerScore name) (SelectScore name)
                true false w Ha) as Hr.
  destruct (execute_query (SelectScore name) true false
              (log_call (CallGetPlayerScore name) w)). exact Hr.
Qed.

Lemma respects_get_leaderboard limit :
  allowed (SelectLeaderboard limit) -> respects R (get_leaderboard limit).
Proof.
  intros Ha w. unfold get_leaderboard.
  pose proof (respects_logged (CallGetLeaderboard limit)
                (SelectLeaderboard limit) false true w Ha) as Hr.
  destruct (execute_query (SelectLeaderboard limit) false true
              (log_call (CallGetLeaderboard limit) w)). exact Hr.
Qed.

Lemma respects_create_player name :
  allowed (InsertPlayer name) -> respects R (create_player name).
Proof.
  intros Ha w. unfold create_player.
  pose proof (respects_logged (CallCreatePlayer name) (InsertPlayer name)
                false false w Ha) as Hr.
  destruct (execute_query (InsertPlayer name) false false
              (log_call (CallCreatePlayer name) w)). exact Hr.
Qed.

Lemma respects_update_player_score name pts :
  allowed (UpdateScore pts name) ->
  respects R (update_player_score name pts).
Proof.
  intros Ha w. unfold update_player_score.
  pose proof (respects_logged (CallUpdatePlayerScore name pts)
                (UpdateScore pts name) false false w Ha) as Hr.
  destruct (execute_query (UpdateScore pts name) false false
              (log_call (CallUpdatePlayerScore name pts) w)). exact Hr.
Qed.

Lemma respects_prune_players m :
  allowed (DeleteStale m) -> respects R (prune_players m).
Proof.
  intros Ha w. unfold prune_players.
  pose proof (respects_logged (CallPrunePlayers m) (DeleteStale m)
                false false w Ha) as Hr.
  destruct (execute_query (DeleteStale m) false false
              (log_call (CallPrunePlayers m) w)). exact Hr.
Qed.

Lemma respects_generate_questions count :
  respects R (generate_questions count).
Proof.
  intros w. unfold generate_questions.
  destruct (generate_loop_ok (Z.to_nat count) [] w (Forall_nil _))
    as [_ [_ [_ [_ Hsame]]]].
  unfold same_but_rng in Hsame. rewrite Hsame. apply R_rng.
Qed.

Lemma respects_show_page qs i fb fs ts lb s :
  respects R (show_page qs i fb fs ts lb s).
Proof.
  unfold show_page.
  destruct (negb (nonempty qs) || (i >=? len qs)); [apply respects_ret|].
  apply respects_bind; [apply respects_lift|].
  intros q. apply respects_ret.
Qed.

(** The statements the handlers send: the two reads, the insert, the
    prune of all but 100, and an update by the running score, which
    grading never lowers. *)
Hypothesis allowed_select_score : forall name, allowed (SelectScore name).
Hypothesis allowed_leaderboard : allowed (SelectLeaderboard 3).
Hypothesis allowed_insert : forall name, allowed (InsertPlayer name).
Hypothesis allowed_prune : allowed (DeleteStale 100).

Lemma respects_finish_game name s :
  allowed (UpdateScore (the_score s) name) ->
  respects R (finish_game name s).
Proof.
  intros Ha. unfold finish_game.
  apply respects_bind; [apply respects_update_player_score; exact Ha|].
  intros _.
  apply respects_bind; [apply respects_prune_players; exact allowed_prune|].
  intros _.
  apply respects_bind;
    [apply respects_get_player_score; apply allowed_select_score|].
  intros score.
  apply respects_bind;
    [apply respects_get_leaderboard; exact allowed_leaderboard|].
  intros lb. apply respects_ret.
Qed.

Lemma evaluate_answer_score_grows request qs i fb s s1 i1 fb1 :
  evaluate_answer request qs i fb s = Ok (s1, i1, fb1) ->
  the_score s <= the_score s1.
Proof.
  unfold evaluate_answer. cbv zeta.
  destruct (match py_int (strip (form_get "answer" "" (form request))) with
            | Ok v => Ok (Some v)
            | Raised ValueError => Ok None
            | Raised e => Raised e
            end) as [ua|e]; [|discriminate].
  destruct (i <? len qs); [|intros E; inversion E; subst; lia].
  destruct (list_getitem qs i) as [q|e]; [|discriminate].
  destruct ua as [v|]; [destruct (v =? q_answer q)|];
    intros E; inversion E; subst; unfold the_score; cbn; lia.
Qed.

Lemma respects_game request s :
  (forall name d, the_score s <= d -> allowed (UpdateScore d name)) ->
  respects R (game request s).
Proof.
  intros Hupd. unfold game.
  destruct (s_name s) as [name|]; [|apply respects_ret].
  apply respects_bind;
    [apply respects_get_player_score; apply allowed_select_score|].
  intros score.
  apply respects_bind;
    [apply respects_get_leaderboard; exact allowed_leaderboard|].
  intros lb. cbv zeta.
  destruct (is_post (method request)
            && nonempty (session_get (s_questions s) []));
    [|apply respects_show_page].
  apply respects_bind_lift. intros [[s1 i1] fb1] He.
  apply evaluate_answer_score_grows in He.
  destruct (i1 >=? len (session_get (s_questions s) []));
    [apply respects_finish_game; apply Hupd; exact He
    | apply respects_show_page].
Qed.

Lemma respects_index request s : respects R (index request s).
Proof.
  unfold index.
  apply respects_bind;
    [apply respects_get_leaderboard; exact allowed_leaderboard|].
  intros lb. cbv zeta. destruct (method request).
  - destruct (s_name s) as [name|];
      [destruct (negb (String.eqb name ""))|]; apply respects_ret.
  - destruct (String.eqb (strip (form_get "name" "" (form request))) "");
      [apply respects_ret|].
    apply respects_bind; [apply respects_generate_questions|]. intros qs.
    apply respects_bind;
      [apply respects_create_player; apply allowed_insert|].
    intros _. apply respects_ret.
Qed.

End Respect.

(** [index] and [game] keep every relation that is reflexive and
    transitive and that every gateway call, every entry in the call
    history and every draw keeps. *)
Lemma handlers_respect (R : World -> World -> Prop) request s w :
  (forall w, R w w) ->
  (forall x y z, R x y -> R y z -> R x z) ->
  (forall query fetchone fetchall w,
     R w (snd (execute_query query fetchone fetchall w))) ->
  (forall c w, R w (log_call c w)) ->
  (forall g w, R w (set_rng g w)) ->
  R w (snd (index request s w)) /\ R w (snd (game request s w)).
Proof.
  intros Hrefl Htrans Hexec Hlog Hrng. split.
  - apply (respects_index R (fun _ => True)); auto.
  - apply (respects_game R (fun _ => True)); auto.
Qed.

(** X13.  Every request handled by [index] or [game], whatever it does
    and however its database calls end, keeps the constraints of the
    [players] table: unique ids below the serial counter, unique names,
    totals within the INTEGER range. *)
Theorem handlers_keep_table_ok
  (request : Request) (session : Session) (w : World) :
  table_ok (db w) ->
  table_ok (db (snd (index request session w)))
  /\ table_ok (db (snd (game request session w))).
Proof.
  intros Hok.
  set (R := fun w w' : World => table_ok (db w) -> table_ok (db w')).
  assert (Hrefl : forall w, R w w) by (intros w0 Hw; exact Hw).
  assert (Htrans : forall x y z, R x y -> R y z -> R x z)
    by (intros x y z Hxy Hyz Hx; auto).
  assert (Hexec : forall query fetchone fetchall w0,
             R w0 (snd (execute_query query fetchone fetchall w0)))
    by (intros; intro; apply execute_query_table_ok; assumption).
  assert (Hlog : forall c w0, R w0 (log_call c w0))
    by (intros c w0 Hw; exact Hw).
  assert (Hrng : forall g w0, R w0 (set_rng g w0))
    by (intros g w0 Hw; exact Hw).
  destruct (handlers_respect R request session w Hrefl Htrans Hexec Hlog
              Hrng) as [Hi Hg].
  split; [apply Hi | apply Hg]; exact Hok.
Qed.

(** X14.  No request leaves a connection checked out: if no connection
    of the live pool is out when [index] or [game] starts handling a
    request, none is out when it returns, whatever faults struck its
    database calls. *)
Theorem handlers_leave_no_conn_out
  (request : Request) (session : Session) (w : World) :
  no_conn_out w = true ->
  no_conn_out (snd (index request session w)) = true
  /\ no_conn_out (snd (game request session w)) = true.
Proof.
  intros Hout.
  set (R := fun w w' : World =>
              no_conn_out w = true -> no_conn_out w' = true).
  assert (Hrefl : forall w, R w w) by (intros w0 Hw; exact Hw).
  assert (Htrans : forall x y z, R x y -> R y z -> R x z)
    by (intros x y z Hxy Hyz Hx; auto).
  assert (Hexec : forall query fetchone fetchall w0,
             R w0 (snd (execute_query query fetchone fetchall w0)))
    by (intros; intro; apply execute_query_keeps_quiet; assumption).
  assert (Hlog : forall c w0, R w0 (log_call c w0))
    by (intros c w0 Hw; exact Hw).
  assert (Hrng : forall g w0, R w0 (set_rng g w0))
    by (intros g w0 Hw; exact Hw).
  destruct (handlers_respect R request session w Hrefl Htrans Hexec Hlog
              Hrng) as [Hi Hg].
  split; [apply Hi | apply Hg]; exact Hout.
Qed.

(** X15.  Without a DATABASE_URL the handlers never reach for the
    database: after any [index] or [game] request the configuration, the
    pool, the table, the clock, the pending faults and the list of
    executed statements are exactly as before; only the call history and
    the random generator can differ. *)
Theorem handlers_do_no_io_when_unconfigured
  (request : Request) (session : Session) (w : World) :
  url_set w = false ->
  same_but_calls_rng w (snd (index request session w))
  /\ same_but_calls_rng w (snd (game request session w)).
Proof.
  intros Hurl.
  set (R := fun w w' : World =>
              url_set w = false -> same_but_calls_rng w w').
  assert (Hrefl : forall w, R w w)
    by (intros w0 _; unfold same_but_calls_rng; auto 10).
  assert (Htrans : forall x y z, R x y -> R y z -> R x z).
  { intros x y z Hxy Hyz Hx. specialize (Hxy Hx).
    assert (Hy : url_set y = false).
    { unfold url_set in *. destruct Hxy as [E _]. rewrite E. exact Hx. }
    specialize (Hyz Hy). unfold same_but_calls_rng in *.
    destruct Hxy as [A1 [A2 [A3 [A4 [A5 [A6 [A7 A8]]]]]]].
    destruct Hyz as [B1 [B2 [B3 [B4 [B5 [B6 [B7 B8]]]]]]].
    repeat split; congruence. }
  assert (Hexec : forall query fetchone fetchall w0,
             R w0 (snd (execute_query query fetchone fetchall w0))).
  { intros query fetchone fetchall w0 Hu.
    unfold execute_query, get_db_pool. rewrite Hu. cbn.
    unfold same_but_calls_rng. auto 10. }
  assert (Hlog : forall c w0, R w0 (log_call c w0))
    by (intros c w0 _; unfold same_but_calls_rng; cbn; auto 10).
  assert (Hrng : forall g w0, R w0 (set_rng g w0))
    by (intros g w0 _; unfold same_but_calls_rng; cbn; auto 10).
  destruct (handlers_respect R request session w Hrefl Htrans Hexec Hlog
              Hrng) as [Hi Hg].
  split; [apply Hi | apply Hg]; exact Hurl.
Qed.

(* ------------------------------------------------------------------ *)
(** ** What each request does to the session *)

Lemma get_leaderboard_db limit w :
  db (snd (get_leaderboard limit w)) = db w.
Proof.
  unfold get_leaderboard.
  destruct (execute_query_db (SelectLeaderboard limit) false true
              (log_call (CallGetLeaderboard limit) w))
    as [E|[now [rows Hrun]]];
    destruct (execute_query (SelectLeaderboard limit) false true
                (log_call (CallGetLeaderboard limit) w)) as [r w1];
    cbn [fst snd] in *; [exact E|].
  cbn in Hrun. destruct (limit <? 0); [discriminate|].
  injection Hrun as Hd _. symmetry. exact Hd.
Qed.

Lemma get_leaderboard_rng limit w :
  rng (snd (get_leaderboard limit w)) = rng w.
Proof.
  unfold get_leaderboard.
  destruct (execute_query_frame (SelectLeaderboard limit) false true
              (log_call (CallGetLeaderboard limit) w)) as [_ [Hr _]].
  destruct (execute_query (SelectLeaderboard limit) false true
              (log_call (CallGetLeaderboard limit) w)) as [r w1].
  exact Hr.
Qed.

(** X16.  A POST to [index] whose name is empty or blank starts nothing:
    the login page is returned with the message "Please enter your
    name.", the session is as before, no question is drawn, and the only
    player-store call made is the leaderboard read, which leaves the table
    as it was. *)
Theorem index_rejects_blank_name
  (request : Request) (session : Session) (w : World) :
  method request = POST ->
  strip (form_get "name" "" (form request)) = "" ->
  exists leaderboard w',
    index request session w
    = (Ok (RenderLogin leaderboard (Some "Please enter your name."),
           session), w')
    /\ calls w' = calls w ++ [CallGetLeaderboard 3]
    /\ rng w' = rng w
    /\ db w' = db w.
Proof.
  intros Hm Hname. unfold index.
  pose proof (get_leaderboard_db 3 w) as Hdb.
  pose proof (get_leaderboard_rng 3 w) as Hrng.
  destruct (get_leaderboard_ok 3 w) as [v1 [w1 [E1 C1]]].
  rewrite E1 in Hdb, Hrng. cbn [snd] in Hdb, Hrng.
  unfold bind at 1. rewrite E1. cbv zeta. rewrite Hm, Hname. cbn.
  unfold ret. eauto 10.
Qed.

(** X17.  A POST to [index] with a name starts a fresh game whatever the
    session held before: the stripped name, running score 0, index 0, no
    feedback, final score 0 and ten well-formed questions; the caller is
    redirected to the game; the player store is called exactly twice, for
    the leaderboard and for [create_player] with that name, and no score
    is committed for a game that was under way. *)
Theorem index_starts_fresh_game
  (request : Request) (session : Session) (w : World) :
  method request = POST ->
  strip (form_get "name" "" (form request)) <> "" ->
  exists qs w1,
    index request session w
    = (Ok (Redirect "game",
           mkSession (Some (strip (form_get "name" "" (form request))))
                     (Some 0) (Some qs) (Some 0) None (Some 0)), w1)
    /\ len qs = 10
    /\ Forall question_ok qs
    /\ calls w1
       = calls w
         ++ [CallGetLeaderboard 3;
             CallCreatePlayer (strip (form_get "name" "" (form request)))].
Proof.
  intros Hm Hname. unfold index.
  destruct (get_leaderboard_ok 3 w) as [v1 [w1 [E1 C1]]].
  unfold bind at 1. rewrite E1. cbv zeta. rewrite Hm.
  apply String.eqb_neq in Hname. rewrite Hname.
  destruct (generate_loop_ok (Z.to_nat 10) [] w1 (Forall_nil _))
    as [qs [Hqs [Hlen [Hall Hsame]]]].
  unfold bind at 1. unfold generate_questions.
  destruct (generate_loop (Z.to_nat 10) [] w1) as [o w2].
  cbn [fst snd] in *. subst o.
  destruct (create_player_ok (strip (form_get "name" "" (form request))) w2)
    as [w3 [E3 C3]].
  unfold bind at 1. rewrite E3. unfold ret.
  exists qs, w3. split; [reflexivity|]. split.
  - unfold len. rewrite Hlen. reflexivity.
  - split; [exact Hall|].
    rewrite C3. unfold same_but_rng in Hsame. rewrite Hsame. cbn.
    rewrite C1, <- app_assoc. reflexivity.
Qed.

Lemma game_get_in_progress request s w name q :
  method request = GET ->
  s_name s = Some name ->
  the_questions s <> [] ->
  0 <= the_index s < len (the_questions s) ->
  nth_error (the_questions s) (Z.to_nat (the_index s)) = Some q ->
  exists total_score leaderboard w',
    game request s w
    = (Ok (RenderGame q (the_index s + 1) (len (the_questions s))
                      (s_feedback s) total_score leaderboard, s), w')
    /\ commits (calls w') = commits (calls w).
Proof.
  intros Hm Hname Hqs Hi Hq. unfold game. rewrite Hname.
  destruct (get_player_score_ok name w) as [v1 [w1 [E1 C1]]].
  unfold bind at 1. rewrite E1.
  destruct (get_leaderboard_ok 3 w1) as [v2 [w2 [E2 C2]]].
  unfold bind at 1. rewrite E2. cbv zeta.
  fold (the_questions s). fold (the_index s).
  rewrite Hm. cbn [is_post andb]. unfold show_page.
  rewrite (nonempty_true _ Hqs). cbn [negb orb].
  replace (the_index s >=? len (the_questions s)) with false
    by (symmetry; rewrite Z.geb_leb; apply Z.leb_gt; lia).
  destruct (list_getitem_nth _ _ Hi) as [q' [Hget Hnth]].
  assert (q' = q) by congruence. subst q'.
  unfold bind, lift, ret. rewrite Hget.
  eexists. eexists. eexists. split; [reflexivity|].
  rewrite C2, C1, !commits_app. cbn. rewrite !app_nil_r. reflexivity.
Qed.

(** X18.  A GET of [game] on a game in progress shows the question at the
    current index with progress index + 1 out of the number of questions
    and the stored feedback; it changes nothing in the session and
    commits no score, so reloading the page neither skips nor re-grades a
    question. *)
Theorem game_get_shows_current_question
  (request : Request) (session : Session) (w : World) :
  method request = GET ->
  in_progress session ->
  exists q total_score leaderboard w',
    nth_error (the_questions session) (Z.to_nat (the_index session)) = Some q
    /\ game request session w
       = (Ok (RenderGame q (the_index session + 1)
                         (len (the_questions session))
                         (s_feedback session) total_score leaderboard,
              session), w')
    /\ commits (calls w') = commits (calls w).
Proof.
  intros Hm [Hname [Hqs Hi]].
  destruct (s_name session) as [name|] eqn:En; [|congruence].
  destruct (list_getitem_nth _ _ Hi) as [q [_ Hq]].
  destruct (game_get_in_progress request session w name q Hm En Hqs Hi Hq)
    as [ts [lb [w' [Hg Hc]]]].
  exists q, ts, lb, w'. auto.
Qed.

(** The three things [game] can do to a session that satisfies the
    bounds: leave it alone, grade an answer, or grade the last answer and
    close the game with one commit. *)
Lemma game_cases request s w :
  session_inv s ->
  exists resp s' w',
    game request s w = (Ok (resp, s'), w')
    /\ ((s' = s /\ commits (calls w') = commits (calls w))
        \/ (exists name q,
              s_name s = Some name
              /\ nth_error (the_questions s) (Z.to_nat (the_index s))
                 = Some q
              /\ the_index s + 1 < len (the_questions s)
              /\ s' = graded request q s
              /\ commits (calls w') = commits (calls w))
        \/ (exists name q,
              s_name s = Some name
              /\ nth_error (the_questions s) (Z.to_nat (the_index s))
                 = Some q
              /\ the_index s + 1 = len (the_questions s)
              /\ s' = completed (graded request q s)
              /\ commits (calls w')
                 = commits (calls w)
                   ++ [(name, the_score (graded request q s))])).
Proof.
  intros [Hs [Hi Hq]].
  destruct (the_questions s) as [|q0 qs0] eqn:Hqs.
  { destruct (game_when_no_questions request s w Hqs)
      as [resp [w' [Hg [Hc _]]]].
    exists resp, s, w'. auto. }
  assert (Hne : the_questions s <> []) by (rewrite Hqs; discriminate).
  rewrite <- Hqs in *. specialize (Hq Hne).
  assert (Hrange : 0 <= the_index s < len (the_questions s)) by lia.
  destruct (list_getitem_nth _ _ Hrange) as [q [_ Hnth]].
  destruct (s_name s) as [name|] eqn:Hname.
  2:{ exists (Redirect "index"), s, w. unfold game. rewrite Hname.
      unfold ret. auto. }
  destruct (method request) eqn:Hm.
  - destruct (game_get_in_progress request s w name q Hm Hname Hne Hrange
                Hnth) as [ts [lb [w' [Hg Hc]]]].
    eexists. exists s, w'. split; [exact Hg | auto].
  - destruct (game_post_in_progress request s w name q Hm Hname Hne Hrange
                Hnth) as [resp [w' [Hg Hc]]].
    destruct (the_index s + 1 <? len (the_questions s)) eqn:Elt.
    + apply Z.ltb_lt in Elt. rewrite app_nil_r in Hc.
      exists resp, (graded request q s), w'. split; [exact Hg|].
      right. left. exists name, q. auto 10.
    + apply Z.ltb_ge in Elt.
      exists resp, (completed (graded request q s)), w'.
      split; [exact Hg|]. right. right. exists name, q.
      repeat split; auto. lia.
Qed.

Lemma index_returns request s w :
  exists resp s' w', index request s w = (Ok (resp, s'), w').
Proof.
  unfold index.
  destruct (get_leaderboard_ok 3 w) as [v1 [w1 [E1 _]]].
  unfold bind at 1. rewrite E1. cbv zeta.
  destruct (method request).
  - destruct (s_name s) as [name|];
      [destruct (negb (String.eqb name ""))|]; unfold ret; eauto.
  - destruct (String.eqb (strip (form_get "name" "" (form request))) "").
    + unfold ret. eauto.
    + destruct (generate_loop_ok (Z.to_nat 10) [] w1 (Forall_nil _))
        as [qs [Hqs _]].
      unfold bind at 1. unfold generate_questions.
      destruct (generate_loop (Z.to_nat 10) [] w1) as [o w2].
      cbn [fst snd] in *. subst o.
      destruct (create_player_ok
                  (strip (form_get "name" "" (form request))) w2)
        as [w3 [E3 _]].
      unfold bind at 1. rewrite E3. unfold ret. eauto.
Qed.

Lemma reachable_session_inv s : reachable s -> session_inv s.
Proof.
  induction 1 as [|s0 s1 _ IH Hstep].
  - apply session_inv_empty.
  - eapply session_inv_step; eassumption.
Qed.

(** Answering questions keeps a session among those a browser can hold. *)
Lemma play_reachable answers : forall s w s' w',
  reachable s -> play answers s w = (Ok s', w') -> reachable s'.
Proof.
  induction answers as [|a rest IH]; intros s w s' w' Hr Hp; cbn in Hp.
  - injection Hp as Hs _. subst s'. exact Hr.
  - destruct (game (post_answer a) s w) as [[[resp s1]|e] w1] eqn:Eg;
      [|discriminate].
    apply (IH s1 w1 s' w'); [|exact Hp].
    apply (reach_step s); [exact Hr|].
    exact (step_game s s1 (post_answer a) w resp w1 Eg).
Qed.

(** X19.  No request raises on a session a browser can hold: for every
    reachable session, every request and every state of the process,
    [index] and [game] return a response; in particular
    [questions[current_index]] is never out of range. *)
Theorem handlers_never_raise
  (request : Request) (session : Session) (w : World) :
  reachable session ->
  (exists resp s' w', index request session w = (Ok (resp, s'), w'))
  /\ (exists resp s' w', game request session w = (Ok (resp, s'), w')).
Proof.
  intros Hreach. split; [apply index_returns|].
  destruct (game_cases request session w (reachable_session_inv _ Hreach))
    as [resp [s' [w' [Hg _]]]].
  eauto.
Qed.

(* ------------------------------------------------------------------ *)
(** ** The shape of a session and of its commits *)

Lemma session_shape_empty : session_shape empty_session.
Proof.
  unfold session_shape. cbn. repeat split; auto; lia.
Qed.

Lemma session_shape_step s s' :
  session_inv s -> session_shape s -> session_step s s' -> session_shape s'.
Proof.
  intros Hinv Hshape [request w resp w' E|request w resp w' E|w resp w' E].
  - revert E. unfold index.
    destruct (get_leaderboard_ok 3 w) as [v1 [w1 [E1 _]]].
    unfold bind at 1. rewrite E1. cbv zeta.
    destruct (method request).
    + destruct (s_name s) as [name|];
        [destruct (negb (String.eqb name ""))|];
        unfold ret; intros E; inversion E; subst; exact Hshape.
    + destruct (String.eqb (strip (form_get "name" "" (form request))) "").
      * unfold ret. intros E. inversion E. subst. exact Hshape.
      * destruct (generate_loop_ok (Z.to_nat 10) [] w1 (Forall_nil _))
          as [qs [Hqs [Hlen [Hall _]]]].
        unfold bind at 1. unfold generate_questions.
        destruct (generate_loop (Z.to_nat 10) [] w1) as [o w2].
        cbn [fst snd] in *. subst o.
        destruct (create_player_ok
                    (strip (form_get "name" "" (form request))) w2)
          as [w3 [E3 _]].
        unfold bind at 1. rewrite E3. unfold ret.
        intros E. inversion E. subst.
        unfold session_shape, the_questions, len. cbn.
        rewrite Hlen. cbn. repeat split; auto; lia.
  - destruct (game_cases request s w Hinv)
      as [resp1 [s1 [w1 [Hg Hcases]]]].
    rewrite Hg in E. inversion E. subst. clear E.
    destruct Hshape as [Hlen [Hall Hfin]].
    destruct Hcases as [[-> _]|[[name [q [_ [_ [_ [-> _]]]]]]
                               |[name [q [_ [Hq [Hlast [-> _]]]]]]]].
    + unfold session_shape. auto.
    + unfold session_shape, the_questions in *.
      rewrite the_questions_graded.
      assert (Hf : s_final_score (graded request q s) = s_final_score s)
        by (unfold graded; destruct (is_correct request q); reflexivity).
      rewrite Hf. auto.
    + unfold session_shape. cbn [the_questions completed s_questions
        s_final_score set_current_index set_questions set_session_score
        set_final_score session_get].
      split; [left; reflexivity|]. split; [constructor|].
      change (session_get (s_session_score (graded request q s)) 0)
        with (the_score (graded request q s)).
      rewrite the_score_graded.
      destruct Hinv as [Hs [Hi _]].
      assert (Hten : len (the_questions s) = 10).
      { destruct Hlen as [Hnil|Hten]; [|exact Hten].
        rewrite Hnil in Hq. destruct (Z.to_nat (the_index s)); discriminate. }
      destruct (is_correct request q); lia.
  - unfold logout, ret in E. inversion E. apply session_shape_empty.
Qed.

Lemma reachable_session_shape s : reachable s -> session_shape s.
Proof.
  induction 1 as [|s0 s1 Hr IH Hstep].
  - apply session_shape_empty.
  - eapply session_shape_step; eauto using reachable_session_inv.
Qed.

(** X20.  Every session a browser can hold has either no question or
    exactly ten, each of them well formed (operands in 0..999, the answer
    their sum or their non-negative difference), and a final score
    between 0 and 10. *)
Theorem reachable_sessions_have_ten_questions (s : Session) :
  reachable s ->
  (the_questions s = [] \/ len (the_questions s) = 10)
  /\ Forall question_ok (the_questions s)
  /\ 0 <= session_get (s_final_score s) 0 <= 10.
Proof. apply reachable_session_shape. Qed.

(** X21.  A [game] request on a reachable session commits at most once,
    and only for the session's own player: either no score is committed,
    or exactly one is, under the name stored in the session, with a delta
    between 0 and 10 that is also the final score stored in the session
    and that closes the game. *)
Theorem game_commits_at_most_once
  (request : Request) (session : Session) (w : World) :
  reachable session ->
  exists resp s' w',
    game request session w = (Ok (resp, s'), w')
    /\ (commits (calls w') = commits (calls w)
        \/ exists name delta,
             commits (calls w') = commits (calls w) ++ [(name, delta)]
             /\ s_name session = Some name
             /\ 0 <= delta <= 10
             /\ s_final_score s' = Some delta
             /\ s_questions s' = Some []).
Proof.
  intros Hreach.
  pose proof (reachable_session_inv _ Hreach) as Hinv.
  pose proof (reachable_session_shape _ Hreach) as [Hlen _].
  destruct (game_cases request session w Hinv)
    as [resp [s' [w' [Hg Hcases]]]].
  exists resp, s', w'. split; [exact Hg|].
  destruct Hcases as [[_ Hc]|[[name [q [_ [_ [_ [_ Hc]]]]]]
                             |[name [q [Hname [Hq [Hlast [-> Hc]]]]]]]];
    auto.
  right. exists name, (the_score (graded request q session)).
  split; [exact Hc|]. split; [exact Hname|].
  split; [|split; reflexivity].
  rewrite the_score_graded. destruct Hinv as [Hs [Hi _]].
  assert (Hten : len (the_questions session) = 10).
  { destruct Hlen as [Hnil|Hten]; [|exact Hten].
    rewrite Hnil in Hq.
    destruct (Z.to_nat (the_index session)); discriminate. }
  destruct (is_correct request q); lia.
Qed.

(* ------------------------------------------------------------------ *)
(** * A whole game against a working database *)

Lemma fault_free_next w : fault_free w = true -> next_fault w = NoFault.
Proof.
  unfold fault_free, next_fault. destruct (faults w) as [|f fs];
    [reflexivity|].
  cbn. destruct f; cbn; intros; try discriminate; reflexivity.
Qed.

Lemma healthy_ready w : healthy w = true -> gateway_ready w = true.
Proof.
  unfold healthy, gateway_ready, fault_fires. intros Hh.
  apply andb_true_iff in Hh. destruct Hh as [Hh Hf].
  rewrite Hh, (fault_free_next w Hf). reflexivity.
Qed.

Lemma healthy_after w w' :
  healthy w = true ->
  url_set w' = true -> no_conn_out w' = true ->
  faults w' = tl (faults w) ->
  healthy w' = true.
Proof.
  unfold healthy, fault_free. intros Hh Hu Ho Hf.
  apply andb_true_iff in Hh. destruct Hh as [_ Hff].
  rewrite Hu, Ho, Hf. cbn. destruct (faults w) as [|f fs]; [reflexivity|].
  cbn in Hff. apply andb_true_iff in Hff. apply Hff.
Qed.

Lemma get_player_score_healthy name w :
  healthy w = true ->
  fst (get_player_score name w)
  = Ok (match stored_score name (db w) with
        | Some z => PInt z
        | None => PNone
        end)
  /\ db (snd (get_player_score name w)) = db w
  /\ clock (snd (get_player_score name w)) = clock w + 1
  /\ healthy (snd (get_player_score name w)) = true.
Proof.
  intros Hh.
  destruct (get_player_score_goes_through name w (healthy_ready w Hh))
    as [R1 [R2 [R3 [R4 [R5 R6]]]]].
  repeat split; auto. eapply healthy_after; eassumption.
Qed.

Lemma get_leaderboard_healthy limit w :
  healthy w = true ->
  0 <= limit ->
  db (snd (get_leaderboard limit w)) = db w
  /\ clock (snd (get_leaderboard limit w)) = clock w + 1
  /\ healthy (snd (get_leaderboard limit w)) = true.
Proof.
  intros Hh Hl. unfold get_leaderboard.
  assert (Hrun : run_statement (SelectLeaderboard limit) (clock w + 1) (db w)
                 = Some (db w,
                         map (fun p => PTuple [PStr (p_name p);
                                               PInt (p_total_score p)])
                             (firstn (Z.to_nat limit)
                                (order_by leaderboard_le (players (db w)))))).
  { cbn [run_statement].
    destruct (limit <? 0) eqn:E; [apply Z.ltb_lt in E; lia | reflexivity]. }
  destruct (execute_query_ok (SelectLeaderboard limit) false true
              (log_call (CallGetLeaderboard limit) w) _ _
              (healthy_ready w Hh) Hrun eq_refl)
    as [_ [R2 [_ [R4 [R5 [R6 R7]]]]]].
  destruct (execute_query (SelectLeaderboard limit) false true
              (log_call (CallGetLeaderboard limit) w)) as [rows w1].
  cbn [fst snd] in *. repeat split; auto.
  apply (healthy_after w w1); auto.
Qed.

Lemma create_player_healthy name w :
  healthy w = true ->
  int4_range (next_id (db w)) = true ->
  players (db (snd (create_player name w)))
  = (if existsb (has_name name) (players (db w)) then players (db w)
     else players (db w) ++ [mkPlayer (next_id (db w)) name 0 (clock w + 1)])
  /\ clock (snd (create_player name w)) = clock w + 1
  /\ healthy (snd (create_player name w)) = true.
Proof.
  intros Hh Hr.
  destruct (create_player_goes_through name w (healthy_ready w Hh) Hr)
    as [R1 [_ [R3 [R4 [R5 R6]]]]].
  repeat split; auto. eapply healthy_after; eassumption.
Qed.

Lemma prune_players_healthy m w :
  healthy w = true ->
  0 <= m ->
  players (db (snd (prune_players m w)))
  = filter (id_in (recent_ids m (players (db w)))) (players (db w))
  /\ clock (snd (prune_players m w)) = clock w + 1
  /\ healthy (snd (prune_players m w)) = true.
Proof.
  intros Hh Hm. unfold prune_players.
  assert (Hrun : run_statement (DeleteStale m) (clock w + 1) (db w)
                 = Some (mkDatabase
                           (filter (id_in (recent_ids m (players (db w))))
                                   (players (db w)))
                           (next_id (db w)), [])).
  { cbn [run_statement].
    destruct (m <? 0) eqn:E; [apply Z.ltb_lt in E; lia | reflexivity]. }
  destruct (execute_query_ok (DeleteStale m) false false
              (log_call (CallPrunePlayers m) w) _ _
              (healthy_ready w Hh) Hrun eq_refl)
    as [_ [R2 [_ [R4 [R5 [R6 R7]]]]]].
  destruct (execute_query (DeleteStale m) false false
              (log_call (CallPrunePlayers m) w)) as [r w1].
  cbn [fst snd] in *. rewrite R2. cbn. repeat split; auto.
  apply (healthy_after w w1); auto.
Qed.

Lemma update_player_score_healthy name pts w id score played :
  healthy w = true ->
  filter (has_name name) (players (db w)) = [mkPlayer id name score played] ->
  int4_range (score + pts) = true ->
  players (db (snd (update_player_score name pts w)))
  = map (add_points pts name (clock w + 1)) (players (db w))
  /\ clock (snd (update_player_score name pts w)) = clock w + 1
  /\ healthy (snd (update_player_score name pts w)) = true.
Proof.
  intros Hh Hrow Hr. unfold update_player_score.
  assert (Hrun : run_statement (UpdateScore pts name) (clock w + 1) (db w)
                 = Some (mkDatabase
                           (map (add_points pts name (clock w + 1))
                                (players (db w)))
                           (next_id (db w)), [])).
  { cbn [run_statement].
    assert (Hex : existsb
                    (fun p => has_name name p
                              && negb (int4_range (p_total_score p + pts)))
                    (players (db w)) = false).
    { apply not_true_is_false. intros Hex. apply existsb_exists in Hex.
      destruct Hex as [p [Hin Hp]]. apply andb_true_iff in Hp.
      destruct Hp as [Hn Hrg].
      assert (Hin' : In p (filter (has_name name) (players (db w))))
        by (apply filter_In; auto).
      rewrite Hrow in Hin'. destruct Hin' as [<-|[]]. cbn in Hrg.
      rewrite Hr in Hrg. discriminate. }
    rewrite Hex. reflexivity. }
  destruct (execute_query_ok (UpdateScore pts name) false false
              (log_call (CallUpdatePlayerScore name pts) w) _ _
              (healthy_ready w Hh) Hrun eq_refl)
    as [_ [R2 [_ [R4 [R5 [R6 R7]]]]]].
  destruct (execute_query (UpdateScore pts name) false false
              (log_call (CallUpdatePlayerScore name pts) w)) as [r w1].
  cbn [fst snd] in *. rewrite R2. cbn. repeat split; auto.
  apply (healthy_after w w1); auto.
Qed.

(** With unique names a point lookup meets at most one row. *)
Lemma named_row_unique name l :
  NoDup (map p_name l) ->
  filter (has_name name) l = []
  \/ exists id score played,
       filter (has_name name) l = [mkPlayer id name score played].
Proof.
  induction l as [|a l IH]; intros Hnd; [left; reflexivity|].
  cbn in Hnd. inversion Hnd as [|b l' Hnotin Hnd']; subst.
  cbn [filter]. destruct (has_name name a) eqn:Ea.
  - right. unfold has_name in Ea. apply String.eqb_eq in Ea.
    destruct (filter (has_name name) l) as [|q rest] eqn:Ef.
    + destruct a as [id n sc pl]. cbn in Ea. subst n. eauto.
    + exfalso. apply Hnotin.
      assert (Hq : In q (filter (has_name name) l))
        by (rewrite Ef; left; reflexivity).
      apply filter_In in Hq. destruct Hq as [Hq Hn].
      unfold has_name in Hn. apply String.eqb_eq in Hn.
      rewrite Ea, <- Hn. apply in_map. exact Hq.
  - apply IH. exact Hnd'.
Qed.

Lemma stored_score_row name d z :
  NoDup (map p_name (players d)) ->
  stored_score name d = Some z ->
  exists id played,
    filter (has_name name) (players d) = [mkPlayer id name z played].
Proof.
  intros Hnd Hs. unfold stored_score in Hs.
  destruct (named_row_unique name (players d) Hnd)
    as [E|[id [score [played E]]]]; rewrite E in Hs; [discriminate|].
  cbn in Hs. inversion Hs. subst. eauto.
Qed.

(** The row that is strictly the most recent comes first in the order of
    last_played descending. *)
Lemma most_recent_row_first r l :
  In r l ->
  (forall x, In x l -> x = r \/ p_last_played x < p_last_played r) ->
  exists rest, order_by recent_le l = r :: rest.
Proof.
  intros Hin Hmax.
  pose proof (order_by_perm recent_le l) as Hperm.
  pose proof (order_by_recent_sorted l) as Hsorted.
  assert (Hr : In r (order_by recent_le l))
    by (apply (Permutation_in _ (Permutation_sym Hperm)); exact Hin).
  destruct (order_by recent_le l) as [|h t]; [destruct Hr|].
  exists t. f_equal.
  assert (Hh : In h l) by (apply (Permutation_in _ Hperm); left; reflexivity).
  destruct (Hmax h Hh) as [E|Hlt]; [exact E|].
  destruct Hr as [E|Hr]; [exact E|].
  inversion Hsorted as [|h' t' _ Hall]; subst.
  rewrite Forall_forall in Hall. specialize (Hall r Hr).
  unfold more_recent in Hall. lia.
Qed.

Lemma filter_filter_comm {A : Type} (f g : A -> bool) l :
  filter f (filter g l) = filter g (filter f l).
Proof.
  induction l as [|a l IH]; [reflexivity|]. cbn.
  destruct (g a) eqn:Eg, (f a) eqn:Ef; cbn; rewrite ?Eg, ?Ef, IH;
    reflexivity.
Qed.

(** Committing a score and pruning right after: the player just credited
    is the most recently played, so the prune keeps the row. *)
Lemma update_then_prune_keeps_row name pts now rows id score played m :
  filter (has_name name) rows = [mkPlayer id name score played] ->
  Forall (fun p => p_last_played p < now) rows ->
  0 < m ->
  let updated := map (add_points pts name now) rows in
  filter (has_name name) (filter (id_in (recent_ids m updated)) updated)
  = [mkPlayer id name (score + pts) now].
Proof.
  intros Hrow Hpast Hm. cbv zeta.
  set (r := mkPlayer id name (score + pts) now).
  set (updated := map (add_points pts name now) rows).
  assert (Hnamed : filter (has_name name) updated = [r]).
  { unfold updated. rewrite filter_named_add_points, Hrow. cbn.
    unfold add_points, has_name. cbn. rewrite String.eqb_refl. reflexivity. }
  assert (Hin : In r updated).
  { assert (Hin' : In r (filter (has_name name) updated))
      by (rewrite Hnamed; left; reflexivity).
    apply filter_In in Hin'. apply Hin'. }
  assert (Hmax : forall x, In x updated ->
                           x = r \/ p_last_played x < p_last_played r).
  { intros x Hx. destruct (has_name name x) eqn:En.
    - left. assert (Hx' : In x (filter (has_name name) updated))
        by (apply filter_In; auto).
      rewrite Hnamed in Hx'. destruct Hx' as [E|[]]. symmetry. exact E.
    - right. unfold updated in Hx. apply in_map_iff in Hx.
      destruct Hx as [y [Hy Hyin]]. rewrite Forall_forall in Hpast.
      specialize (Hpast y Hyin). subst x.
      rewrite has_name_add_points in En. unfold add_points. rewrite En.
      cbn. exact Hpast. }
  destruct (most_recent_row_first r updated Hin Hmax) as [rest Hhead].
  assert (Hkeep : id_in (recent_ids m updated) r = true).
  { apply id_in_spec. unfold recent_ids. rewrite Hhead.
    destruct (Z.to_nat m) eqn:Em; [lia|]. cbn. left. reflexivity. }
  rewrite filter_filter_comm, Hnamed. cbn. rewrite Hkeep. reflexivity.
Qed.

Lemma handlers_table_ok request s w :
  table_ok (db w) ->
  table_ok (db (snd (index request s w)))
  /\ table_ok (db (snd (game request s w))).
Proof.
  intros Hok.
  set (R := fun w w' : World => table_ok (db w) -> table_ok (db w')).
  assert (Hrefl : forall w, R w w) by (intros w0 Hw; exact Hw).
  assert (Htrans : forall x y z, R x y -> R y z -> R x z)
    by (intros x y z Hxy Hyz Hx; auto).
  assert (Hexec : forall query fetchone fetchall w0,
             R w0 (snd (execute_query query fetchone fetchall w0)))
    by (intros; intro; apply execute_query_table_ok; assumption).
  assert (Hlog : forall c w0, R w0 (log_call c w0))
    by (intros c w0 Hw; exact Hw).
  assert (Hrng : forall g w0, R w0 (set_rng g w0))
    by (intros g w0 Hw; exact Hw).
  destruct (handlers_respect R request s w Hrefl Htrans Hexec Hlog Hrng)
    as [Hi Hg].
  split; [apply Hi | apply Hg]; exact Hok.
Qed.

(** A POST that is not the last answer, against a working database:
    two reads, nothing written. *)
Lemma game_world_nonfinal request s w name :
  method request = POST ->
  s_name s = Some name ->
  the_questions s <> [] ->
  0 <= the_index s ->
  the_index s + 1 < len (the_questions s) ->
  healthy w = true ->
  db (snd (game request s w)) = db w
  /\ clock (snd (game request s w)) = clock w + 2
  /\ healthy (snd (game request s w)) = true.
Proof.
  intros Hm Hname Hqs Hi0 Hi Hh.
  assert (Hrange : 0 <= the_index s < len (the_questions s)) by lia.
  destruct (list_getitem_nth _ _ Hrange) as [q [_ Hq]].
  assert (Eg : exists r w2,
             game request s w = (r, w2)
             /\ db w2 = db w /\ clock w2 = clock w + 2
             /\ healthy w2 = true).
  { unfold game. rewrite Hname. unfold bind at 1.
    destruct (get_player_score_healthy name w Hh) as [A1 [A2 [A3 A4]]].
    destruct (get_player_score name w) as [o1 w1]. cbn [fst snd] in *.
    subst o1.
    destruct (get_leaderboard_healthy 3 w1 A4) as [B2 [B3 B4]]; [lia|].
    destruct (get_leaderboard_ok 3 w1) as [v2 [w2 [E2 _]]].
    rewrite E2 in B2, B3, B4. cbn [snd] in B2, B3, B4.
    unfold bind at 1. rewrite E2. cbv zeta.
    fold (the_questions s). fold (the_index s).
    rewrite Hm, (nonempty_true _ Hqs). cbn [is_post andb].
    unfold bind at 1, lift.
    rewrite (evaluate_answer_graded request s q Hrange Hq).
    replace (the_index s + 1 >=? len (the_questions s)) with false
      by (symmetry; rewrite Z.geb_leb; apply Z.leb_gt; lia).
    unfold show_page. rewrite (nonempty_true _ Hqs). cbn [negb orb].
    replace (the_index s + 1 >=? len (the_questions s)) with false
      by (symmetry; rewrite Z.geb_leb; apply Z.leb_gt; lia).
    destruct (list_getitem_nth (the_questions s) (the_index s + 1))
      as [q2 [Hget2 _]]; [lia|].
    unfold bind, lift, ret. rewrite Hget2.
    eexists. exists w2. split; [reflexivity|].
    repeat split; [congruence | lia | exact B4]. }
  destruct Eg as [r [w2 [Eg Hfacts]]]. rewrite Eg. exact Hfacts.
Qed.

(** The POST of the last answer, against a working database: the score
    is added to the player's row, the row survives the prune, and the
    page shows the final score and the new total. *)
Lemma game_world_final request s w name q z :
  method request = POST ->
  s_name s = Some name ->
  the_questions s <> [] ->
  0 <= the_index s ->
  the_index s + 1 = len (the_questions s) ->
  nth_error (the_questions s) (Z.to_nat (the_index s)) = Some q ->
  healthy w = true ->
  table_ok (db w) ->
  stamps_in_past w ->
  stored_score name (db w) = Some z ->
  int4_range (z + the_score (graded request q s)) = true ->
  (exists leaderboard,
     fst (game request s w)
     = Ok (RenderGameOver (the_score (graded request q s))
                          (PInt (z + the_score (graded request q s)))
                          leaderboard,
           completed (graded request q s)))
  /\ stored_score name (db (snd (game request s w)))
     = Some (z + the_score (graded request q s))
  /\ healthy (snd (game request s w)) = true
  /\ stamps_in_past (snd (game request s w)).
Proof.
  intros Hm Hname Hqs Hi0 Hlast Hq Hh Hok Hpast Hz Hr.
  assert (Hrange : 0 <= the_index s < len (the_questions s)) by lia.
  destruct Hok as [_ [Hnames _]].
  destruct (stored_score_row name (db w) z Hnames Hz) as [id [played Hrow]].
  set (d := the_score (graded request q s)) in *.
  assert (Eg : exists leaderboard w6,
             game request s w
             = (Ok (RenderGameOver d (PInt (z + d)) leaderboard,
                    completed (graded request q s)), w6)
             /\ stored_score name (db w6) = Some (z + d)
             /\ healthy w6 = true
             /\ stamps_in_past w6).
  { unfold game. rewrite Hname. unfold bind at 1.
    destruct (get_player_score_healthy name w Hh) as [A1 [A2 [A3 A4]]].
    destruct (get_player_score name w) as [o1 w1]. cbn [fst snd] in *.
    subst o1.
    destruct (get_leaderboard_healthy 3 w1 A4) as [B2 [B3 B4]]; [lia|].
    destruct (get_leaderboard_ok 3 w1) as [v2 [w2 [E2 _]]].
    rewrite E2 in B2, B3, B4. cbn [snd] in B2, B3, B4.
    unfold bind at 1. rewrite E2. cbv zeta.
    fold (the_questions s). fold (the_index s).
    rewrite Hm, (nonempty_true _ Hqs). cbn [is_post andb].
    unfold bind at 1, lift.
    rewrite (evaluate_answer_graded request s q Hrange Hq).
    replace (the_index s + 1 >=? len (the_questions s)) with true
      by (symmetry; rewrite Z.geb_leb; apply Z.leb_le; lia).
    unfold finish_game. fold (the_score (graded request q s)). fold d.
    assert (Hrow2 : filter (has_name name) (players (db w2))
                    = [mkPlayer id name z played])
      by (rewrite B2, A2; exact Hrow).
    destruct (update_player_score_healthy name d w2 id z played B4 Hrow2 Hr)
      as [C1 [C3 C4]].
    destruct (update_player_score_called name d w2) as [w3 [E3 _]].
    rewrite E3 in C1, C3, C4. cbn [snd] in C1, C3, C4.
    unfold bind at 1. rewrite E3.
    destruct (prune_players_healthy 100 w3 C4) as [D1 [D3 D4]]; [lia|].
    destruct (prune_players_ok 100 w3) as [w4 [E4 _]].
    rewrite E4 in D1, D3, D4. cbn [snd] in D1, D3, D4.
    unfold bind at 1. rewrite E4.
    assert (Hnow : Forall (fun p => p_last_played p < clock w2 + 1)
                          (players (db w2))).
    { rewrite B2, A2. eapply Forall_impl; [|exact Hpast]. cbn.
      intros p Hp. lia. }
    assert (Hkept : filter (has_name name) (players (db w4))
                    = [mkPlayer id name (z + d) (clock w2 + 1)]).
    { rewrite D1, C1.
      apply (update_then_prune_keeps_row name d (clock w2 + 1)
               (players (db w2)) id z played 100 Hrow2 Hnow). lia. }
    assert (Hstored : stored_score name (db w4) = Some (z + d))
      by (unfold stored_score; rewrite Hkept; reflexivity).
    unfold bind at 1.
    destruct (get_player_score_healthy name w4 D4) as [F1 [F2 [F3 F4]]].
    destruct (get_player_score name w4) as [o5 w5]. cbn [fst snd] in *.
    subst o5. rewrite Hstored.
    destruct (get_leaderboard_healthy 3 w5 F4) as [G2 [G3 G4]]; [lia|].
    destruct (get_leaderboard_ok 3 w5) as [v6 [w6 [E6 _]]].
    rewrite E6 in G2, G3, G4. cbn [snd] in G2, G3, G4.
    unfold bind at 1. rewrite E6. unfold ret.
    exists (py_or v6 (PList [])), w6. split; [|split; [|split]].
    - f_equal. f_equal. f_equal.
      unfold py_or, truthy. destruct (z + d =? 0) eqn:E0; cbn [negb];
        [apply Z.eqb_eq in E0; rewrite E0|]; reflexivity.
    - unfold stored_score in *. rewrite G2, F2. exact Hstored.
    - exact G4.
    - unfold stamps_in_past. rewrite G2, F2, D1, C1.
      apply Forall_forall. intros p Hp. apply filter_In in Hp.
      destruct Hp as [Hp _]. apply in_map_iff in Hp.
      destruct Hp as [p0 [Hp0 Hin0]]. subst p. unfold add_points.
      destruct (has_name name p0); cbn; [lia|].
      rewrite Forall_forall in Hnow. specialize (Hnow p0 Hin0). lia. }
  destruct Eg as [lb [w6 [Eg [S1 [S2 S3]]]]]. rewrite Eg. cbn [fst snd].
  split; [exists lb; reflexivity|]. auto.
Qed.

Lemma stored_score_in_range name d z :
  table_ok d -> stored_score name d = Some z -> int4_range z = true.
Proof.
  intros [_ [_ Hall]] Hs. unfold stored_score in Hs.
  destruct (filter (has_name name) (players d)) as [|p l] eqn:Ef;
    [discriminate|].
  inversion Hs. subst.
  assert (Hin : In p (filter (has_name name) (players d)))
    by (rewrite Ef; left; reflexivity).
  apply filter_In in Hin. rewrite Forall_forall in Hall.
  apply (Hall p). apply Hin.
Qed.

(** Answering all the questions that remain, against a working database,
    leaves the player's stored total raised by the final score. *)
Lemma play_persists name qs : forall answers k s w z,
  s_name s = Some name ->
  the_questions s = qs ->
  the_index s = Z.of_nat k ->
  (k + List.length answers = List.length qs)%nat ->
  answers <> [] ->
  0 <= the_score s ->
  healthy w = true ->
  table_ok (db w) ->
  stamps_in_past w ->
  stored_score name (db w) = Some z ->
  z + the_score s + Z.of_nat (List.length answers) <= 2147483647 ->
  stored_score name (db (snd (play answers s w)))
  = Some (z + the_score s + count_correct (skipn k qs) answers).
Proof.
  induction answers as [|a rest IH];
    intros k s w z Hname Hqs Hidx Hlen Hne Hsc Hh Hok Hpast Hz Hmax;
    [congruence|].
  cbn [List.length] in Hlen, Hmax.
  assert (Hk : (k < List.length qs)%nat) by lia.
  destruct (nth_error qs k) as [q|] eqn:Hq;
    [|apply nth_error_None in Hq; lia].
  assert (Hnonempty : the_questions s <> [])
    by (rewrite Hqs; destruct qs; [cbn in Hk; lia | discriminate]).
  assert (Hi : 0 <= the_index s < len (the_questions s))
    by (rewrite Hidx, Hqs; unfold len; lia).
  assert (Hq' : nth_error (the_questions s) (Z.to_nat (the_index s)) = Some q)
    by (rewrite Hidx, Hqs, Nat2Z.id; exact Hq).
  destruct (game_post_in_progress (post_answer a) s w name q eq_refl Hname
              Hnonempty Hi Hq') as [resp [w1 [Hg _]]].
  assert (Hw1 : w1 = snd (game (post_answer a) s w)) by (rewrite Hg; reflexivity).
  cbn [play]. rewrite Hg.
  rewrite (skipn_nth_error qs k q Hq). cbn [count_correct].
  pose proof (the_score_graded (post_answer a) q s) as Hgr.
  assert (Hb : 0 <= (if is_correct (post_answer a) q then 1 else 0) <= 1)
    by (destruct (is_correct (post_answer a) q); lia).
  destruct rest as [|b rest'].
  - assert (Elt : (the_index s + 1 <? len (the_questions s)) = false)
      by (apply Z.ltb_ge; rewrite Hidx, Hqs; unfold len; cbn in Hlen; lia).
    rewrite Elt in *. cbn [play snd].
    rewrite count_correct_no_answers, Z.add_0_r.
    assert (Hzr : int4_range z = true)
      by (eapply stored_score_in_range; eassumption).
    assert (Hlast : the_index s + 1 = len (the_questions s))
      by (apply Z.ltb_ge in Elt; lia).
    assert (Hrg : int4_range (z + the_score (graded (post_answer a) q s))
                  = true).
    { unfold int4_range in *. apply andb_true_iff in Hzr.
      destruct Hzr as [Hlo Hhi]. apply Z.leb_le in Hlo.
      apply andb_true_iff. cbn [List.length] in Hmax.
      split; apply Z.leb_le; lia. }
    destruct (game_world_final (post_answer a) s w name q z eq_refl Hname
                Hnonempty (proj1 Hi) Hlast Hq' Hh Hok Hpast Hz Hrg)
      as [_ [Hst _]].
    rewrite Hw1, Hst, Hgr. f_equal. lia.
  - assert (Elt : (the_index s + 1 <? len (the_questions s)) = true)
      by (apply Z.ltb_lt; rewrite Hidx, Hqs; unfold len;
          cbn [List.length] in Hlen; lia).
    rewrite Elt in *.
    assert (Hmore : the_index s + 1 < len (the_questions s))
      by (apply Z.ltb_lt in Elt; exact Elt).
    destruct (game_world_nonfinal (post_answer a) s w name eq_refl Hname
                Hnonempty (proj1 Hi) Hmore Hh)
      as [Hdb [Hclock Hh1]].
    rewrite <- Hw1 in Hdb, Hclock, Hh1.
    rewrite (IH (S k) (graded (post_answer a) q s) w1 z).
    + rewrite Hgr. f_equal. lia.
    + rewrite s_name_graded. exact Hname.
    + unfold the_questions. rewrite the_questions_graded. exact Hqs.
    + rewrite the_index_graded, Hidx. lia.
    + cbn [List.length] in *. lia.
    + discriminate.
    + lia.
    + exact Hh1.
    + rewrite Hdb. exact Hok.
    + unfold stamps_in_past in *. rewrite Hdb, Hclock.
      eapply Forall_impl; [|exact Hpast]. cbn. intros p Hp. lia.
    + rewrite Hdb. exact Hz.
    + rewrite Hgr. cbn [List.length] in *. lia.
Qed.

Lemma stored_score_after_insert name d nid t :
  stored_score name
    (mkDatabase (if existsb (has_name name) (players d) then players d
                 else players d ++ [mkPlayer nid name 0 t])
                (next_id d + 1))
  = Some (score_or_zero name d).
Proof.
  unfold score_or_zero, stored_score. cbn [players].
  destruct (existsb (has_name name) (players d)) eqn:Eex.
  - destruct (filter (has_name name) (players d)) eqn:Ef; [|reflexivity].
    exfalso. apply existsb_exists in Eex. destruct Eex as [p [Hin Hn]].
    assert (Hin' : In p (filter (has_name name) (players d)))
      by (apply filter_In; auto).
    rewrite Ef in Hin'. destruct Hin'.
  - rewrite filter_app.
    assert (Hnone : filter (has_name name) (players d) = []).
    { destruct (filter (has_name name) (players d)) as [|p l] eqn:Ef;
        [reflexivity|].
      exfalso.
      assert (Hin : In p (filter (has_name name) (players d)))
        by (rewrite Ef; left; reflexivity).
      apply filter_In in Hin.
      assert (Hex : existsb (has_name name) (players d) = true)
        by (apply existsb_exists; exists p; exact Hin).
      congruence. }
    rewrite Hnone. cbn. unfold has_name. cbn. rewrite String.eqb_refl.
    reflexivity.
Qed.

(** Starting a game against a working database: the player has a row
    afterwards, with the total it had or 0. *)
Lemma index_world request s w :
  method request = POST ->
  strip (form_get "name" "" (form request)) <> "" ->
  healthy w = true ->
  stamps_in_past w ->
  int4_range (next_id (db w)) = true ->
  healthy (snd (index request s w)) = true
  /\ stamps_in_past (snd (index request s w))
  /\ stored_score (strip (form_get "name" "" (form request)))
                  (db (snd (index request s w)))
     = Some (score_or_zero (strip (form_get "name" "" (form request)))
                           (db w)).
Proof.
  intros Hm Hname Hh Hpast Hr.
  set (name := strip (form_get "name" "" (form request))) in *.
  assert (Eg : exists r w3,
             index request s w = (r, w3)
             /\ healthy w3 = true
             /\ stamps_in_past w3
             /\ stored_score name (db w3)
                = Some (score_or_zero name (db w))).
  { unfold index.
    destruct (get_leaderboard_healthy 3 w Hh) as [A2 [A3 A4]]; [lia|].
    destruct (get_leaderboard_ok 3 w) as [v1 [w1 [E1 _]]].
    rewrite E1 in A2, A3, A4. cbn [snd] in A2, A3, A4.
    unfold bind at 1. rewrite E1. cbv zeta. rewrite Hm.
    fold name. apply String.eqb_neq in Hname. rewrite Hname.
    destruct (generate_loop_ok (Z.to_nat 10) [] w1 (Forall_nil _))
      as [qs [Hqs [_ [_ Hsame]]]].
    unfold bind at 1. unfold generate_questions.
    destruct (generate_loop (Z.to_nat 10) [] w1) as [o w2].
    cbn [fst snd] in *. subst o. unfold same_but_rng in Hsame.
    assert (Hh2 : healthy w2 = true) by (rewrite Hsame; exact A4).
    assert (Hdb2 : db w2 = db w) by (rewrite Hsame; cbn; exact A2).
    assert (Hc2 : clock w2 = clock w + 1) by (rewrite Hsame; cbn; exact A3).
    assert (Hr2 : int4_range (next_id (db w2)) = true)
      by (rewrite Hdb2; exact Hr).
    destruct (create_player_goes_through name w2 (healthy_ready w2 Hh2) Hr2)
      as [C1 [C2 [C3 [C4 [C5 C6]]]]].
    destruct (create_player_ok name w2) as [w3 [E3 _]].
    rewrite E3 in C1, C2, C3, C4, C5, C6.
    cbn [snd] in C1, C2, C3, C4, C5, C6.
    unfold bind at 1. rewrite E3. unfold ret.
    eexists. exists w3. split; [reflexivity|].
    split; [eapply healthy_after; eassumption|]. split.
    - unfold stamps_in_past. rewrite C1, C3, Hdb2, Hc2.
      destruct (existsb _ (players (db w))).
      + eapply Forall_impl; [|exact Hpast]. cbn. intros p Hp. lia.
      + apply Forall_app. split.
        * eapply Forall_impl; [|exact Hpast]. cbn. intros p Hp. lia.
        * constructor; [cbn; lia | constructor].
    - rewrite <- (stored_score_after_insert name (db w) (next_id (db w))
                    (clock w2 + 1)).
      unfold stored_score. rewrite C1, Hdb2. reflexivity. }
  destruct Eg as [r [w3 [Eg Hfacts]]]. rewrite Eg. exact Hfacts.
Qed.

(** X22.  A finished game is persisted.  Against a working database (a
    descriptor configured, no fault, a well-formed table whose rows were
    stamped in the past, room in the serial and in the INTEGER column), a
    player whose name can be stored (no NUL character, up to
    [max_name_bytes] bytes), who starts a game through [index] and
    submits ten answers, ends with a stored total_score equal to the
    total held before the game (0 for a new player) plus the number of
    correct answers, which is also the final score of the session; the
    prune that follows the commit does not delete the player. *)
Theorem finished_game_is_persisted
  (request : Request) (session0 : Session) (w : World)
  (answers : list string) :
  method request = POST ->
  strip (form_get "name" "" (form request)) <> "" ->
  storable (strip (form_get "name" "" (form request))) = true ->
  List.length answers = 10%nat ->
  healthy w = true ->
  table_ok (db w) ->
  stamps_in_past w ->
  int4_range (next_id (db w)) = true ->
  score_or_zero (strip (form_get "name" "" (form request))) (db w) + 10
  <= 2147483647 ->
  exists qs s1 w1 s2 w2,
    index request session0 w = (Ok (Redirect "game", s1), w1)
    /\ s_questions s1 = Some qs
    /\ play answers s1 w1 = (Ok s2, w2)
    /\ s_final_score s2 = Some (count_correct qs answers)
    /\ stored_score (strip (form_get "name" "" (form request))) (db w2)
       = Some (score_or_zero (strip (form_get "name" "" (form request)))
                             (db w)
               + count_correct qs answers).
Proof.
  intros Hm Hname _ Hlen Hh Hok Hpast Hr Hmax.
  destruct (index_starts_game request session0 w Hm Hname)
    as [qs [w1 [Hidx [Hqs _]]]].
  destruct (index_world request session0 w Hm Hname Hh Hpast Hr)
    as [Hh1 [Hpast1 Hstored1]].
  destruct (handlers_table_ok request session0 w Hok) as [Hok1 _].
  rewrite Hidx in Hh1, Hpast1, Hstored1, Hok1.
  cbn [snd] in Hh1, Hpast1, Hstored1, Hok1.
  set (name := strip (form_get "name" "" (form request))) in *.
  set (s1 := mkSession (Some name) (Some 0) (Some qs) (Some 0) None (Some 0))
    in *.
  assert (Hne : answers <> [])
    by (destruct answers; [discriminate Hlen | discriminate]).
  assert (Hk : (0 + List.length answers = List.length qs)%nat)
    by (unfold len in Hqs; cbn; lia).
  destruct (play_to_completion name qs answers 0%nat s1 w1)
    as [s2 [w2 [Hp [_ [_ [_ [_ [P5 _]]]]]]]]; auto.
  pose proof (play_persists name qs answers 0%nat s1 w1
                (score_or_zero name (db w)) eq_refl eq_refl eq_refl Hk Hne)
    as Hpers.
  rewrite Hp in Hpers. cbn [snd skipn] in Hpers, P5.
  change (the_score s1) with 0 in Hpers, P5.
  rewrite Z.add_0_r in Hpers. rewrite Z.add_0_l in P5.
  exists qs, s1, w1, s2, w2.
  split; [exact Hidx|]. split; [reflexivity|]. split; [exact Hp|].
  split; [exact P5|].
  apply Hpers; auto; try lia; rewrite Hlen; cbn; lia.
Qed.

(** X23.  The page after the last answer.  Against a working database,
    the POST that answers the last question of a game returns the
    game-over page with the final score of the session (the running score
    plus one if this answer is right) and the player's total as it stands
    after the commit, the stored total before plus the final score; the
    session is closed, and the stored total is that value. *)
Theorem last_answer_shows_new_total
  (request : Request) (session : Session) (w : World)
  (name : string) (z : Z) :
  method request = POST ->
  s_name session = Some name ->
  the_questions session <> [] ->
  0 <= the_index session ->
  the_index session + 1 = len (the_questions session) ->
  healthy w = true ->
  table_ok (db w) ->
  stamps_in_past w ->
  stored_score name (db w) = Some z ->
  0 <= the_score session ->
  z + the_score session + 1 <= 2147483647 ->
  exists q leaderboard,
    nth_error (the_questions session) (Z.to_nat (the_index session)) = Some q
    /\ fst (game request session w)
       = Ok (RenderGameOver
               (the_score session + (if is_correct request q then 1 else 0))
               (PInt (z + (the_score session
                           + (if is_correct request q then 1 else 0))))
               leaderboard,
             completed (graded request q session))
    /\ stored_score name (db (snd (game request session w)))
       = Some (z + (the_score session
                    + (if is_correct request q then 1 else 0))).
Proof.
  intros Hm Hname Hqs Hi0 Hlast Hh Hok Hpast Hz Hsc Hmax.
  assert (Hi : 0 <= the_index session < len (the_questions session)) by lia.
  destruct (list_getitem_nth _ _ Hi) as [q [_ Hq]].
  pose proof (the_score_graded request q session) as Hgr.
  assert (Hb : 0 <= (if is_correct request q then 1 else 0) <= 1)
    by (destruct (is_correct request q); lia).
  assert (Hzr : int4_range z = true)
    by (eapply stored_score_in_range; eassumption).
  assert (Hrg : int4_range (z + the_score (graded request q session))
                = true).
  { unfold int4_range in *. apply andb_true_iff in Hzr.
    destruct Hzr as [Hlo Hhi]. apply Z.leb_le in Hlo.
    apply andb_true_iff. split; apply Z.leb_le; lia. }
  destruct (game_world_final request session w name q z Hm Hname Hqs Hi0
              Hlast Hq Hh Hok Hpast Hz Hrg)
    as [[lb Hfst] [Hst _]].
  rewrite Hgr in Hfst, Hst.
  exists q, lb. auto.
Qed.

(* ------------------------------------------------------------------ *)
(** ** Scores never go down *)

Lemma scores_kept_refl d : scores_kept d d.
Proof.
  split; [lia|]. intros p' Hin. left. exists p'. repeat split; auto; lia.
Qed.

Lemma scores_kept_trans d1 d2 d3 :
  scores_kept d1 d2 -> scores_kept d2 d3 -> scores_kept d1 d3.
Proof.
  intros [Hn12 H12] [Hn23 H23]. split; [lia|].
  intros p3 Hin3. destruct (H23 p3 Hin3) as [[p2 [Hin2 [Hid [Hnm Hsc]]]]|[Hnew Hpos]].
  - destruct (H12 p2 Hin2) as [[p1 [Hin1 [Hid1 [Hnm1 Hsc1]]]]|[Hnew Hpos]].
    + left. exists p1. repeat split; try congruence. lia.
    + right. split; [congruence | lia].
  - right. split; lia.
Qed.

Lemma run_statement_scores_kept query now d d' rows :
  adds_no_negative query ->
  run_statement query now d = Some (d', rows) ->
  scores_kept d d'.
Proof.
  intros Hallowed Hrun. destruct query as [n|n|pts n|k|m];
    cbn [run_statement] in Hrun.
  - inversion Hrun; subst. apply scores_kept_refl.
  - destruct (negb (int4_range (next_id d))); [discriminate|].
    destruct (existsb (has_name n) (players d));
      inversion Hrun; subst; clear Hrun; (split; [cbn; lia|]); cbn.
    + intros p' Hin. left. exists p'. repeat split; auto; lia.
    + intros p' Hin. apply in_app_or in Hin. destruct Hin as [Hin|[<-|[]]].
      * left. exists p'. repeat split; auto; lia.
      * right. cbn. lia.
  - destruct (existsb _ (players d)); [discriminate|].
    inversion Hrun; subst; clear Hrun. split; [cbn; lia|]. cbn.
    intros p' Hin. apply in_map_iff in Hin. destruct Hin as [p [Hp Hin]].
    left. exists p. subst p'. unfold add_points.
    cbn in Hallowed.
    destruct (has_name n p); cbn; repeat split; auto; lia.
  - destruct (k <? 0); inversion Hrun; subst. apply scores_kept_refl.
  - destruct (m <? 0); inversion Hrun; subst; clear Hrun.
    split; [cbn; lia|]. cbn. intros p' Hin. apply filter_In in Hin.
    left. exists p'. repeat split; try tauto; lia.
Qed.

Lemma execute_query_scores_kept query fetchone fetchall w :
  adds_no_negative query ->
  scores_kept (db w) (db (snd (execute_query query fetchone fetchall w))).
Proof.
  intros Hallowed.
  destruct (execute_query_db query fetchone fetchall w)
    as [E|[now [rows Hrun]]].
  - rewrite E. apply scores_kept_refl.
  - eapply run_statement_scores_kept; eassumption.
Qed.

(** X24.  No request lowers a score.  For every reachable session, every
    request to [index] or [game] and every outcome of its database calls,
    each row of the table afterwards is a row from before with the same
    id and name and a total_score at least as high, or a row created by
    the request with a total >= 0; and the serial counter never goes
    back. *)
Theorem handlers_never_lower_a_score
  (request : Request) (session : Session) (w : World) :
  reachable session ->
  scores_kept (db w) (db (snd (index request session w)))
  /\ scores_kept (db w) (db (snd (game request session w))).
Proof.
  intros Hreach.
  destruct (reachable_session_inv _ Hreach) as [[Hsc _] _].
  set (R := fun w w' : World => scores_kept (db w) (db w')).
  assert (Hrefl : forall w, R w w) by (intros; apply scores_kept_refl).
  assert (Htrans : forall x y z, R x y -> R y z -> R x z)
    by (intros x y z; apply scores_kept_trans).
  assert (Hexec : forall query fetchone fetchall w0,
             adds_no_negative query ->
             R w0 (snd (execute_query query fetchone fetchall w0)))
    by (intros; apply execute_query_scores_kept; assumption).
  assert (Hlog : forall c w0, R w0 (log_call c w0))
    by (intros; apply scores_kept_refl).
  assert (Hrng : forall g w0, R w0 (set_rng g w0))
    by (intros; apply scores_kept_refl).
  split.
  - apply (respects_index R adds_no_negative); auto;
      try (intros name; exact I); exact I.
  - apply (respects_game R adds_no_negative); auto;
      try (intros name; exact I); try exact I.
    intros name d Hd. cbn. lia.
Qed.

End Program.


(** A linear congruential generator, used to run the model on concrete
    inputs. *)
Definition lcg_next (s : Z) : Z := (1103515245 * s + 12345) mod 2147483648.

Definition lcg_randbelow (n : Z) (s : Z) : Z * Z :=
  let s' := lcg_next s in
  ((if 0 <? n then (s' / 65536) mod n else 0), s').

Lemma lcg_randbelow_range :
  forall n g, 0 < n -> 0 <= fst (lcg_randbelow n g) < n.
Proof.
  intros n g Hn. unfold lcg_randbelow. cbn [fst].
  destruct (0 <? n) eqn:E.
  - apply Z.mod_pos_bound. exact Hn.
  - apply Z.ltb_ge in E. lia.
Qed.

#[export] Instance Lcg : RandomSource Z := {
  randbelow := lcg_randbelow;
  randbelow_range := lcg_randbelow_range
}.


(* ------------------------------------------------------------------ *)
(** * Concrete runs *)

(** A world with no database configured, for runs that only draw random
    numbers. *)
Definition lcg_world (seed : Z) : World :=
  mkWorld None None [] 0%nat (mkDatabase [] 1) 0 [] seed [] [].

(** A process that differs from [lcg_world 7] in its configuration, its
    table, its clock and its faults, and shares the generator state. *)
Definition other_world : World :=
  mkWorld (Some "postgres://db") None [] 0%nat (mkDatabase [] 5) 33
          [ExecuteError] 7 [] [].

(** A configured process with an empty table and the faults [fs] ahead. *)
Definition db_world (fs : list Fault) : World :=
  mkWorld (Some "postgres://db") None [] 0%nat (mkDatabase [] 1) 100 fs 42
          [] [].

(** A table of three players and a process holding it. *)
Definition three_players : list Player :=
  [mkPlayer 1 "Ava" 0 50; mkPlayer 2 "Ben" 12 70; mkPlayer 3 "Cy" 4 60].

Definition table_world : World :=
  mkWorld (Some "postgres://db") None [] 0%nat (mkDatabase three_players 4)
          100 [] 42 [] [].

Definition start_request : Request := mkRequest POST [("name", " Ava ")].

(** Ten answers to the questions drawn from generator state 42: seven
    right, one not a number, one wrong number, one empty. *)
Definition ten_answers : list string :=
  ["236"; "763"; "abc"; "58"; " 281 "; "1336"; "0"; "1278"; ""; "266"].

(** A game of two questions, the first one to be answered. *)
Definition two_question_session : Session :=
  mkSession (Some "Ava") (Some 0)
            (Some [mkQuestion 2 3 Plus 5; mkQuestion 9 4 Minus 5])
            (Some 0) None (Some 0).

(** A closed game. *)
Definition closed_session : Session :=
  mkSession (Some "Ava") (Some 0) (Some []) (Some 0) (Some "Correct!")
            (Some 7).

(** The scenario of the specification: "Ava" starts a game, answers ten
    questions, seven of them correctly; the game is closed with final
    score 7, one commit of 7, and the stored total is 7. *)
Example ava_scores_seven :
  match index start_request empty_session (db_world []) with
  | (Ok (_, s1), w1) =>
      match play ten_answers s1 w1 with
      | (Ok s2, w2) =>
          s_final_score s2 = Some 7
          /\ s_questions s2 = Some []
          /\ commits (calls w2) = [("Ava", 7)]
          /\ map p_total_score (players (db w2)) = [7]
      | _ => False
      end
  | _ => False
  end.
Proof. vm_compute. repeat split. Qed.

(** C5 at a concrete input: ten questions from generator state 42. *)
Lemma generate_questions_count_and_shape_witness :
  0 <= 10
  /\ exists qs, fst (generate_questions 10 (lcg_world 42)) = Ok qs
                /\ len qs = 10
                /\ Forall question_ok qs.
Proof.
  split; [lia|].
  apply (generate_questions_count_and_shape 10 (lcg_world 42)). lia.
Defined.

(** C9 at a concrete input: two processes that differ in everything but
    the generator state. *)
Lemma generate_questions_deterministic_in_rng_witness :
  rng (lcg_world 7) = rng other_world
  /\ fst (generate_questions 3 (lcg_world 7))
     = fst (generate_questions 3 other_world)
  /\ rng (snd (generate_questions 3 (lcg_world 7)))
     = rng (snd (generate_questions 3 other_world))
  /\ same_but_rng (lcg_world 7) (snd (generate_questions 3 (lcg_world 7))).
Proof.
  split; [reflexivity|].
  apply (generate_questions_deterministic_in_rng 3 (lcg_world 7) other_world).
  reflexivity.
Defined.

(** C9 as stated fails: the questions depend on process-global state, and
    the call changes it.  Two runs of [generate_questions 3], one right
    after the other in the same process, return different sequences,
    because the first run has advanced the generator shared through the
    [random] module. *)
Lemma generate_questions_depends_on_global_rng :
  fst (generate_questions 3 (snd (generate_questions 3 (lcg_world 42))))
  <> fst (generate_questions 3 (lcg_world 42))
  /\ snd (generate_questions 3 (lcg_world 42)) <> lcg_world 42.
Proof.
  split.
  - vm_compute. discriminate.
  - vm_compute. intros E. inversion E.
Qed.



(** The same reading holds of a call that meets no fault: connection 0
    lies idle again in pool object 0, which stays the live pool. *)
Example connection_returned_when_no_fault :
  returned_to_serving_pool (SelectLeaderboard 3) false true (db_world []).
Proof.
  intros pool conn Hacq. vm_compute in Hacq. inversion Hacq; subst.
  exists 0%nat, (mkPool [0%nat] []). vm_compute. auto.
Qed.

(** C4 at a concrete input: the leaderboard with no DATABASE_URL. *)
Lemma player_store_degrades_when_unavailable_witness :
  reports_unavailable (statement_of (CallGetLeaderboard 3)) (lcg_world 1)
  = true
  /\ fst (run_store_call (CallGetLeaderboard 3) (lcg_world 1))
     = Ok (empty_result (CallGetLeaderboard 3))
  /\ db (snd (run_store_call (CallGetLeaderboard 3) (lcg_world 1)))
     = db (lcg_world 1).
Proof.
  split; [reflexivity|].
  apply (player_store_degrades_when_unavailable (CallGetLeaderboard 3)
           (lcg_world 1)).
  reflexivity.
Defined.

(** C7 at a concrete input: Ava, at 0, is credited 7 and then 3. *)
Lemma update_player_score_accumulates_witness :
  url_set table_world = true
  /\ no_conn_out table_world = true
  /\ calm 2 table_world = true
  /\ filter (has_name "Ava") (players (db table_world))
     = [mkPlayer 1 "Ava" 0 50]
  /\ int4_range 7 = true
  /\ int4_range (7 + 3) = true
  /\ filter (has_name "Ava")
       (players (db (snd (update_player_score "Ava" 3
                            (snd (update_player_score "Ava" 7
                                    table_world))))))
     = [mkPlayer 1 "Ava" (7 + 3) (clock table_world + 2)]
  /\ filter (fun p => negb (has_name "Ava" p))
       (players (db (snd (update_player_score "Ava" 3
                            (snd (update_player_score "Ava" 7
                                    table_world))))))
     = filter (fun p => negb (has_name "Ava" p)) (players (db table_world))
  /\ executed (snd (update_player_score "Ava" 3
                      (snd (update_player_score "Ava" 7 table_world))))
     = executed table_world ++ [UpdateScore 7 "Ava"; UpdateScore 3 "Ava"].
Proof.
  do 6 (split; [reflexivity|]).
  apply (update_player_score_accumulates table_world "Ava" 7 3 1 50);
    reflexivity.
Defined.

Lemma three_players_distinct_ids :
  NoDup (map p_id (players (db table_world))).
Proof.
  cbn. repeat constructor; cbn; intuition discriminate.
Defined.

(** C8 at a concrete input: three players, the two most recent kept. *)
Lemma prune_players_keeps_most_recent_witness :
  0 <= 2
  /\ gateway_ready table_world = true
  /\ NoDup (map p_id (players (db table_world)))
  /\ len (players (db (snd (prune_players 2 table_world))))
     = Z.min 2 (len (players (db table_world)))
  /\ Permutation (players (db (snd (prune_players 2 table_world))))
                 (most_recent 2 (players (db table_world)))
  /\ (forall kept dropped,
        In kept (players (db (snd (prune_players 2 table_world)))) ->
        In dropped (players (db table_world)) ->
        ~ In dropped (players (db (snd (prune_players 2 table_world)))) ->
        p_last_played dropped <= p_last_played kept)
  /\ (len (players (db table_world)) <= 2 ->
      players (db (snd (prune_players 2 table_world)))
      = players (db table_world))
  /\ executed (snd (prune_players 2 table_world))
     = executed table_world ++ [DeleteStale 2].
Proof.
  split; [lia|]. split; [reflexivity|].
  split; [exact three_players_distinct_ids|].
  apply (prune_players_keeps_most_recent table_world 2);
    [lia | reflexivity | exact three_players_distinct_ids].
Defined.

(** C6 at a concrete input: "abc" submitted to the first of two
    questions. *)
Lemma answer_is_graded_and_index_advances_witness :
  method (post_answer "abc") = POST
  /\ in_progress two_question_session
  /\ exists q feedback,
       nth_error (the_questions two_question_session)
                 (Z.to_nat (the_index two_question_session)) = Some q
       /\ evaluate_answer (post_answer "abc")
            (the_questions two_question_session)
            (the_index two_question_session)
            (s_feedback two_question_session) two_question_session
          = Ok (graded (post_answer "abc") q two_question_session,
                the_index two_question_session + 1, Some feedback)
       /\ s_current_index (graded (post_answer "abc") q two_question_session)
          = Some (the_index two_question_session + 1)
       /\ the_score (graded (post_answer "abc") q two_question_session)
          = the_score two_question_session
            + (if is_correct (post_answer "abc") q then 1 else 0)
       /\ (is_correct (post_answer "abc") q = true
           <-> py_int (answer_text (post_answer "abc")) = Ok (q_answer q))
       /\ (forall e,
             py_int (answer_text (post_answer "abc")) = Raised e ->
             the_score (graded (post_answer "abc") q two_question_session)
             = the_score two_question_session)
       /\ s_feedback (graded (post_answer "abc") q two_question_session)
          = Some feedback
       /\ feedback = (if is_correct (post_answer "abc") q then "Correct!"
                      else incorrect_message (q_answer q))
       /\ exists resp w',
            game (post_answer "abc") two_question_session (db_world [])
            = (Ok (resp,
                   if the_index two_question_session + 1
                      <? len (the_questions two_question_session)
                   then graded (post_answer "abc") q two_question_session
                   else completed
                          (graded (post_answer "abc") q
                                  two_question_session)), w').
Proof.
  assert (Hin : in_progress two_question_session).
  { split; [discriminate|]. split; [discriminate|].
    split; [discriminate | reflexivity]. }
  split; [reflexivity|]. split; [exact Hin|].
  apply (answer_is_graded_and_index_advances (post_answer "abc")
           two_question_session (db_world []));
    [reflexivity | exact Hin].
Defined.

(** C2 at a concrete input: an answer posted to a closed game. *)
Lemma answer_after_completion_is_ignored_witness :
  method (post_answer "5") = POST
  /\ the_questions closed_session = []
  /\ exists resp w',
       game (post_answer "5") closed_session (db_world [])
       = (Ok (resp, closed_session), w')
       /\ commits (calls w') = commits (calls (db_world [])).
Proof.
  split; [reflexivity|]. split; [reflexivity|].
  apply (answer_after_completion_is_ignored (post_answer "5") closed_session
           (db_world [])); reflexivity.
Defined.

Lemma start_request_names_ava :
  strip (form_get "name" "" (form start_request)) <> "".
Proof. vm_compute. discriminate. Defined.

(** C1 at a concrete input: Ava's game of ten answers. *)
Lemma ten_answers_commit_once_witness :
  method start_request = POST
  /\ strip (form_get "name" "" (form start_request)) <> ""
  /\ List.length ten_answers = 10%nat
  /\ exists qs s1 w1 s2 w2 resp w3,
       index start_request empty_session (db_world [])
       = (Ok (Redirect "game", s1), w1)
       /\ s_questions s1 = Some qs /\ len qs = 10
       /\ play ten_answers s1 w1 = (Ok s2, w2)
       /\ s_questions s2 = Some []
       /\ s_final_score s2 = Some (count_correct qs ten_answers)
       /\ commits (calls w2)
          = commits (calls (db_world []))
            ++ [(strip (form_get "name" "" (form start_request)),
                 count_correct qs ten_answers)]
       /\ game (mkRequest GET []) s2 w2 = (Ok (resp, s2), w3)
       /\ commits (calls w3) = commits (calls w2).
Proof.
  split; [reflexivity|]. split; [exact start_request_names_ava|].
  split; [reflexivity|].
  apply (ten_answers_commit_once start_request empty_session (db_world [])
           ten_answers);
    [reflexivity | exact start_request_names_ava | reflexivity].
Defined.

(** The session [index] hands to Ava. *)
Definition started_session : Session :=
  Eval vm_compute in
    match index start_request empty_session (db_world []) with
    | (Ok (_, s), _) => s
    | (Raised _, _) => empty_session
    end.

Lemma started_session_reachable : reachable started_session.
Proof.
  apply (reach_step empty_session); [exact reach_empty|].
  eapply (step_index _ _ start_request (db_world [])).
  vm_compute. reflexivity.
Defined.

(** Ava after nine of her ten answers: the last question is open. *)
Definition ava_on_last_question : Session :=
  Eval vm_compute in
    match play (firstn 9 ten_answers) started_session (db_world []) with
    | (Ok s, _) => s
    | (Raised _, _) => empty_session
    end.

Lemma ava_on_last_question_reachable : reachable ava_on_last_question.
Proof.
  apply (play_reachable (firstn 9 ten_answers) started_session
           (db_world [])
           ava_on_last_question
           (snd (play (firstn 9 ten_answers) started_session
                   (db_world []))));
    [exact started_session_reachable | vm_compute; reflexivity].
Defined.

Lemma ava_on_last_question_in_progress : in_progress ava_on_last_question.
Proof.
  split; [discriminate|]. split; [discriminate|].
  split; [discriminate | reflexivity].
Defined.

(** C10 at a concrete input: Ava has answered nine questions, six of them
    correctly, and posts her last answer. *)
Lemma session_score_index_bounds_witness :
  reachable ava_on_last_question
  /\ the_score ava_on_last_question = 6
  /\ the_index ava_on_last_question = 9
  /\ len (the_questions ava_on_last_question) = 10
  /\ (0 <= the_score ava_on_last_question <= the_index ava_on_last_question
      /\ the_index ava_on_last_question
         <= len (the_questions ava_on_last_question))
  /\ (the_questions ava_on_last_question = [] ->
      the_score ava_on_last_question = 0
      /\ the_index ava_on_last_question = 0)
  /\ (forall request (w : @World Z) resp s' w',
        in_progress ava_on_last_question ->
        method request = POST ->
        the_index ava_on_last_question + 1
        = len (the_questions ava_on_last_question) ->
        game request ava_on_last_question w = (Ok (resp, s'), w') ->
        s_session_score s' = Some 0
        /\ s_current_index s' = Some 0
        /\ s_questions s' = Some [])
  /\ exists resp s' w',
       game (post_answer "266") ava_on_last_question (db_world [])
       = (Ok (resp, s'), w')
       /\ s_session_score s' = Some 0
       /\ s_current_index s' = Some 0
       /\ s_questions s' = Some []
       /\ s_final_score s' = Some 7.
Proof.
  destruct (session_score_index_bounds ava_on_last_question
              ava_on_last_question_reachable) as [Hbounds [Hnone Hlast]].
  split; [exact ava_on_last_question_reachable|].
  split; [reflexivity|]. split; [reflexivity|]. split; [reflexivity|].
  split; [exact Hbounds|]. split; [exact Hnone|]. split; [exact Hlast|].
  destruct (game (post_answer "266") ava_on_last_question (db_world []))
    as [[[resp s']|e] w'] eqn:Eg; [|vm_compute in Eg; discriminate Eg].
  exists resp, s', w'. split; [reflexivity|].
  destruct (Hlast (post_answer "266") (db_world []) resp s' w'
              ava_on_last_question_in_progress eq_refl eq_refl Eg)
    as [H1 [H2 H3]].
  split; [exact H1|]. split; [exact H2|]. split; [exact H3|].
  vm_compute in Eg. injection Eg as _ Es _. rewrite <- Es. reflexivity.
Defined.

(* ------------------------------------------------------------------ *)
(** * Concrete runs of the further properties *)

Lemma table_world_ok : table_ok (db table_world).
Proof.
  unfold table_ok. cbn. split; [|split].
  - repeat constructor; cbn; intuition discriminate.
  - repeat constructor; cbn; intuition discriminate.
  - repeat constructor.
Defined.

Lemma table_world_stamps : stamps_in_past table_world.
Proof.
  unfold stamps_in_past. cbn.
  repeat constructor; cbn; intro E; discriminate E.
Defined.

(** The process of [table_world] about to lose a connection. *)
Definition broken_table_world : World :=
  mkWorld (Some "postgres://db") None [] 0%nat (mkDatabase three_players 4)
          100 [ExecuteOperationalError] 42 [] [].

(** A POST of a blank name, and a plain GET. *)
Definition blank_request : Request := mkRequest POST [("name", "   ")].
Definition get_request : Request := mkRequest GET [].

(** Ava on the last of two questions, one right so far. *)
Definition last_question_session : Session :=
  mkSession (Some "Ava") (Some 1)
            (Some [mkQuestion 2 3 Plus 5; mkQuestion 9 4 Minus 5])
            (Some 1) (Some "Correct!") (Some 0).

Lemma two_question_session_in_progress : in_progress two_question_session.
Proof.
  split; [discriminate|]. split; [discriminate|].
  split; [discriminate | reflexivity].
Defined.

Lemma blank_request_is_blank :
  strip (form_get "name" "" (form blank_request)) = "".
Proof. reflexivity. Defined.
(** Closing a hypothesis at a concrete input. *)
Ltac concrete :=
  first
    [ reflexivity
    | exact table_world_ok
    | exact table_world_stamps
    | exact started_session_reachable
    | exact two_question_session_in_progress
    | exact start_request_names_ava
    | discriminate
    | lia
    | vm_compute; discriminate
    | vm_compute; let E := fresh in intro E; discriminate E ].

(** X1 at a concrete input: a call that loses its connection. *)
Lemma execute_query_leaves_no_conn_out_witness :
  (no_conn_out (db_world [ExecuteOperationalError]) = true) /\
  (no_conn_out (snd (execute_query (SelectLeaderboard 3) false true (db_world
    [ExecuteOperationalError]))) = true).
Proof.
  split; [concrete|].
  apply (execute_query_leaves_no_conn_out (SelectLeaderboard 3) false true
    (db_world [ExecuteOperationalError])); concrete.
Defined.

(** X2 at a concrete input: a call whose statement is rejected. *)
Lemma execute_query_sends_at_most_once_witness :
  (let w' := snd (execute_query (SelectLeaderboard 3) false true (db_world
    [ExecuteError])) in (executed w' = executed (db_world [ExecuteError]) \/
    executed w' = executed (db_world [ExecuteError]) ++ [SelectLeaderboard 3])
    /\ (url_set (db_world [ExecuteError]) = true -> no_conn_out (db_world
    [ExecuteError]) = true -> faults w' = tl (faults (db_world
    [ExecuteError])) /\ clock w' = clock (db_world [ExecuteError]) + 1) /\
    (url_set (db_world [ExecuteError]) = false -> execute_query
    (SelectLeaderboard 3) false true (db_world [ExecuteError]) = (PNone,
    db_world [ExecuteError]))).
Proof.
  exact (execute_query_sends_at_most_once (SelectLeaderboard 3) false true
    (db_world [ExecuteError])).
Defined.

(** X3 at a concrete input: the first call in a configured process. *)
Lemma get_db_pool_reuses_pool_witness :
  (get_db_pool (db_world []) = (Some 0%nat, snd (get_db_pool (db_world [])))) /\
  (get_db_pool (snd (get_db_pool (db_world []))) = (Some 0%nat, snd
    (get_db_pool (db_world []))) /\ (db_pool (db_world []) = Some 0%nat -> snd
    (get_db_pool (db_world [])) = db_world []) /\ (db_pool (db_world []) =
    None -> 0%nat = Datatypes.length (pools (db_world [])) /\ pools (snd
    (get_db_pool (db_world []))) = pools (db_world []) ++ [new_pool (next_conn
    (db_world []))])).
Proof.
  split; [concrete|].
  apply (get_db_pool_reuses_pool (db_world []) (snd (get_db_pool (db_world
    []))) 0%nat); concrete.
Defined.

(** X4 at a concrete input: an update of Ava's score loses its
    connection, and the leaderboard read that follows is served by a
    second pool. *)
Lemma gateway_recovers_on_next_call_witness :
  url_set broken_table_world = true
  /\ no_conn_out broken_table_world = true
  /\ hd NoFault (tl (faults broken_table_world)) = NoFault
  /\ operational_error (next_fault broken_table_world) = true
  /\ gateway_ready
       (snd (execute_query (UpdateScore 3 "Ava") false false
               broken_table_world)) = true
  /\ fst (execute_query (SelectLeaderboard 3) false true
            (snd (execute_query (UpdateScore 3 "Ava") false false
                    broken_table_world)))
     = PList [PTuple [PStr "Ben"; PInt 12]; PTuple [PStr "Cy"; PInt 4];
              PTuple [PStr "Ava"; PInt 0]]
  /\ exists p,
       fst (get_db_pool broken_table_world) = Some p
       /\ db_pool (snd (execute_query (UpdateScore 3 "Ava") false false
                          broken_table_world)) = None
       /\ db_pool
            (snd (execute_query (SelectLeaderboard 3) false true
                    (snd (execute_query (UpdateScore 3 "Ava") false false
                            broken_table_world))))
          = Some (List.length
                    (pools (snd (execute_query (UpdateScore 3 "Ava") false
                                   false broken_table_world))))
       /\ p <> List.length
                 (pools (snd (execute_query (UpdateScore 3 "Ava") false
                                false broken_table_world)))
       /\ List.length
            (pools
               (snd (execute_query (SelectLeaderboard 3) false true
                       (snd (execute_query (UpdateScore 3 "Ava") false
                               false broken_table_world)))))
          = S (List.length
                 (pools (snd (execute_query (UpdateScore 3 "Ava") false
                                false broken_table_world)))).
Proof.
  destruct (gateway_recovers_on_next_call (UpdateScore 3 "Ava")
              (SelectLeaderboard 3) false false false true
              broken_table_world eq_refl eq_refl eq_refl)
    as [Hready [Hnext Hpool]].
  split; [reflexivity|]. split; [reflexivity|]. split; [reflexivity|].
  split; [reflexivity|]. split; [exact Hready|]. split.
  - apply (Hnext (mkDatabase three_players 4)
             [PTuple [PStr "Ben"; PInt 12]; PTuple [PStr "Cy"; PInt 4];
              PTuple [PStr "Ava"; PInt 0]]);
      vm_compute; reflexivity.
  - exact (Hpool eq_refl).
Defined.

(** X5 at a concrete input: an update on the table of three players. *)
Lemma execute_query_keeps_table_ok_witness :
  (table_ok (db table_world)) /\
  (table_ok (db (snd (execute_query (UpdateScore 3 "Ava") false false
    table_world)))).
Proof.
  split; [concrete|].
  apply (execute_query_keeps_table_ok (UpdateScore 3 "Ava") false false
    table_world); concrete.
Defined.

(** X8 at a concrete input: a fourth player, Dee, created twice. *)
Lemma create_player_is_idempotent_witness :
  (storable "Dee" = true) /\
  (gateway_ready table_world = true) /\
  (int4_range (next_id (db table_world)) = true) /\
  (let w1 := snd (create_player "Dee" table_world) in let w2 := snd
    (create_player "Dee" w1) in existsb (has_name "Dee") (players (db w1)) =
    true /\ players (db w2) = players (db w1) /\ (existsb (has_name "Dee")
    (players (db table_world)) = true -> players (db w1) = players (db
    table_world)) /\ (existsb (has_name "Dee") (players (db table_world)) =
    false -> players (db w1) = players (db table_world) ++ [{| p_id := next_id
    (db table_world); p_name := "Dee"; p_total_score := 0; p_last_played :=
    clock table_world + 1 |}])).
Proof.
  split; [concrete|].
  split; [concrete|].
  split; [concrete|].
  apply (create_player_is_idempotent "Dee" table_world); concrete.
Defined.

(** X9 at a concrete input: the score of Ben. *)
Lemma get_player_score_returns_stored_witness :
  (gateway_ready table_world = true) /\
  (fst (get_player_score "Ben" table_world) = Ok match stored_score "Ben" (db
    table_world) with | Some z => PInt z | None => PNone end).
Proof.
  split; [concrete|].
  apply (get_player_score_returns_stored "Ben" table_world); concrete.
Defined.

(** X10 at a concrete input: Dee is created and looked up. *)
Lemma create_then_get_score_witness :
  (storable "Dee" = true) /\
  (url_set table_world = true) /\
  (no_conn_out table_world = true) /\
  (calm 2 table_world = true) /\
  (int4_range (next_id (db table_world)) = true) /\
  (fst (get_player_score "Dee" (snd (create_player "Dee" table_world))) = Ok
    (PInt match stored_score "Dee" (db table_world) with | Some z => z | None
    => 0 end)).
Proof.
  split; [concrete|].
  split; [concrete|].
  split; [concrete|].
  split; [concrete|].
  split; [concrete|].
  apply (create_then_get_score "Dee" table_world); concrete.
Defined.

(** X11 at a concrete input: Ava is credited 7 and looked up. *)
Lemma update_then_get_score_witness :
  (url_set table_world = true) /\
  (no_conn_out table_world = true) /\
  (calm 2 table_world = true) /\
  (filter (has_name "Ava") (players (db table_world)) = [{| p_id := 1; p_name
    := "Ava"; p_total_score := 0; p_last_played := 50 |}]) /\
  (int4_range (0 + 7) = true) /\
  (fst (get_player_score "Ava" (snd (update_player_score "Ava" 7
    table_world))) = Ok (PInt (0 + 7))).
Proof.
  split; [concrete|].
  split; [concrete|].
  split; [concrete|].
  split; [concrete|].
  split; [concrete|].
  apply (update_then_get_score "Ava" 7 1 0 50 table_world); concrete.
Defined.


(** X13 at a concrete input: Ava starts a game. *)
Lemma handlers_keep_table_ok_witness :
  (table_ok (db table_world)) /\
  (table_ok (db (snd (index start_request empty_session table_world))) /\
    table_ok (db (snd (game start_request empty_session table_world)))).
Proof.
  split; [concrete|].
  apply (handlers_keep_table_ok start_request empty_session table_world);
    concrete.
Defined.

(** X14 at a concrete input: an answer posted while the connection
    breaks. *)
Lemma handlers_leave_no_conn_out_witness :
  (no_conn_out (db_world [ExecuteOperationalError]) = true) /\
  (no_conn_out (snd (index (post_answer "5") two_question_session (db_world
    [ExecuteOperationalError]))) = true /\ no_conn_out (snd (game (post_answer
    "5") two_question_session (db_world [ExecuteOperationalError]))) = true).
Proof.
  split; [concrete|].
  apply (handlers_leave_no_conn_out (post_answer "5") two_question_session
    (db_world [ExecuteOperationalError])); concrete.
Defined.

(** X15 at a concrete input: an answer posted with no DATABASE_URL. *)
Lemma handlers_do_no_io_when_unconfigured_witness :
  (url_set (lcg_world 1) = false) /\
  (same_but_calls_rng (lcg_world 1) (snd (index (post_answer "5")
    two_question_session (lcg_world 1))) /\ same_but_calls_rng (lcg_world 1)
    (snd (game (post_answer "5") two_question_session (lcg_world 1)))).
Proof.
  split; [concrete|].
  apply (handlers_do_no_io_when_unconfigured (post_answer "5")
    two_question_session (lcg_world 1)); concrete.
Defined.

(** X16 at a concrete input: a name of three spaces. *)
Lemma index_rejects_blank_name_witness :
  (method blank_request = POST) /\
  (strip (form_get "name" "" (form blank_request)) = "") /\
  (exists (leaderboard : PyVal) (w' : World), index blank_request
    two_question_session table_world = (Ok (RenderLogin leaderboard (Some
    "Please enter your name."), two_question_session), w') /\ calls w' = calls
    table_world ++ [CallGetLeaderboard 3] /\ rng w' = rng table_world /\ db w'
    = db table_world).
Proof.
  split; [concrete|].
  split; [concrete|].
  apply (index_rejects_blank_name blank_request two_question_session
    table_world); concrete.
Defined.

(** X17 at a concrete input: Ava starts over in the middle of a game. *)
Lemma index_starts_fresh_game_witness :
  (method start_request = POST) /\
  (strip (form_get "name" "" (form start_request)) <> "") /\
  (exists (qs : list Question) (w1 : World), index start_request
    two_question_session table_world = (Ok (Redirect "game", {| s_name := Some
    (strip (form_get "name" "" (form start_request))); s_session_score := Some
    0; s_questions := Some qs; s_current_index := Some 0; s_feedback := None;
    s_final_score := Some 0 |}), w1) /\ len qs = 10 /\ Forall question_ok qs
    /\ calls w1 = calls table_world ++ [CallGetLeaderboard 3; CallCreatePlayer
    (strip (form_get "name" "" (form start_request)))]).
Proof.
  split; [concrete|].
  split; [concrete|].
  apply (index_starts_fresh_game start_request two_question_session
    table_world); concrete.
Defined.

(** X18 at a concrete input: the first of two questions. *)
Lemma game_get_shows_current_question_witness :
  (method get_request = GET) /\
  (in_progress two_question_session) /\
  (exists (q : Question) (total_score leaderboard : PyVal) (w' : World),
    nth_error (the_questions two_question_session) (Z.to_nat (the_index
    two_question_session)) = Some q /\ game get_request two_question_session
    table_world = (Ok (RenderGame q (the_index two_question_session + 1) (len
    (the_questions two_question_session)) (s_feedback two_question_session)
    total_score leaderboard, two_question_session), w') /\ commits (calls w')
    = commits (calls table_world)).
Proof.
  split; [concrete|].
  split; [concrete|].
  apply (game_get_shows_current_question get_request two_question_session
    table_world); concrete.
Defined.

(** X19 at a concrete input: a game just started, a rejected statement. *)
Lemma handlers_never_raise_witness :
  (reachable started_session) /\
  ((exists (resp : Response) (s' : Session) (w' : World), index (post_answer
    "abc") started_session (db_world [ExecuteError]) = (Ok (resp, s'), w')) /\
    exists (resp : Response) (s' : Session) (w' : World), game (post_answer
    "abc") started_session (db_world [ExecuteError]) = (Ok (resp, s'), w')).
Proof.
  split; [concrete|].
  apply (handlers_never_raise (post_answer "abc") started_session (db_world
    [ExecuteError])); concrete.
Defined.

(** X20 at a concrete input: a game just started. *)
Lemma reachable_sessions_have_ten_questions_witness :
  (reachable started_session) /\
  ((the_questions started_session = [] \/ len (the_questions started_session)
    = 10) /\ Forall question_ok (the_questions started_session) /\ 0 <=
    session_get (s_final_score started_session) 0 <= 10).
Proof.
  split; [concrete|].
  apply (reachable_sessions_have_ten_questions started_session); concrete.
Defined.

(** X21 at a concrete input: the first answer of a game. *)
Lemma game_commits_at_most_once_witness :
  (reachable started_session) /\
  (exists (resp : Response) (s' : Session) (w' : World), game (post_answer
    "236") started_session (db_world []) = (Ok (resp, s'), w') /\ (commits
    (calls w') = commits (calls (db_world [])) \/ exists (name : string)
    (delta : Z), commits (calls w') = commits (calls (db_world [])) ++ [(name,
    delta)] /\ s_name started_session = Some name /\ 0 <= delta <= 10 /\
    s_final_score s' = Some delta /\ s_questions s' = Some [])).
Proof.
  split; [concrete|].
  apply (game_commits_at_most_once (post_answer "236") started_session
    (db_world [])); concrete.
Defined.

(** X22 at a concrete input: Ava plays ten answers. *)
Lemma finished_game_is_persisted_witness :
  (method start_request = POST) /\
  (strip (form_get "name" "" (form start_request)) <> "") /\
  (storable (strip (form_get "name" "" (form start_request))) = true) /\
  (Datatypes.length ten_answers = 10%nat) /\
  (healthy table_world = true) /\
  (table_ok (db table_world)) /\
  (stamps_in_past table_world) /\
  (int4_range (next_id (db table_world)) = true) /\
  (score_or_zero (strip (form_get "name" "" (form start_request))) (db
    table_world) + 10 <= 2147483647) /\
  (exists (qs : list Question) (s1 : Session) (w1 : World) (s2 : Session) (w2
    : World), index start_request empty_session table_world = (Ok (Redirect
    "game", s1), w1) /\ s_questions s1 = Some qs /\ play ten_answers s1 w1 =
    (Ok s2, w2) /\ s_final_score s2 = Some (count_correct qs ten_answers) /\
    stored_score (strip (form_get "name" "" (form start_request))) (db w2) =
    Some (score_or_zero (strip (form_get "name" "" (form start_request))) (db
    table_world) + count_correct qs ten_answers)).
Proof.
  split; [concrete|].
  split; [concrete|].
  split; [concrete|].
  split; [concrete|].
  split; [concrete|].
  split; [concrete|].
  split; [concrete|].
  split; [concrete|].
  split; [concrete|].
  apply (finished_game_is_persisted start_request empty_session table_world
    ten_answers); concrete.
Defined.

(** X23 at a concrete input: Ava answers the last of two questions. *)
Lemma last_answer_shows_new_total_witness :
  (method (post_answer "5") = POST) /\
  (s_name last_question_session = Some "Ava") /\
  (the_questions last_question_session <> []) /\
  (0 <= the_index last_question_session) /\
  (the_index last_question_session + 1 = len (the_questions
    last_question_session)) /\
  (healthy table_world = true) /\
  (table_ok (db table_world)) /\
  (stamps_in_past table_world) /\
  (stored_score "Ava" (db table_world) = Some 0) /\
  (0 <= the_score last_question_session) /\
  (0 + the_score last_question_session + 1 <= 2147483647) /\
  (exists (q : Question) (leaderboard : PyVal), nth_error (the_questions
    last_question_session) (Z.to_nat (the_index last_question_session)) = Some
    q /\ fst (game (post_answer "5") last_question_session table_world) = Ok
    (RenderGameOver (the_score last_question_session + (if is_correct
    (post_answer "5") q then 1 else 0)) (PInt (0 + (the_score
    last_question_session + (if is_correct (post_answer "5") q then 1 else
    0)))) leaderboard, completed (graded (post_answer "5") q
    last_question_session)) /\ stored_score "Ava" (db (snd (game (post_answer
    "5") last_question_session table_world))) = Some (0 + (the_score
    last_question_session + (if is_correct (post_answer "5") q then 1 else
    0)))).
Proof.
  split; [concrete|].
  split; [concrete|].
  split; [concrete|].
  split; [concrete|].
  split; [concrete|].
  split; [concrete|].
  split; [concrete|].
  split; [concrete|].
  split; [concrete|].
  split; [concrete|].
  split; [concrete|].
  apply (last_answer_shows_new_total (post_answer "5") last_question_session
    table_world "Ava" 0); concrete.
Defined.

(** X24 at a concrete input: an answer in a game just started. *)
Lemma handlers_never_lower_a_score_witness :
  (reachable started_session) /\
  (scores_kept (db table_world) (db (snd (index (post_answer "236")
    started_session table_world))) /\ scores_kept (db table_world) (db (snd
    (game (post_answer "236") started_session table_world)))).
Proof.
  split; [concrete|].
  apply (handlers_never_lower_a_score (post_answer "236") started_session
    table_world); concrete.
Defined.
